(** * AISCRA supply-chain risk pipeline: a shallow embedding of the core

    The development follows the Python sources of the backend:

    - [risk_engine/scoring.py]            (module [Scoring])
    - [risk_engine/graph_propagation.py]  (module [GraphPropagation])
    - [ingestion/deduplicator.py]         (module [Deduplicator])
    - [recommender/supplier_finder.py]    (module [SupplierFinder])
    - [recommender/recommendation_text.py], [risk_engine/alert_generator.py]
                                          (module [AlertGenerator])
    - [risk_engine/workers.py]            (module [Workers])

    Modelling conventions.

    - Python floats are read as exact rationals ([Q]); [round(x, n)] is
      the round-half-to-even of [x * 10^n] divided by [10^n].  Equality of
      numbers is [Qeq] ([==]).  Where the outcome depends on the rounding
      of binary64 arithmetic (a comparison with a threshold, the digits
      that [round] keeps), the functions are given a second time on the
      floats themselves (modules [Float64], [Scoring64],
      [GraphPropagation64]).
    - A Python exception is an explicit [Raise] outcome of the [result]
      monad; [try / except Exception] is [catch].
    - A document read with [d.get(k, default)] is a record whose field is
      an [option]: [None] is the absent key.  A key read with [d[k]] raises
      [KeyError] when absent.
    - [str] is [string]; [lower], [upper], [strip] act on the ASCII range.
    - Dictionaries whose iteration order is irrelevant are [gmap]s, sets are
      [gset]s; collections whose order matters (database cursors, graph
      adjacency, the BFS queue) are lists. *)

From Stdlib Require Import QArith Qround Lqa ZArith Lia String Ascii List Bool.
From Stdlib Require Import DecimalString Sorted Permutation.
From Stdlib Require PrimFloat FloatOps SpecFloat.
From stdpp Require Import gmap strings list.
Import ListNotations.

Local Open Scope Q_scope.

(** ** Python runtime: exceptions *)

Module Py.

Inductive exn : Type :=
  | KeyError
  | IndexError
  | ZeroDivisionError
  | NetworkXError
  | DuplicateKeyError
  | ClientError.

Inductive result (A : Type) : Type :=
  | Ok (a : A)
  | Raise (e : exn).

Arguments Ok {A} a.
Arguments Raise {A} e.

Definition bind {A B : Type} (r : result A) (k : A -> result B) : result B :=
  match r with
  | Ok a => k a
  | Raise e => Raise e
  end.

(** [try: r  except Exception: h] *)
Definition catch {A : Type} (r : result A) (h : exn -> A) : A :=
  match r with
  | Ok a => a
  | Raise e => h e
  end.

(** [d[k]] on a possibly absent key. *)
Definition getitem {A : Type} (o : option A) : result A :=
  match o with
  | Some a => Ok a
  | None => Raise KeyError
  end.

(** [d.get(k, default)] *)
Definition get {A : Type} (o : option A) (default : A) : A :=
  match o with
  | Some a => a
  | None => default
  end.

(** [l[0]] *)
Definition first {A : Type} (l : list A) : result A :=
  match l with
  | x :: _ => Ok x
  | [] => Raise IndexError
  end.

(** ** Numbers *)

Definition Qltb (x y : Q) : bool := negb (Qle_bool y x).

(** [min(a, b)]: the first argument unless the second is smaller. *)
Definition min (a b : Q) : Q := if Qltb b a then b else a.

(** [max(a, b)]: the first argument unless the second is larger. *)
Definition max (a b : Q) : Q := if Qltb a b then b else a.

(** [a / b] on floats. *)
Definition div (a b : Q) : result Q :=
  if Qeq_bool b 0 then Raise ZeroDivisionError else Ok (a / b).

(** Nearest integer, ties to the even one. *)
Definition round_half_even (q : Q) : Z :=
  let f := Qfloor q in
  match Qcompare (q - inject_Z f) (1 # 2) with
  | Lt => f
  | Gt => (f + 1)%Z
  | Eq => if Z.even f then f else (f + 1)%Z
  end.

(** [round(q, 2)] and [round(q, 3)] *)
Definition round2 (q : Q) : Q := round_half_even (q * 100) # 100.
Definition round3 (q : Q) : Q := round_half_even (q * 1000) # 1000.

(** ** Strings *)

Definition is_upper (c : ascii) : bool :=
  let n := N_of_ascii c in (65 <=? n)%N && (n <=? 90)%N.

Definition is_lower (c : ascii) : bool :=
  let n := N_of_ascii c in (97 <=? n)%N && (n <=? 122)%N.

Definition lower_char (c : ascii) : ascii :=
  if is_upper c then ascii_of_N (N_of_ascii c + 32) else c.

Definition upper_char (c : ascii) : ascii :=
  if is_lower c then ascii_of_N (N_of_ascii c - 32) else c.

(** [str.isspace] on one character of the ASCII range: tab, line feed,
    vertical tab, form feed, carriage return, the four separators
    0x1c-0x1f, and the space. *)
Definition is_space (c : ascii) : bool :=
  let n := N_of_ascii c in
  ((9 <=? n)%N && (n <=? 13)%N) || ((28 <=? n)%N && (n <=? 32)%N).

Fixpoint map_string (f : ascii -> ascii) (s : string) : string :=
  match s with
  | EmptyString => EmptyString
  | String c r => String (f c) (map_string f r)
  end.

(** [s.lower()], [s.upper()] *)
Definition lower (s : string) : string := map_string lower_char s.
Definition upper (s : string) : string := map_string upper_char s.

(** [s.lstrip()] *)
Fixpoint lstrip (s : string) : string :=
  match s with
  | EmptyString => EmptyString
  | String c r => if is_space c then lstrip r else s
  end.

(** [s.rstrip()] *)
Fixpoint rstrip (s : string) : string :=
  match s with
  | EmptyString => EmptyString
  | String c r =>
      match rstrip r with
      | EmptyString => if is_space c then EmptyString else String c EmptyString
      | r' => String c r'
      end
  end.

(** [s.strip()] *)
Definition strip (s : string) : string := rstrip (lstrip s).

(** [s[:n]] *)
Fixpoint take (n : nat) (s : string) : string :=
  match n, s with
  | O, _ => EmptyString
  | S _, EmptyString => EmptyString
  | S m, String c r => String c (take m r)
  end.

(** [x in l] for a list of strings *)
Definition str_in (x : string) (l : list string) : bool :=
  existsb (String.eqb x) l.

(** [a == b] for two values that are a string or [None] *)
Definition opt_eqb (a b : option string) : bool :=
  match a, b with
  | Some x, Some y => String.eqb x y
  | None, None => true
  | _, _ => false
  end.

(** [s.replace(a, b)] for single characters *)
Definition replace_char (a b : ascii) (s : string) : string :=
  map_string (fun c => if Ascii.eqb c a then b else c) s.

(** [s.title()]: a letter that follows a letter is lowered, any other
    letter is raised. *)
Fixpoint title_from (prev_cased : bool) (s : string) : string :=
  match s with
  | EmptyString => EmptyString
  | String c r =>
      let cased := is_upper c || is_lower c in
      String (if cased then (if prev_cased then lower_char c else upper_char c) else c)
             (title_from cased r)
  end.

Definition title (s : string) : string := title_from false s.

(** [sep.join(l)] *)
Fixpoint join (sep : string) (l : list string) : string :=
  match l with
  | [] => EmptyString
  | [x] => x
  | x :: r => (x ++ sep ++ join sep r)%string
  end.

End Py.

Notation "'let*' x ':=' r 'in' k" := (Py.bind r (fun x => k))
  (at level 10, x name, r at level 100, k at level 200).

(** ** models/schemas.py: the documents of the store *)

(** [is_confirmed] may arrive from the LLM as a JSON string or as a JSON
    boolean. *)
Inductive json_flag : Type :=
  | JStr (s : string)
  | JBool (b : bool).

Module RiskScoreComponents.
Record t : Type := {
  probability : Q;
  impact : Q;
  urgency : Q;
  mitigation : Q
}.
End RiskScoreComponents.

(** A risk event document; [_id] is absent until the store assigns it. *)
Module RiskEvent.
Record t : Type := {
  _id : option string;
  article_id : option string;
  company_id : option string;
  risk_type : option string;
  affected_entities : option (list string);
  affected_supply_chain_nodes : option (list string);
  severity : option string;
  is_confirmed : option json_flag;
  time_horizon : option string;
  reasoning : option string;
  recommended_action : option string;
  risk_score_components : option RiskScoreComponents.t;
  risk_score : option Q;
  severity_band : option string
}.
End RiskEvent.

Module Supplier.
Record t : Type := {
  _id : string;
  company_id : option string;
  name : option string;
  country : option string;
  supplies : option (list string);
  supply_volume_pct : option Q;
  status : option string;
  approved_vendor : option bool;
  pre_qualified : option bool;
  is_single_source : option bool;
  esg_score : option Q;
  financial_health_score : option Q;
  max_capacity : option Q;
  lead_time_weeks : option Q;
  switching_cost_estimate : option Q
}.
End Supplier.

Module Company.
Record t : Type := {
  _id : string;
  company_name : option string;
  material_criticality : option (gmap string Q);
  inventory_days : option (gmap string Q);
  suppliers : option (list Supplier.t)
}.
End Company.

(** An article document; [_id] is absent until the store assigns it. *)
Module Article.
Record t : Type := {
  _id : option string;
  event_id : option string;
  headline : option string;
  body : option string;
  raw_relevance_score : option Q;
  processed : option bool;
  risk_extracted : option bool
}.
End Article.

Module ScoreBreakdown.
Record t : Type := {
  geographic_diversity : Q;
  capacity : Q;
  relationship : Q;
  esg : Q;
  financial : Q;
  switching_cost : Q;
  lead_time : Q
}.
End ScoreBreakdown.

Module AlternateSupplierRecommendation.
Record t : Type := {
  supplier_id : string;
  name : string;
  score : Q;
  lead_time_weeks : Q;
  approved_vendor : bool;
  country : string;
  score_breakdown : ScoreBreakdown.t
}.
End AlternateSupplierRecommendation.

(** The recommendation text of an alert: the answer of the LLM, or the
    fallback template with the values it interpolates. *)
Inductive recommendation : Type :=
  | FromLLM (text : string)
  | Template (severity_band : string)
             (top : option AlternateSupplierRecommendation.t).

(** An alert document; its timestamps are left out. *)
Module Alert.
Record t : Type := {
  _id : string;
  risk_event_id : string;
  company_id : string;
  severity_band : string;
  risk_score : Q;
  title : string;
  description : string;
  affected_supplier : string;
  affected_material : string;
  recommendations : list AlternateSupplierRecommendation.t;
  recommendation_text : option recommendation;
  is_acknowledged : bool;
  notification_sent : bool
}.
End Alert.

(** ** models/db.py: the collections of the document store, each in
    insertion order, and the counter from which [insert_one] draws the
    [_id] of a new document *)

Module Db.
Record t : Type := {
  companies : list Company.t;
  suppliers : list Supplier.t;
  articles : list Article.t;
  risk_events : list RiskEvent.t;
  alerts : list Alert.t;
  next_oid : N
}.

(** The text of the object id drawn from the counter. *)
Definition oid (n : N) : string :=
  ("oid" ++ DecimalString.NilEmpty.string_of_uint (N.to_uint n))%string.
End Db.

(** ** utils/config.py *)

Module Settings.
Record t : Type := {
  alert_threshold_score : Q;
  company_id : string
}.

Definition default : t :=
  {| alert_threshold_score := 3.0; company_id := "company_nayara_energy" |}.
End Settings.

(** ** risk_engine/scoring.py *)

Module Scoring.
Import Py.

Record score_result : Type := {
  risk_score : Q;
  severity_band : string;
  components : RiskScoreComponents.t
}.

Definition prob_map (sev : string) : option Q :=
  if String.eqb sev "critical" then Some 0.95
  else if String.eqb sev "high" then Some 0.80
  else if String.eqb sev "medium" then Some 0.55
  else if String.eqb sev "low" then Some 0.25
  else None.

Definition urgency_map (h : string) : option Q :=
  if String.eqb h "immediate" then Some 2.0
  else if String.eqb h "days" then Some 1.5
  else if String.eqb h "weeks" then Some 1.0
  else if String.eqb h "months" then Some 0.5
  else None.

(** The confirmation adjustment: [== "uncertain"], then
    [== "false" or == False]. *)
Definition confirmation_factor (c : json_flag) : Q :=
  match c with
  | JStr s =>
      if String.eqb s "uncertain" then 0.7
      else if String.eqb s "false" then 0.3
      else 1
  | JBool b => if b then 1 else 0.3
  end.

Definition score_to_band (score : Q) : string :=
  if Qle_bool 10 score then "critical"
  else if Qle_bool 6 score then "high"
  else if Qle_bool 3 score then "medium"
  else "low".

Definition available_status (st : string) : bool :=
  str_in st ["active"; "alternate"; "pre_qualified"].

Definition count_alternate_suppliers (material : string) (cp : Company.t) : Z :=
  match Company.suppliers cp with
  | None => 0%Z
  | Some sups =>
      let count :=
        fold_left
          (fun (count : Z) (s : Supplier.t) =>
             let sup := get (Supplier.supplies s) [] in
             let st := get (Supplier.status s) "active" in
             if str_in (lower material) (map lower sup)
             then (if available_status st then (count + 1)%Z else count)
             else count)
          sups 0%Z in
      Z.max 0 (count - 1)
  end.

Definition calculate_risk_score
    (rd : RiskEvent.t) (sup : Supplier.t) (cp : Company.t) : result score_result :=
  (* probability *)
  let probability0 := get (prob_map (get (RiskEvent.severity rd) "medium")) 0.55 in
  let probability :=
    probability0 * confirmation_factor (get (RiskEvent.is_confirmed rd) (JStr "uncertain")) in
  (* impact *)
  let dependency_ratio := get (Supplier.supply_volume_pct sup) 50 / 100 in
  let* material := first (get (Supplier.supplies sup) ["unknown"]) in
  let material_criticality :=
    get (get (Company.material_criticality cp) ∅ !! material) 5 in
  let inventory_days := get (get (Company.inventory_days cp) ∅ !! material) 0 in
  let* buffer_score := div 1 (1 + inventory_days / 30) in
  let impact0 := dependency_ratio * (material_criticality / 10) * buffer_score * 10 in
  let impact := max 1 (min 10 impact0) in
  (* urgency *)
  let urgency := get (urgency_map (get (RiskEvent.time_horizon rd) "weeks")) 1.0 in
  (* mitigation *)
  let num_alternates := count_alternate_suppliers material cp in
  let mitigation0 := 1 + min (inject_Z num_alternates * 0.2) 1 in
  let mitigation := if get (Supplier.is_single_source sup) false then 0.5 else mitigation0 in
  (* final score *)
  let* score := div (probability * impact * urgency) mitigation in
  let severity_band := score_to_band score in
  Ok {| risk_score := round2 score;
        severity_band := severity_band;
        components :=
          {| RiskScoreComponents.probability := round3 probability;
             RiskScoreComponents.impact := round2 impact;
             RiskScoreComponents.urgency := urgency;
             RiskScoreComponents.mitigation := mitigation |} |}.

End Scoring.

(** ** risk_engine/graph_propagation.py *)

Module GraphPropagation.
Import Py.

(** The node and edge attributes that [propagate_risk] reads. *)
Record node_attrs : Type := {
  name : option string;
  is_single_source : option bool
}.

Record edge_attrs : Type := {
  weight : option Q
}.

(** A [networkx.DiGraph]: every node with its attributes and its
    successors, both in insertion order. *)
Definition DiGraph : Type :=
  list (string * (node_attrs * list (string * edge_attrs))).

Fixpoint assoc {A : Type} (k : string) (l : list (string * A)) : option A :=
  match l with
  | [] => None
  | (k', a) :: r => if String.eqb k k' then Some a else assoc k r
  end.

(** [G.nodes[n]] *)
Definition nodes (G : DiGraph) (n : string) : result node_attrs :=
  match assoc n G with
  | Some (a, _) => Ok a
  | None => Raise KeyError
  end.

(** [G.successors(n)], each successor with the data of its edge [G[n][m]] *)
Definition successors (G : DiGraph) (n : string) : result (list (string * edge_attrs)) :=
  match assoc n G with
  | Some (_, succs) => Ok succs
  | None => Raise NetworkXError
  end.

Definition vulnerability (successor_data : node_attrs) : Q :=
  if get (is_single_source successor_data) false then 1.5 else 1.0.

Definition propagated_score (score dep_weight vulnerability : Q) : Q :=
  score * dep_weight * (0.5 + vulnerability * 0.5).

(** The state of the [while queue] loop. *)
Record state : Type := {
  propagated : gmap string Q;
  queue : list (string * Q);
  visited : gset string
}.

(** One round of [for successor in G.successors(node)]. *)
Definition visit_successor (G : DiGraph) (threshold score : Q)
    (acc : result (gmap string Q * list (string * Q)))
    (edge : string * edge_attrs) : result (gmap string Q * list (string * Q)) :=
  let* pq := acc in
  let propagated := fst pq in
  let queue := snd pq in
  let successor := fst edge in
  let dep_weight := get (weight (snd edge)) 0.5 in
  let* successor_data := nodes G successor in
  let s' := propagated_score score dep_weight (vulnerability successor_data) in
  if Qltb threshold s' then
    if match propagated !! successor with
       | None => true
       | Some old => Qltb old s'
       end
    then Ok (<[successor := round2 s']> propagated, queue ++ [(successor, s')])
    else Ok (propagated, queue)
  else Ok (propagated, queue).

(** One round of [while queue]; [None] when the queue is empty. *)
Definition step (G : DiGraph) (threshold : Q) (st : state) : option (result state) :=
  match queue st with
  | [] => None
  | (node, score) :: rest =>
      if bool_decide (node ∈ visited st) then
        Some (Ok {| propagated := propagated st; queue := rest;
                    visited := visited st |})
      else
        Some (let* succs := successors G node in
              let* pq := fold_left (visit_successor G threshold score) succs
                           (Ok (propagated st, rest)) in
              Ok {| propagated := fst pq; queue := snd pq;
                    visited := {[node]} ∪ visited st |})
  end.

(** The loop, run for at most [fuel] rounds. *)
Fixpoint loop (fuel : nat) (G : DiGraph) (threshold : Q) (st : state)
    : option (result (gmap string Q)) :=
  match fuel with
  | O => None
  | S fuel' =>
      match step G threshold st with
      | None => Some (Ok (propagated st))
      | Some (Raise e) => Some (Raise e)
      | Some (Ok st') => loop fuel' G threshold st'
      end
  end.

Definition initial_state (risk_node_id : string) (initial_score : Q) : state :=
  {| propagated := {[ risk_node_id := initial_score ]};
     queue := [(risk_node_id, initial_score)];
     visited := ∅ |}.

Definition number_of_edges (G : DiGraph) : nat :=
  fold_right (fun entry n => (length (snd (snd entry)) + n)%nat) O G.

(** Rounds that always suffice: one per queued pair (the origin and at
    most one per edge) and the round that finds the queue empty. *)
Definition enough_fuel (G : DiGraph) : nat := S (S (number_of_edges G)).

(** [propagate_risk]; the opening log line reads [G.nodes[risk_node_id]]. *)
Definition propagate_risk (G : DiGraph) (risk_node_id : string)
    (initial_score threshold : Q) : option (result (gmap string Q)) :=
  match nodes G risk_node_id with
  | Raise e => Some (Raise e)
  | Ok _ => loop (enough_fuel G) G threshold (initial_state risk_node_id initial_score)
  end.

(** [step] as a relation between loop states. *)
Definition steps_to (G : DiGraph) (threshold : Q) (st st' : state) : Prop :=
  step G threshold st = Some (Ok st').

(** The scores carried along the paths from the origin. *)
Definition has_edge (G : DiGraph) (n m : string) (e : edge_attrs) : Prop :=
  exists a succs, assoc n G = Some (a, succs) /\ In (m, e) succs.

Inductive reaches (G : DiGraph) (origin : string) (s0 : Q) : string -> Q -> Prop :=
  | reaches_origin : reaches G origin s0 origin s0
  | reaches_edge (n m : string) (s : Q) (e : edge_attrs) (a : node_attrs) :
      reaches G origin s0 n s ->
      has_edge G n m e ->
      nodes G m = Ok a ->
      reaches G origin s0 m
        (propagated_score s (get (weight e) 0.5) (vulnerability a)).

(** A score that arrives at [m] over an edge. *)
Definition arrives (G : DiGraph) (origin : string) (s0 : Q) (m : string) (s' : Q) : Prop :=
  exists n s e a,
    reaches G origin s0 n s /\ has_edge G n m e /\ nodes G m = Ok a
    /\ s' = propagated_score s (get (weight e) 0.5) (vulnerability a).


(** What a run may store for node [k]: the origin's initial score, or the
    rounding of a score above the threshold that arrived over an edge. *)
Definition entry_ok (G : DiGraph) (origin : string) (s0 threshold : Q)
    (k : string) (v : Q) : Prop :=
  (k = origin /\ v = s0)
  \/ exists s, arrives G origin s0 k s /\ threshold < s /\ v = round2 s.

(** The loop invariant: queued pairs are path scores, stored entries are
    [entry_ok], and the origin keeps an entry. *)
Definition run_invariant (G : DiGraph) (origin : string) (s0 threshold : Q)
    (p : gmap string Q) (q : list (string * Q)) : Prop :=
  (forall n s, In (n, s) q -> reaches G origin s0 n s)
  /\ (forall k v, p !! k = Some v -> entry_ok G origin s0 threshold k v)
  /\ is_Some (p !! origin).


(** The edges leaving the nodes not yet expanded. *)
Definition unvisited_out (G : DiGraph) (vis : gset string) : nat :=
  fold_right
    (fun entry n =>
       ((if bool_decide (fst entry ∈ vis) then O else length (snd (snd entry))) + n)%nat)
    O G.

Definition measure (G : DiGraph) (st : state) : nat :=
  (length (queue st) + unvisited_out G (visited st))%nat.

End GraphPropagation.

(** ** hashlib.md5 (RFC 1321), the digest used by the deduplicator *)

Module Hashlib.

Local Open Scope Z_scope.

Definition word (x : Z) : Z := x mod 2 ^ 32.

Definition rotl (x n : Z) : Z :=
  word (Z.lor (Z.shiftl x n) (Z.shiftr (word x) (32 - n))).

Definition lnot32 (x : Z) : Z := Z.lxor (word x) 0xffffffff.

Definition K : list Z :=
  [0xd76aa478; 0xe8c7b756; 0x242070db; 0xc1bdceee;
   0xf57c0faf; 0x4787c62a; 0xa8304613; 0xfd469501;
   0x698098d8; 0x8b44f7af; 0xffff5bb1; 0x895cd7be;
   0x6b901122; 0xfd987193; 0xa679438e; 0x49b40821;
   0xf61e2562; 0xc040b340; 0x265e5a51; 0xe9b6c7aa;
   0xd62f105d; 0x02441453; 0xd8a1e681; 0xe7d3fbc8;
   0x21e1cde6; 0xc33707d6; 0xf4d50d87; 0x455a14ed;
   0xa9e3e905; 0xfcefa3f8; 0x676f02d9; 0x8d2a4c8a;
   0xfffa3942; 0x8771f681; 0x6d9d6122; 0xfde5380c;
   0xa4beea44; 0x4bdecfa9; 0xf6bb4b60; 0xbebfbc70;
   0x289b7ec6; 0xeaa127fa; 0xd4ef3085; 0x04881d05;
   0xd9d4d039; 0xe6db99e5; 0x1fa27cf8; 0xc4ac5665;
   0xf4292244; 0x432aff97; 0xab9423a7; 0xfc93a039;
   0x655b59c3; 0x8f0ccc92; 0xffeff47d; 0x85845dd1;
   0x6fa87e4f; 0xfe2ce6e0; 0xa3014314; 0x4e0811a1;
   0xf7537e82; 0xbd3af235; 0x2ad7d2bb; 0xeb86d391].

Definition shifts : list Z :=
  [7; 12; 17; 22; 7; 12; 17; 22; 7; 12; 17; 22; 7; 12; 17; 22;
   5; 9; 14; 20; 5; 9; 14; 20; 5; 9; 14; 20; 5; 9; 14; 20;
   4; 11; 16; 23; 4; 11; 16; 23; 4; 11; 16; 23; 4; 11; 16; 23;
   6; 10; 15; 21; 6; 10; 15; 21; 6; 10; 15; 21; 6; 10; 15; 21].

(** The message padded to a multiple of 64 bytes: 0x80, zeros up to 56
    modulo 64, and the bit length as 8 little-endian bytes. *)
Definition le_bytes (n : nat) (x : Z) : list Z :=
  map (fun i => Z.shiftr x (8 * Z.of_nat i) mod 256) (seq 0 n).

Definition pad (msg : list Z) : list Z :=
  let len := Z.of_nat (length msg) in
  let zeros := Z.to_nat ((55 - len) mod 64) in
  msg ++ [0x80] ++ repeat 0 zeros ++ le_bytes 8 ((8 * len) mod 2 ^ 64).

Definition le_word (bytes : list Z) : Z :=
  fold_right (fun b acc => b + 256 * acc) 0 bytes.

Fixpoint words (n : nat) (bytes : list Z) : list Z :=
  match n with
  | O => []
  | S n' => le_word (firstn 4 bytes) :: words n' (skipn 4 bytes)
  end.

Record regs : Type := { rA : Z; rB : Z; rC : Z; rD : Z }.

Definition round (M : list Z) (r : regs) (i : nat) : regs :=
  let iz := Z.of_nat i in
  let '(F, g) :=
    if iz <? 16 then
      (Z.lor (Z.land (rB r) (rC r)) (Z.land (lnot32 (rB r)) (rD r)), iz)
    else if iz <? 32 then
      (Z.lor (Z.land (rD r) (rB r)) (Z.land (lnot32 (rD r)) (rC r)),
       (5 * iz + 1) mod 16)
    else if iz <? 48 then
      (Z.lxor (Z.lxor (rB r) (rC r)) (rD r), (3 * iz + 5) mod 16)
    else
      (Z.lxor (rC r) (Z.lor (rB r) (lnot32 (rD r))), (7 * iz) mod 16) in
  let F' := word (F + rA r + nth i K 0 + nth (Z.to_nat g) M 0) in
  {| rA := rD r; rD := rC r; rC := rB r;
     rB := word (rB r + rotl F' (nth i shifts 0)) |}.

Definition chunk (h : regs) (bytes : list Z) : regs :=
  let r := fold_left (round (words 16 bytes)) (seq 0 64) h in
  {| rA := word (rA h + rA r); rB := word (rB h + rB r);
     rC := word (rC h + rC r); rD := word (rD h + rD r) |}.

Fixpoint chunks (n : nat) (h : regs) (bytes : list Z) : regs :=
  match n with
  | O => h
  | S n' => chunks n' (chunk h (firstn 64 bytes)) (skipn 64 bytes)
  end.

Definition md5 (msg : list Z) : list Z :=
  let padded := pad msg in
  let h := chunks (length padded / 64)
             {| rA := 0x67452301; rB := 0xefcdab89;
                rC := 0x98badcfe; rD := 0x10325476 |} padded in
  le_bytes 4 (rA h) ++ le_bytes 4 (rB h) ++ le_bytes 4 (rC h) ++ le_bytes 4 (rD h).

Definition hex_digit (d : Z) : ascii :=
  ascii_of_N (Z.to_N (if d <? 10 then 48 + d else 87 + d)).

Fixpoint hex (bytes : list Z) : string :=
  match bytes with
  | [] => EmptyString
  | b :: r => String (hex_digit (b / 16)) (String (hex_digit (b mod 16)) (hex r))
  end.

(** [s.encode()] on the ASCII range. *)
Fixpoint encode (s : string) : list Z :=
  match s with
  | EmptyString => []
  | String c r => Z.of_N (N_of_ascii c) :: encode r
  end.

(** [hashlib.md5(s.encode()).hexdigest()] *)
Definition md5_hexdigest (s : string) : string := hex (md5 (encode s)).

End Hashlib.

(** ** ingestion/deduplicator.py *)

Module Deduplicator.
Import Py.

Record article : Type := {
  headline : option string;
  body : option string
}.

Definition generate_fingerprint (a : article) : string :=
  let headline := strip (lower (get (headline a) "")) in
  let content :=
    match body a with
    | Some b =>
        if String.eqb b "" then headline
        else (headline ++ " " ++ strip (lower (take 100 b)))%string
    | None => headline
    end in
  Hashlib.md5_hexdigest content.

End Deduplicator.

(** ** recommender/supplier_finder.py *)

Module SupplierFinder.
Import Py.

(** A scored candidate, as [score_alternate_supplier] returns it. *)
Record scored : Type := {
  supplier_id : string;
  name : string;
  score : Q;
  lead_time_weeks : Q;
  approved_vendor : bool;
  country : string;
  capacity : option Q;
  esg_score : option Q;
  score_breakdown : ScoreBreakdown.t
}.

Definition score_alternate_supplier
    (candidate disrupted : Supplier.t) (required_volume : Q) : result scored :=
  (* geographic diversity *)
  let geo_score :=
    if opt_eqb (Supplier.country candidate) (Supplier.country disrupted)
    then 0.3 else 1.0 in
  (* capacity coverage *)
  let candidate_capacity := get (Supplier.max_capacity candidate) 0 in
  let* cap_score :=
    (if Qltb 0 candidate_capacity
     then (let* ratio := div candidate_capacity required_volume in Ok (min ratio 1.0))
     else Ok 0.5) in
  (* existing relationship *)
  let rel_score :=
    if get (Supplier.approved_vendor candidate) false then 1.0
    else if get (Supplier.pre_qualified candidate) false then 0.8
    else 0.4 in
  (* ESG, financial stability, switching cost *)
  let esg_score := get (Supplier.esg_score candidate) 50 / 100 in
  let financial_score := get (Supplier.financial_health_score candidate) 5.0 / 10 in
  let switching_cost := get (Supplier.switching_cost_estimate candidate) 5.0 in
  let switch_score := 1.0 - switching_cost / 10 in
  (* lead time *)
  let lead_time_weeks := get (Supplier.lead_time_weeks candidate) 8 in
  let* lead_score := div 1.0 (1.0 + lead_time_weeks / 4) in
  let final_score :=
    (geo_score * 0.20 + cap_score * 0.25 + rel_score * 0.20 + esg_score * 0.10
     + financial_score * 0.10 + switch_score * 0.05 + lead_score * 0.10) * 10 in
  (* the debug line and the returned dictionary read these keys *)
  let* name := getitem (Supplier.name candidate) in
  let* country := getitem (Supplier.country candidate) in
  Ok {| supplier_id := Supplier._id candidate;
        name := name;
        score := round2 final_score;
        lead_time_weeks := lead_time_weeks;
        approved_vendor := get (Supplier.approved_vendor candidate) false;
        country := country;
        capacity := Supplier.max_capacity candidate;
        esg_score := Supplier.esg_score candidate;
        score_breakdown :=
          {| ScoreBreakdown.geographic_diversity := round2 geo_score;
             ScoreBreakdown.capacity := round2 cap_score;
             ScoreBreakdown.relationship := round2 rel_score;
             ScoreBreakdown.esg := round2 esg_score;
             ScoreBreakdown.financial := round2 financial_score;
             ScoreBreakdown.switching_cost := round2 switch_score;
             ScoreBreakdown.lead_time := round2 lead_score |} |}.

(** The MongoDB query for candidates: same material, another supplier,
    an available status, the same company. *)
Definition candidate_query (material disrupted_supplier_id : string)
    (company_id : option string) (s : Supplier.t) : bool :=
  str_in material (get (Supplier.supplies s) [])
  && negb (String.eqb (Supplier._id s) disrupted_supplier_id)
  && match Supplier.status s with
     | Some st => str_in st ["active"; "alternate"; "pre_qualified"]
     | None => false
     end
  && opt_eqb (Supplier.company_id s) company_id.

(** The scoring loop: a candidate whose scoring raises is skipped. *)
Definition score_candidates (candidates : list Supplier.t) (disrupted : Supplier.t)
    (required_volume : Q) : list scored :=
  fold_left
    (fun scored_alternates candidate =>
       catch (let* sc := score_alternate_supplier candidate disrupted required_volume in
              Ok (scored_alternates ++ [sc]))
             (fun _ => scored_alternates))
    candidates [].

(** [l.sort(key=lambda x: x["score"], reverse=True)]: Python's sort is
    stable, also in reverse, so the result is the one list that is
    non-increasing in the key and keeps equal keys in their given order;
    insertion from the right, in front of the first element that is not
    larger, builds it. *)
Fixpoint insert_desc (x : scored) (l : list scored) : list scored :=
  match l with
  | [] => [x]
  | y :: r => if Qltb (score x) (score y) then y :: insert_desc x r else x :: l
  end.

Definition sort_by_score_desc (l : list scored) : list scored :=
  fold_right insert_desc [] l.

Definition find_alternates (disrupted_supplier_id : string) (db : Db.t)
    (max_results : nat) : result (list scored) :=
  match find (fun s => String.eqb (Supplier._id s) disrupted_supplier_id)
             (Db.suppliers db) with
  | None => Ok []
  | Some disrupted =>
      let* material := first (get (Supplier.supplies disrupted) ["unknown"]) in
      let required_volume := get (Supplier.supply_volume_pct disrupted) 50 in
      let company_id := Supplier.company_id disrupted in
      (* the log line reads disrupted['name'] *)
      let* _ := getitem (Supplier.name disrupted) in
      let candidates :=
        List.filter (fun s => candidate_query material disrupted_supplier_id company_id s)
               (Db.suppliers db) in
      match candidates with
      | [] => Ok []
      | _ =>
          let scored_alternates := score_candidates candidates disrupted required_volume in
          let sorted := sort_by_score_desc scored_alternates in
          Ok (firstn max_results sorted)
      end
  end.

(** The candidates of the query, scored, in the order of the database. *)
Definition scored_candidates (disrupted_supplier_id : string) (db : Db.t) : list scored :=
  match find (fun s => String.eqb (Supplier._id s) disrupted_supplier_id)
             (Db.suppliers db) with
  | None => []
  | Some disrupted =>
      match first (get (Supplier.supplies disrupted) ["unknown"]) with
      | Raise _ => []
      | Ok material =>
          score_candidates
            (List.filter (fun s => candidate_query material disrupted_supplier_id
                                (Supplier.company_id disrupted) s)
                    (Db.suppliers db))
            disrupted (get (Supplier.supply_volume_pct disrupted) 50)
      end
  end.

(** [b] does not score higher than [a]. *)
Definition score_ge (a b : scored) : Prop := score b <= score a.

(** The tiebreak chain of the specification, as an order on results with
    equal scores: lead time ascending, then approved vendors first, then
    name ascending. *)
Definition tiebreak_ok (a b : scored) : Prop :=
  lead_time_weeks a < lead_time_weeks b
  \/ (lead_time_weeks a == lead_time_weeks b
      /\ (approved_vendor a = true /\ approved_vendor b = false
          \/ (approved_vendor a = approved_vendor b
              /\ (String.leb (name a) (name b) = true)))).

End SupplierFinder.

(** ** recommender/recommendation_text.py *)

Module RecommendationText.
Import Py.

(** The values interpolated into the prompt. *)
Record prompt : Type := {
  company_name : string;
  title : string;
  risk_score : Q;
  severity_band_upper : string;
  affected_supplier : string;
  affected_material : string;
  top_alternates : list AlternateSupplierRecommendation.t
}.

(** The LLM client: [generate_text] answers a prompt or raises. *)
Record gemini_client : Type := {
  generate_text : prompt -> result string
}.

(** The [alert] dictionary handed to [generate_recommendation_text]. *)
Record alert_data : Type := {
  alert_title : string;
  alert_risk_score : Q;
  alert_severity_band : string;
  alert_affected_supplier : string;
  alert_affected_material : string
}.

Definition generate_recommendation_text
    (alert : alert_data) (alternates : list AlternateSupplierRecommendation.t)
    (company_profile : Company.t) (client : gemini_client) : result recommendation :=
  let* company_name := getitem (Company.company_name company_profile) in
  let p :=
    {| company_name := company_name;
       title := alert_title alert;
       risk_score := alert_risk_score alert;
       severity_band_upper := upper (alert_severity_band alert);
       affected_supplier := alert_affected_supplier alert;
       affected_material := alert_affected_material alert;
       top_alternates := firstn 3 alternates |} in
  Ok (catch (let* recommendation := generate_text client p in
             Ok (FromLLM (strip recommendation)))
            (fun _ => Template (alert_severity_band alert) (head alternates))).

Definition generate_alert_title (risk_event : RiskEvent.t) : string :=
  let risk_type :=
    Py.title (replace_char "_" " " (get (RiskEvent.risk_type risk_event) "unknown")) in
  let affected := get (RiskEvent.affected_supply_chain_nodes risk_event) ["Unknown"] in
  let affected_str :=
    match affected with
    | a :: _ => a
    | [] => "Supply Chain"
    end in
  (risk_type ++ " Risk: " ++ affected_str)%string.

Definition generate_alert_description (risk_event : RiskEvent.t) : string :=
  let reasoning :=
    get (RiskEvent.reasoning risk_event) "Supply chain disruption detected" in
  let entities := get (RiskEvent.affected_entities risk_event) [] in
  match entities with
  | [] => reasoning
  | _ => (reasoning ++ " Affected entities: " ++ join ", " (firstn 5 entities) ++ ".")%string
  end.

End RecommendationText.

(** ** risk_engine/alert_generator.py *)

Module AlertGenerator.
Import Py.

Definition should_create_alert (settings : Settings.t) (risk_event : RiskEvent.t) : bool :=
  let risk_score := get (RiskEvent.risk_score risk_event) 0.0 in
  let threshold := Settings.alert_threshold_score settings in
  if Qltb risk_score threshold then false
  else
    match get (RiskEvent.affected_supply_chain_nodes risk_event) [] with
    | [] => false
    | _ :: _ => true
    end.

(** An entry of [find_alternates] in the format of the alert. *)
Definition to_recommendation (alt : SupplierFinder.scored)
    : AlternateSupplierRecommendation.t :=
  {| AlternateSupplierRecommendation.supplier_id := SupplierFinder.supplier_id alt;
     AlternateSupplierRecommendation.name := SupplierFinder.name alt;
     AlternateSupplierRecommendation.score := SupplierFinder.score alt;
     AlternateSupplierRecommendation.lead_time_weeks := SupplierFinder.lead_time_weeks alt;
     AlternateSupplierRecommendation.approved_vendor := SupplierFinder.approved_vendor alt;
     AlternateSupplierRecommendation.country := SupplierFinder.country alt;
     AlternateSupplierRecommendation.score_breakdown := SupplierFinder.score_breakdown alt |}.

(** [db.alerts.insert_one(alert)] *)
Definition insert_alert (db : Db.t) (alert : Alert.t) : Db.t :=
  {| Db.companies := Db.companies db;
     Db.suppliers := Db.suppliers db;
     Db.articles := Db.articles db;
     Db.risk_events := Db.risk_events db;
     Db.alerts := Db.alerts db ++ [alert];
     Db.next_oid := N.succ (Db.next_oid db) |}.

(** The alert document that [create_alert] assembles for a company that
    was found; any [KeyError] or [IndexError] on the way is raised. *)
Definition assemble_alert (risk_event : RiskEvent.t) (db : Db.t)
    (gemini_client : option RecommendationText.gemini_client)
    (company : Company.t) (company_id : string) : result Alert.t :=
  let affected_nodes := get (RiskEvent.affected_supply_chain_nodes risk_event) [] in
  let primary_supplier_name :=
    match affected_nodes with
    | n :: _ => n
    | [] => "Unknown"
    end in
  let supplier :=
    find (fun s => opt_eqb (Supplier.name s) (Some primary_supplier_name)
                   && opt_eqb (Supplier.company_id s) (Some company_id))
         (Db.suppliers db) in
  let* affected_material :=
    match supplier with
    | None => Ok "unknown"
    | Some s => first (get (Supplier.supplies s) ["unknown"])
    end in
  let title := RecommendationText.generate_alert_title risk_event in
  let description := RecommendationText.generate_alert_description risk_event in
  let* found :=
    match supplier with
    | None => Ok ([], None)
    | Some s =>
        let* alternates_raw := SupplierFinder.find_alternates (Supplier._id s) db 5 in
        let alternates := map to_recommendation alternates_raw in
        match gemini_client, alternates with
        | Some client, _ :: _ =>
            let* risk_score := getitem (RiskEvent.risk_score risk_event) in
            let* severity_band := getitem (RiskEvent.severity_band risk_event) in
            let alert_data :=
              {| RecommendationText.alert_title := title;
                 RecommendationText.alert_risk_score := risk_score;
                 RecommendationText.alert_severity_band := severity_band;
                 RecommendationText.alert_affected_supplier := primary_supplier_name;
                 RecommendationText.alert_affected_material := affected_material |} in
            let* text :=
              RecommendationText.generate_recommendation_text
                alert_data alternates company client in
            Ok (alternates, Some text)
        | _, _ => Ok (alternates, None)
        end
    end in
  let* risk_event_id := getitem (RiskEvent._id risk_event) in
  let* severity_band := getitem (RiskEvent.severity_band risk_event) in
  let* risk_score := getitem (RiskEvent.risk_score risk_event) in
  Ok {| Alert._id := Db.oid (Db.next_oid db);
        Alert.risk_event_id := risk_event_id;
        Alert.company_id := company_id;
        Alert.severity_band := severity_band;
        Alert.risk_score := risk_score;
        Alert.title := title;
        Alert.description := description;
        Alert.affected_supplier := primary_supplier_name;
        Alert.affected_material := affected_material;
        Alert.recommendations := fst found;
        Alert.recommendation_text := snd found;
        Alert.is_acknowledged := false;
        Alert.notification_sent := false |}.

(** [create_alert]: the returned alert id and the store afterwards. *)
Definition create_alert (settings : Settings.t) (risk_event : RiskEvent.t) (db : Db.t)
    (gemini_client : option RecommendationText.gemini_client)
    : option string * Db.t :=
  if negb (should_create_alert settings risk_event) then (None, db)
  else
    catch
      (let company_id :=
         get (RiskEvent.company_id risk_event) (Settings.company_id settings) in
       match find (fun c => String.eqb (Company._id c) company_id) (Db.companies db) with
       | None => Ok (None, db)
       | Some company =>
           let* alert := assemble_alert risk_event db gemini_client company company_id in
           Ok (Some (Alert._id alert), insert_alert db alert)
       end)
      (fun _ => (None, db)).

End AlertGenerator.

(** ** risk_engine/workers.py: the handler of the extraction worker *)

Module Workers.
Import Py.

(** The JSON object returned by the LLM. *)
Record risk_data : Type := {
  is_risk : option bool;
  risk_type : option string;
  affected_entities : option (list string);
  affected_supply_chain_nodes : option (list string);
  severity : option string;
  is_confirmed : option json_flag;
  time_horizon : option string;
  reasoning : option string;
  recommended_action : option string
}.

(** A record of the [risk_entities] stream. *)
Record risk_entity : Type := {
  entity_risk_event_id : string;
  entity_risk_type : string;
  entity_severity : string;
  entity_affected_nodes : list string
}.

(** What the handler can change: the store and the stream it feeds. *)
Record world : Type := {
  db : Db.t;
  risk_entities : list risk_entity
}.

(** [not risk_data] for the dictionary: it has no key. *)
Definition is_empty (rd : risk_data) : bool :=
  match is_risk rd, risk_type rd, affected_entities rd,
        affected_supply_chain_nodes rd, severity rd, is_confirmed rd,
        time_horizon rd, reasoning rd, recommended_action rd with
  | None, None, None, None, None, None, None, None, None => true
  | _, _, _, _, _, _, _, _, _ => false
  end.

(** [rd] with [is_risk] set to false. *)
Definition not_a_risk (rd : risk_data) : risk_data :=
  {| is_risk := Some false;
     risk_type := risk_type rd;
     affected_entities := affected_entities rd;
     affected_supply_chain_nodes := affected_supply_chain_nodes rd;
     severity := severity rd;
     is_confirmed := is_confirmed rd;
     time_horizon := time_horizon rd;
     reasoning := reasoning rd;
     recommended_action := recommended_action rd |}.

(** [collection.update_one(filter, {"$set": ...})]: the first matching
    document is updated; without a match nothing is written. *)
Fixpoint update_one {A : Type} (matches : A -> bool) (set : A -> A) (l : list A) : list A :=
  match l with
  | [] => []
  | x :: r => if matches x then set x :: r else x :: update_one matches set r
  end.

Definition set_processed (processed risk_extracted : bool) (a : Article.t) : Article.t :=
  {| Article._id := Article._id a;
     Article.event_id := Article.event_id a;
     Article.headline := Article.headline a;
     Article.body := Article.body a;
     Article.raw_relevance_score := Article.raw_relevance_score a;
     Article.processed := Some processed;
     Article.risk_extracted := Some risk_extracted |}.

Definition with_articles (d : Db.t) (articles : list Article.t) (next : N) : Db.t :=
  {| Db.companies := Db.companies d;
     Db.suppliers := Db.suppliers d;
     Db.articles := articles;
     Db.risk_events := Db.risk_events d;
     Db.alerts := Db.alerts d;
     Db.next_oid := next |}.

Definition with_risk_events (d : Db.t) (events : list RiskEvent.t) (next : N) : Db.t :=
  {| Db.companies := Db.companies d;
     Db.suppliers := Db.suppliers d;
     Db.articles := Db.articles d;
     Db.risk_events := events;
     Db.alerts := Db.alerts d;
     Db.next_oid := next |}.

(** [db.articles.insert_one]; the collection has a unique index on
    [event_id]. *)
Definition insert_article (d : Db.t) (doc : Article.t) : result (string * Db.t) :=
  if existsb (fun a => opt_eqb (Article.event_id a) (Article.event_id doc)) (Db.articles d)
  then Raise DuplicateKeyError
  else
    let id := get (Article._id doc) (Db.oid (Db.next_oid d)) in
    Ok (id,
        with_articles d
          (Db.articles d ++
             [{| Article._id := Some id;
                 Article.event_id := Article.event_id doc;
                 Article.headline := Article.headline doc;
                 Article.body := Article.body doc;
                 Article.raw_relevance_score := Article.raw_relevance_score doc;
                 Article.processed := Article.processed doc;
                 Article.risk_extracted := Article.risk_extracted doc |}])
          (N.succ (Db.next_oid d))).

(** The handler of [process_risk_extraction_task] for one article;
    [relevance] is the answer of [is_relevant] and [extracted] the answer
    of [gemini_client.extract_risk].  An exception ends the handler and
    leaves what was written before it. *)
Definition handler (company_profile : Company.t) (relevance : bool * Q)
    (extracted : option risk_data) (article_data : Article.t) (w : world) : world :=
  let relevant := fst relevance in
  let relevance_score := snd relevance in
  if negb relevant then w
  else
    match extracted with
    | None => w
    | Some rd =>
        if is_empty rd then w
        else if negb (get (is_risk rd) false) then
          (* update the article as processed *)
          {| db := with_articles (db w)
                     (update_one
                        (fun a => opt_eqb (Article.event_id a) (Article.event_id article_data))
                        (set_processed true false)
                        (Db.articles (db w)))
                     (Db.next_oid (db w));
             risk_entities := risk_entities w |}
        else
          let article_doc :=
            {| Article._id := Article._id article_data;
               Article.event_id := Article.event_id article_data;
               Article.headline := Article.headline article_data;
               Article.body := Article.body article_data;
               Article.raw_relevance_score := Some relevance_score;
               Article.processed := Some true;
               Article.risk_extracted := Some true |} in
          match insert_article (db w) article_doc with
          | Raise _ => w
          | Ok (article_id, db1) =>
              match
                (let* risk_type := getitem (risk_type rd) in
                 let* severity := getitem (severity rd) in
                 let* time_horizon := getitem (time_horizon rd) in
                 Ok (risk_type, severity, time_horizon))
              with
              | Raise _ => {| db := db1; risk_entities := risk_entities w |}
              | Ok (risk_type, severity, time_horizon) =>
                  let risk_event_id := Db.oid (Db.next_oid db1) in
                  let risk_event :=
                    {| RiskEvent._id := Some risk_event_id;
                       RiskEvent.article_id := Some article_id;
                       RiskEvent.company_id := Some (Company._id company_profile);
                       RiskEvent.risk_type := Some risk_type;
                       RiskEvent.affected_entities :=
                         Some (get (affected_entities rd) []);
                       RiskEvent.affected_supply_chain_nodes :=
                         Some (get (affected_supply_chain_nodes rd) []);
                       RiskEvent.severity := Some severity;
                       RiskEvent.is_confirmed :=
                         Some (get (is_confirmed rd) (JStr "uncertain"));
                       RiskEvent.time_horizon := Some time_horizon;
                       RiskEvent.reasoning := Some (get (reasoning rd) "");
                       RiskEvent.recommended_action := recommended_action rd;
                       RiskEvent.risk_score_components :=
                         Some {| RiskScoreComponents.probability := 0.0;
                                 RiskScoreComponents.impact := 0.0;
                                 RiskScoreComponents.urgency := 0.0;
                                 RiskScoreComponents.mitigation := 0.0 |};
                       RiskEvent.risk_score := Some 0.0;
                       RiskEvent.severity_band := Some "low" |} in
                  {| db := with_risk_events db1
                             (Db.risk_events db1 ++ [risk_event])
                             (N.succ (Db.next_oid db1));
                     risk_entities :=
                       risk_entities w ++
                         [{| entity_risk_event_id := risk_event_id;
                             entity_risk_type := risk_type;
                             entity_severity := severity;
                             entity_affected_nodes :=
                               get (affected_supply_chain_nodes rd) [] |}] |}
              end
          end
    end.

End Workers.

(** ** Concrete scenarios *)

Module Scenarios.

Definition blank_event : RiskEvent.t :=
  {| RiskEvent._id := None; RiskEvent.article_id := None;
     RiskEvent.company_id := None;
     RiskEvent.risk_type := None; RiskEvent.affected_entities := None;
     RiskEvent.affected_supply_chain_nodes := None;
     RiskEvent.severity := None; RiskEvent.is_confirmed := None;
     RiskEvent.time_horizon := None; RiskEvent.reasoning := None;
     RiskEvent.recommended_action := None;
     RiskEvent.risk_score_components := None;
     RiskEvent.risk_score := None; RiskEvent.severity_band := None |}.

Definition blank_supplier (id : string) : Supplier.t :=
  {| Supplier._id := id; Supplier.company_id := None; Supplier.name := None;
     Supplier.country := None; Supplier.supplies := None;
     Supplier.supply_volume_pct := None; Supplier.status := None;
     Supplier.approved_vendor := None; Supplier.pre_qualified := None;
     Supplier.is_single_source := None; Supplier.esg_score := None;
     Supplier.financial_health_score := None; Supplier.max_capacity := None;
     Supplier.lead_time_weeks := None;
     Supplier.switching_cost_estimate := None |}.

(** A critical, confirmed, immediate event. *)
Definition critical_event : RiskEvent.t :=
  {| RiskEvent._id := Some "re1"; RiskEvent.article_id := Some "a1";
     RiskEvent.company_id := Some "c1";
     RiskEvent.risk_type := Some "supply_disruption";
     RiskEvent.affected_entities := Some ["LPG"];
     RiskEvent.affected_supply_chain_nodes := Some ["Gulf LPG"];
     RiskEvent.severity := Some "critical";
     RiskEvent.is_confirmed := Some (JStr "true");
     RiskEvent.time_horizon := Some "immediate";
     RiskEvent.reasoning := Some "Pipeline disruption halts LPG shipments.";
     RiskEvent.recommended_action := None;
     RiskEvent.risk_score_components := None;
     RiskEvent.risk_score := None; RiskEvent.severity_band := None |}.

(** A single-source supplier of one material with a given volume share. *)
Definition single_source (material : string) (pct : Q) : Supplier.t :=
  {| Supplier._id := "s1"; Supplier.company_id := Some "c1";
     Supplier.name := Some "Gulf LPG"; Supplier.country := Some "QA";
     Supplier.supplies := Some [material];
     Supplier.supply_volume_pct := Some pct;
     Supplier.status := Some "active";
     Supplier.approved_vendor := Some true; Supplier.pre_qualified := None;
     Supplier.is_single_source := Some true; Supplier.esg_score := None;
     Supplier.financial_health_score := None; Supplier.max_capacity := None;
     Supplier.lead_time_weeks := None;
     Supplier.switching_cost_estimate := None |}.

(** A company profile with one material. *)
Definition company (material : string) (criticality days : Q) : Company.t :=
  {| Company._id := "c1"; Company.company_name := Some "Nayara Energy";
     Company.material_criticality := Some {[ material := criticality ]};
     Company.inventory_days := Some {[ material := days ]};
     Company.suppliers := None |}.

(** A low-severity event that materialises in months. *)
Definition low_event : RiskEvent.t :=
  {| RiskEvent._id := Some "re2"; RiskEvent.article_id := Some "a2";
     RiskEvent.company_id := Some "c1";
     RiskEvent.risk_type := Some "financial";
     RiskEvent.affected_entities := Some [];
     RiskEvent.affected_supply_chain_nodes := Some ["Crude One"];
     RiskEvent.severity := Some "low";
     RiskEvent.is_confirmed := Some (JStr "true");
     RiskEvent.time_horizon := Some "months";
     RiskEvent.reasoning := None;
     RiskEvent.recommended_action := None;
     RiskEvent.risk_score_components := None;
     RiskEvent.risk_score := None; RiskEvent.severity_band := None |}.

(** A supplier of crude oil, one of several. *)
Definition crude_supplier (id : string) (pct : Q) : Supplier.t :=
  {| Supplier._id := id; Supplier.company_id := Some "c1";
     Supplier.name := Some "Crude One"; Supplier.country := Some "SA";
     Supplier.supplies := Some ["Crude Oil"];
     Supplier.supply_volume_pct := Some pct;
     Supplier.status := Some "active";
     Supplier.approved_vendor := Some true; Supplier.pre_qualified := None;
     Supplier.is_single_source := Some false; Supplier.esg_score := None;
     Supplier.financial_health_score := None; Supplier.max_capacity := None;
     Supplier.lead_time_weeks := None;
     Supplier.switching_cost_estimate := None |}.

(** A profile that lists four available suppliers of crude oil. *)
Definition crude_company : Company.t :=
  {| Company._id := "c1"; Company.company_name := Some "Nayara Energy";
     Company.material_criticality := Some {[ "Crude Oil" := 10 ]};
     Company.inventory_days := Some {[ "Crude Oil" := 15 ]};
     Company.suppliers :=
       Some [crude_supplier "s1" 35; crude_supplier "s2" 25;
             crude_supplier "s3" 20; crude_supplier "s4" 20] |}.

(** Graphs for [propagate_risk]. *)
Definition gnode (single : option bool) (succs : list (string * Q))
    : GraphPropagation.node_attrs * list (string * GraphPropagation.edge_attrs) :=
  ({| GraphPropagation.name := None; GraphPropagation.is_single_source := single |},
   map (fun e => (fst e, {| GraphPropagation.weight := Some (snd e) |})) succs).

(** Upstream U -> single-source supplier S1 -> company C. *)
Definition two_tier_chain : GraphPropagation.DiGraph :=
  [("U", gnode None [("S1", 1.0)]);
   ("S1", gnode (Some true) [("C", 0.6)]);
   ("C", gnode None [])].

(** One edge O -> A. *)
Definition one_edge : GraphPropagation.DiGraph :=
  [("O", gnode None [("A", 1.0)]); ("A", gnode None [])].

(** A cycle O -> A -> O, where A is single-source. *)
Definition two_cycle (back : Q) : GraphPropagation.DiGraph :=
  [("O", gnode None [("A", 1.0)]); ("A", gnode (Some true) [("O", back)])].


(** An available supplier of LPG for company c1. *)
Definition lpg_supplier (id name country : string) (lead_time esg : Q) : Supplier.t :=
  {| Supplier._id := id; Supplier.company_id := Some "c1";
     Supplier.name := Some name; Supplier.country := Some country;
     Supplier.supplies := Some ["LPG"];
     Supplier.supply_volume_pct := Some 50;
     Supplier.status := Some "active";
     Supplier.approved_vendor := Some true; Supplier.pre_qualified := None;
     Supplier.is_single_source := None; Supplier.esg_score := Some esg;
     Supplier.financial_health_score := Some 5; Supplier.max_capacity := Some 100;
     Supplier.lead_time_weeks := Some lead_time;
     Supplier.switching_cost_estimate := Some 5 |}.

Definition store (companies : list Company.t) (suppliers : list Supplier.t) : Db.t :=
  {| Db.companies := companies; Db.suppliers := suppliers; Db.articles := [];
     Db.risk_events := []; Db.alerts := []; Db.next_oid := 0 |}.

(** The disrupted supplier s1 and two candidates with equal scores: the
    slower one is stored first. *)
Definition tie_db : Db.t :=
  store [company "LPG" 5 10]
    [single_source "LPG" 100;
     lpg_supplier "s2" "Zeta Gas" "IN" 12 75;
     lpg_supplier "s3" "Alpha Gas" "IN" 4 50].

(** Two candidates that differ in lead time only: 6 and 2 weeks. *)
Definition lead_time_db : Db.t :=
  store [company "LPG" 5 10]
    [single_source "LPG" 100;
     lpg_supplier "s2" "Slow Gas" "IN" 6 50;
     lpg_supplier "s3" "Fast Gas" "IN" 2 50].

(** The critical event after scoring. *)
Definition scored_event : RiskEvent.t :=
  {| RiskEvent._id := Some "re1"; RiskEvent.article_id := Some "a1";
     RiskEvent.company_id := Some "c1";
     RiskEvent.risk_type := Some "supply_disruption";
     RiskEvent.affected_entities := Some ["LPG"];
     RiskEvent.affected_supply_chain_nodes := Some ["Gulf LPG"];
     RiskEvent.severity := Some "critical";
     RiskEvent.is_confirmed := Some (JStr "true");
     RiskEvent.time_horizon := Some "immediate";
     RiskEvent.reasoning := Some "Pipeline disruption halts LPG shipments.";
     RiskEvent.recommended_action := None;
     RiskEvent.risk_score_components := None;
     RiskEvent.risk_score := Some 14.25;
     RiskEvent.severity_band := Some "critical" |}.

(** A normalized article, not yet stored. *)
Definition news : Article.t :=
  {| Article._id := None; Article.event_id := Some "e1";
     Article.headline := Some "Major pipeline disruption halts LPG shipments";
     Article.body := Some "LPG"; Article.raw_relevance_score := None;
     Article.processed := None; Article.risk_extracted := None |}.

(** An answer of the LLM with a chosen [is_risk]. *)
Definition llm_answer (is_risk : bool) : Workers.risk_data :=
  {| Workers.is_risk := Some is_risk;
     Workers.risk_type := Some "operational";
     Workers.affected_entities := Some ["LPG"];
     Workers.affected_supply_chain_nodes := Some ["Gulf LPG"];
     Workers.severity := Some "low";
     Workers.is_confirmed := Some (JStr "uncertain");
     Workers.time_horizon := Some "weeks";
     Workers.reasoning := Some "No link to the supply chain.";
     Workers.recommended_action := None |}.

Definition empty_world : Workers.world :=
  {| Workers.db := store [company "LPG" 5 10] [single_source "LPG" 100];
     Workers.risk_entities := [] |}.

End Scenarios.

(** ** risk_engine/scoring.py: batch scoring *)

Module ScoringBatch.
Import Py.



End ScoringBatch.

(** ** The invariant of a [networkx.DiGraph]: the end of every edge is a
    node ([add_edge] adds the nodes it names) *)

Module DiGraphInvariant.
Import Py GraphPropagation.

Definition is_node (G : DiGraph) (n : string) : bool :=
  match assoc n G with
  | Some _ => true
  | None => false
  end.

Definition well_formed (G : DiGraph) : bool :=
  forallb (fun entry => forallb (fun edge => is_node G (fst edge)) (snd (snd entry))) G.

(** Every queued pair names a node. *)
Definition queue_of_nodes (G : DiGraph) (q : list (string * Q)) : Prop :=
  forall n s, In (n, s) q -> is_node G n = true.

End DiGraphInvariant.

(** The event as [calculate_batch_scores] appends it, or [None] when the
    event is skipped. *)
Module ScoringBatchSpec.
Import Py.



End ScoringBatchSpec.

(** ** The Redis server, as the deduplicator uses it: every key with the
    time, in seconds, at which it expires ([None]: never) *)

Module Redis.
Import Py.

Record t : Type := {
  entries : gmap string (option Z)
}.

Definition live (now : Z) (r : t) (key : string) : bool :=
  match entries r !! key with
  | Some None => true
  | Some (Some expiry) => (now <? expiry)%Z
  | None => false
  end.

(** [SET key 1 NX EX ttl] at time [now]; the reply tells whether the key
    was set.  The server refuses an expire time that is not positive. *)
Definition set_nx_ex (r : t) (now : Z) (key : string) (ttl : Z) : result (bool * t) :=
  if (ttl <=? 0)%Z then Raise ClientError
  else if live now r key then Ok (false, r)
  else Ok (true, {| entries := <[key := Some (now + ttl)%Z]> (entries r) |}).


(** [KEYS prefix*]: the keys that have not expired and start with the prefix *)
Definition keys (r : t) (now : Z) (prefix : string) : list string :=
  List.filter (fun k => String.prefix prefix k && live now r k)
              (map fst (map_to_list (entries r))).

(** [DEL key ...] *)
Definition del (r : t) (ks : list string) : t :=
  {| entries := fold_right (fun k m => delete k m) (entries r) ks |}.

End Redis.

(** ** ingestion/deduplicator.py: the seen-set *)

Module DedupIndex.
Import Py.

Definition default_ttl_seconds : Z := 172800.

Definition dedup_key (article : Deduplicator.article) : string :=
  ("dedup:" ++ Deduplicator.generate_fingerprint article)%string.

(** [is_duplicate(article, ttl_seconds)] at time [now] *)
Definition is_duplicate (article : Deduplicator.article) (ttl_seconds : Z)
    (now : Z) (r : Redis.t) : result (bool * Redis.t) :=
  let* reply := Redis.set_nx_ex r now (dedup_key article) ttl_seconds in
  if fst reply then Ok (false, snd reply) else Ok (true, snd reply).


(** [clear_dedup_cache()] *)
Definition clear_dedup_cache (now : Z) (r : Redis.t) : Redis.t :=
  match Redis.keys r now "dedup:" with
  | [] => r
  | ks => Redis.del r ks
  end.

End DedupIndex.

Module DedupScenarios.




(** One hundred characters, the part of a body that is hashed. *)
Definition lead_paragraph : string :=
  "Dock workers at the port walked out on Monday, and crude shipments to the refinery stopped within ho".

End DedupScenarios.

(** ** risk_engine/alert_generator.py: alerts for a batch of events *)

Module AlertBatch.
Import Py.

(** [batch_create_alerts]: the events are handled in order on the same
    store; an id is collected when it is truthy, that is a non-empty
    string. *)
Definition batch_create_alerts (settings : Settings.t) (risk_events : list RiskEvent.t)
    (db : Db.t) (gemini_client : option RecommendationText.gemini_client)
    : list string * Db.t :=
  fold_left
    (fun (acc : list string * Db.t) risk_event =>
       let created := AlertGenerator.create_alert settings risk_event (snd acc) gemini_client in
       match fst created with
       | Some alert_id =>
           if String.eqb alert_id "" then (fst acc, snd created)
           else (fst acc ++ [alert_id], snd created)
       | None => (fst acc, snd created)
       end)
    risk_events ([], db).

(** The order of the recommendations of an alert: [b] does not score
    higher than [a]. *)
Definition recommendation_ge (a b : AlternateSupplierRecommendation.t) : Prop :=
  AlternateSupplierRecommendation.score b <= AlternateSupplierRecommendation.score a.

End AlertBatch.

Module AlertScenarios.

(** An LLM client whose every call fails. *)
Definition failing_client : RecommendationText.gemini_client :=
  {| RecommendationText.generate_text := fun _ => Py.Raise Py.ClientError |}.

(** An event below the default alert threshold. *)
Definition minor_event : RiskEvent.t :=
  {| RiskEvent._id := Some "re2"; RiskEvent.article_id := Some "a2";
     RiskEvent.company_id := Some "c1";
     RiskEvent.risk_type := Some "operational";
     RiskEvent.affected_entities := Some ["LPG"];
     RiskEvent.affected_supply_chain_nodes := Some ["Gulf LPG"];
     RiskEvent.severity := Some "low";
     RiskEvent.is_confirmed := Some (JStr "uncertain");
     RiskEvent.time_horizon := Some "months";
     RiskEvent.reasoning := None;
     RiskEvent.recommended_action := None;
     RiskEvent.risk_score_components := None;
     RiskEvent.risk_score := Some 1.5;
     RiskEvent.severity_band := Some "low" |}.

End AlertScenarios.

(** ** ingestion/normalizer.py *)

Module Normalizer.
Import Py.

(** A value of a raw record of the news API: null or a string. *)
Inductive json : Type :=
  | JNull
  | JString (s : string).

(** The truth value of [v] in a condition. *)
Definition truthy (v : json) : bool :=
  match v with
  | JNull => false
  | JString s => negb (String.eqb s "")
  end.

Record raw_article : Type := {
  title : option json;
  content : option json;
  description : option json;
  url : option json;
  publishedAt : option json
}.

(** A normalized article.  Its timestamp, always a datetime, its empty
    list of entities and its null [risk_event_id] are left out. *)
Record normalized : Type := {
  event_id : string;
  source : string;
  headline : json;
  body : json;
  article_url : json;
  raw_relevance_score : Q;
  processed : bool;
  risk_extracted : bool
}.

(** [normalize_newsapi_article(raw)]; [uuid] is the text of the UUID drawn
    for the article. *)
Definition normalize_newsapi_article (uuid : string) (raw : raw_article) : normalized :=
  {| event_id := uuid;
     source := "NewsAPI";
     headline := get (title raw) (JString "");
     body := (let c := get (content raw) JNull in
              if truthy c then c else get (description raw) (JString ""));
     article_url := get (url raw) (JString "");
     raw_relevance_score := 0.0;
     processed := false;
     risk_extracted := false |}.

(** [validate_article(article)]: the required fields are present and
    truthy (a datetime always is), and the headline has 10 characters or
    more. *)
Definition validate_article (article : normalized) : bool :=
  if String.eqb (event_id article) "" then false
  else if String.eqb (source article) "" then false
  else if negb (truthy (headline article)) then false
  else if negb (truthy (article_url article)) then false
  else
    match headline article with
    | JString h => negb (String.length h <? 10)%nat
    | JNull => false
    end.

End Normalizer.

(** ** ingestion/celery_app.py: the fetch task *)

Module Ingestion.
Import Py Normalizer.

Record counts : Type := {
  total_fetched : nat;
  total_new : nat;
  total_duplicates : nat;
  total_invalid : nat
}.

(** What the task changes: its counters, the dedup keys of the Redis
    server and the [normalized_events] stream, whose records are given
    as pushed, before they are serialized. *)
Record fetch_state : Type := {
  tally : counts;
  redis : Redis.t;
  normalized_events : list normalized
}.

(** A raw article with what the environment supplies while it is
    processed: the time of the server and the UUID drawn. *)
Record arrival : Type := {
  at_time : Z;
  uuid : string;
  raw : raw_article
}.

(** The article as [generate_fingerprint] reads it; a headline that is
    not a string has no [lower]. *)
Definition as_article (a : normalized) : option Deduplicator.article :=
  match headline a with
  | JString h =>
      Some {| Deduplicator.headline := Some h;
              Deduplicator.body := match body a with
                                   | JString b => Some b
                                   | JNull => None
                                   end |}
  | JNull => None
  end.

Definition count_invalid (st : fetch_state) : fetch_state :=
  {| tally := {| total_fetched := total_fetched (tally st);
                 total_new := total_new (tally st);
                 total_duplicates := total_duplicates (tally st);
                 total_invalid := S (total_invalid (tally st)) |};
     redis := redis st;
     normalized_events := normalized_events st |}.

Definition count_duplicate (st : fetch_state) (r : Redis.t) : fetch_state :=
  {| tally := {| total_fetched := total_fetched (tally st);
                 total_new := total_new (tally st);
                 total_duplicates := S (total_duplicates (tally st));
                 total_invalid := total_invalid (tally st) |};
     redis := r;
     normalized_events := normalized_events st |}.

Definition count_new (st : fetch_state) (r : Redis.t) (article : normalized) : fetch_state :=
  {| tally := {| total_fetched := total_fetched (tally st);
                 total_new := S (total_new (tally st));
                 total_duplicates := total_duplicates (tally st);
                 total_invalid := total_invalid (tally st) |};
     redis := r;
     normalized_events := normalized_events st ++ [article] |}.

(** The body of the loop; an exception leaves the article uncounted and
    the loop goes on. *)
Definition process_article (x : arrival) (st : fetch_state) : fetch_state :=
  let normalized := normalize_newsapi_article (uuid x) (raw x) in
  if negb (validate_article normalized) then count_invalid st
  else
    match as_article normalized with
    | None => st
    | Some article =>
        match DedupIndex.is_duplicate article DedupIndex.default_ttl_seconds
                (at_time x) (redis st) with
        | Raise _ => st
        | Ok (true, r) => count_duplicate st r
        | Ok (false, r) => count_new st r normalized
        end
    end.

(** [fetch_all_sources] on the articles that the connector returned. *)
Definition fetch_all_sources (articles : list arrival) (r : Redis.t)
    (stream : list normalized) : fetch_state :=
  fold_left (fun st x => process_article x st) articles
    {| tally := {| total_fetched := length articles; total_new := 0;
                   total_duplicates := 0; total_invalid := 0 |};
       redis := r;
       normalized_events := stream |}.

(** The dedup key of a raw article, when it has one. *)
Definition key_of (x : raw_article) : option string :=
  match as_article (normalize_newsapi_article "-" x) with
  | Some a => Some (DedupIndex.dedup_key a)
  | None => None
  end.



End Ingestion.

Module IngestionScenarios.
Import Normalizer Ingestion.





End IngestionScenarios.

(** ** risk_engine/graph_propagation.py: building the graph *)

Module SupplyGraph.
Import Py GraphPropagation.

(** An entry of the [upstream_suppliers] list of a supplier document. *)
Record upstream : Type := {
  upstream_name : option string;
  upstream_country : option string;
  upstream_supply_volume_pct : option Q
}.

Definition no_attrs : node_attrs := {| name := None; is_single_source := None |}.

(** [G.add_node(n, **attrs)]: a new node is appended without successors;
    on a node of the graph the given attributes are updated. *)
Fixpoint add_node (G : DiGraph) (n : string) (update : node_attrs -> node_attrs)
    : DiGraph :=
  match G with
  | [] => [(n, (update no_attrs, []))]
  | (k, (a, succs)) :: r =>
      if String.eqb n k then (k, (update a, succs)) :: r
      else (k, (a, succs)) :: add_node r n update
  end.

(** [succs[v] = e] on the successors of a node. *)
Fixpoint set_edge (succs : list (string * edge_attrs)) (v : string) (e : edge_attrs)
    : list (string * edge_attrs) :=
  match succs with
  | [] => [(v, e)]
  | (k, e') :: r =>
      if String.eqb v k then (k, e) :: r else (k, e') :: set_edge r v e
  end.

Fixpoint set_successor (G : DiGraph) (u v : string) (e : edge_attrs) : DiGraph :=
  match G with
  | [] => []
  | (k, (a, succs)) :: r =>
      if String.eqb u k then (k, (a, set_edge succs v e)) :: r
      else (k, (a, succs)) :: set_successor r u v e
  end.

(** [G.add_edge(u, v, weight=w, ...)]: both ends become nodes when they
    are not, then the edge is set. *)
Definition add_edge (G : DiGraph) (u v : string) (w : Q) : DiGraph :=
  set_successor (add_node (add_node G u (fun a => a)) v (fun a => a)) u v
    {| weight := Some w |}.

(** A loop whose body may raise. *)
Fixpoint fold_result {A B : Type} (f : A -> B -> result A) (l : list B) (a : A)
    : result A :=
  match l with
  | [] => Ok a
  | x :: r => let* a' := f a x in fold_result f r a'
  end.

(** The body of the loop over [upstream_suppliers]. *)
Definition add_upstream (supplier_id : string) (G : DiGraph) (up : upstream)
    : result DiGraph :=
  let* up_name := getitem (upstream_name up) in
  let upstream_id := (supplier_id ++ "_upstream_" ++ up_name)%string in
  let* _ := getitem (upstream_country up) in
  let G1 :=
    add_node G upstream_id
      (fun a => {| name := Some up_name; is_single_source := is_single_source a |}) in
  let upstream_weight := get (upstream_supply_volume_pct up) 100 / 100 in
  Ok (add_edge G1 upstream_id supplier_id upstream_weight).

(** The body of the loop over the suppliers; [upstream_suppliers] reads
    the field of that name, the empty list when it is absent. *)
Definition add_supplier (upstream_suppliers : Supplier.t -> list upstream)
    (company_id : string) (G : DiGraph) (supplier : Supplier.t) : result DiGraph :=
  let supplier_id := Supplier._id supplier in
  let* supplier_name := getitem (Supplier.name supplier) in
  let* _ := getitem (Supplier.country supplier) in
  let G1 :=
    add_node G supplier_id
      (fun _ => {| name := Some supplier_name;
                   is_single_source :=
                     Some (get (Supplier.is_single_source supplier) false) |}) in
  let weight := get (Supplier.supply_volume_pct supplier) 50 / 100 in
  (* suppliers of every tier are connected to the company *)
  let target_node := company_id in
  let G2 := add_edge G1 supplier_id target_node weight in
  fold_result (add_upstream supplier_id) (upstream_suppliers supplier) G2.

Definition build_supply_graph (db : Db.t)
    (upstream_suppliers : Supplier.t -> list upstream) (company_id : string)
    : result DiGraph :=
  match find (fun c => String.eqb (Company._id c) company_id) (Db.companies db) with
  | None => Ok []
  | Some company =>
      let* company_name := getitem (Company.company_name company) in
      let G :=
        add_node [] (Company._id company)
          (fun a => {| name := Some company_name;
                       is_single_source := is_single_source a |}) in
      let suppliers :=
        List.filter (fun s => opt_eqb (Supplier.company_id s) (Some company_id))
                    (Db.suppliers db) in
      fold_result (add_supplier upstream_suppliers (Company._id company)) suppliers G
  end.

(** Every edge of the graph ends in a node of the graph. *)
Definition closed (G : DiGraph) : Prop :=
  forall k a succs m e,
    In (k, (a, succs)) G -> In (m, e) succs -> DiGraphInvariant.is_node G m = true.

(** There is an edge from [u] to [v]. *)
Definition edge (G : DiGraph) (u v : string) : Prop :=
  exists e, has_edge G u v e.

(** [G'] has the nodes and the edges of [G]. *)
Definition extends (G G' : DiGraph) : Prop :=
  (forall n, DiGraphInvariant.is_node G n = true -> DiGraphInvariant.is_node G' n = true)
  /\ (forall u v, edge G u v -> edge G' u v).

Definition present {A : Type} (o : option A) : bool :=
  match o with
  | Some _ => true
  | None => false
  end.

(** The supplier document and its upstream entries have the keys that
    the builder reads with [d[k]]. *)
Definition complete (upstream_suppliers : Supplier.t -> list upstream)
    (s : Supplier.t) : bool :=
  present (Supplier.name s) && present (Supplier.country s)
  && forallb (fun up => present (upstream_name up) && present (upstream_country up))
             (upstream_suppliers s).

End SupplyGraph.

Module SupplyGraphScenarios.

(** The LPG supplier s1 has one upstream supplier. *)
Definition upstream_of (s : Supplier.t) : list SupplyGraph.upstream :=
  if String.eqb (Supplier._id s) "s1"
  then [{| SupplyGraph.upstream_name := Some "Ras Gas";
           SupplyGraph.upstream_country := Some "QA";
           SupplyGraph.upstream_supply_volume_pct := None |}]
  else [].

End SupplyGraphScenarios.

(** ** Python runtime: the ASCII range *)

Module PyStr.

(** [s.isascii()]: every character is below 128.  On such strings
    [Py.lower], [Py.upper] and [Py.strip] are [str.lower], [str.upper] and
    [str.strip], and [Hashlib.encode] is [str.encode]. *)
Fixpoint isascii (s : string) : bool :=
  match s with
  | EmptyString => true
  | String c r => (N_of_ascii c <? 128)%N && isascii r
  end.

End PyStr.

(** ** Python runtime: floats *)

Module Float64.

(** A [float] of Python is an IEEE 754 binary64 number; the kernel's
    primitive floats are these. *)
Definition float : Type := PrimFloat.float.

Definition mul : float -> float -> float := PrimFloat.mul.
Definition add : float -> float -> float := PrimFloat.add.
Definition sub : float -> float -> float := PrimFloat.sub.
Definition ltb : float -> float -> bool := PrimFloat.ltb.
Definition leb : float -> float -> bool := PrimFloat.leb.
Definition eqb : float -> float -> bool := PrimFloat.eqb.

(** [float(z)] for an integer: the nearest float, ties to even.  The
    integers of a document (BSON int32 and int64) are within the range of
    the floats; beyond it the conversion gives an infinity. *)
Definition of_Z (z : Z) : float :=
  FloatOps.SF2Prim (SpecFloat.binary_normalize 53 1024 z 0 false).

(** The float nearest to a decimal literal or to a number of a document,
    ties to even: the number itself when it is a float, [float(z)] when it
    is an integer. *)
Definition of_Q (q : Q) : float :=
  let quotient (negative : bool) (n : positive) : float :=
    FloatOps.SF2Prim
      (SpecFloat.SFdiv 53 1024 (SpecFloat.S754_finite negative n 0)
                               (SpecFloat.S754_finite false (Qden q) 0)) in
  match Qnum q with
  | Z0 => of_Z 0
  | Zpos n => quotient false n
  | Zneg n => quotient true n
  end.

(** The exact value of a finite float. *)
Definition to_Q (x : float) : option Q :=
  match FloatOps.Prim2SF x with
  | SpecFloat.S754_zero _ => Some 0
  | SpecFloat.S754_finite s m e =>
      let magnitude :=
        if (0 <=? e)%Z then inject_Z (Zpos m * 2 ^ e)
        else Zpos m # Z.to_pos (2 ^ (- e)) in
      Some (if s then - magnitude else magnitude)
  | SpecFloat.S754_infinity _ | SpecFloat.S754_nan => None
  end.

(** [a / b] *)
Definition div (a b : float) : Py.result float :=
  if eqb b (of_Z 0) then Py.Raise Py.ZeroDivisionError else Py.Ok (PrimFloat.div a b).

(** [min(a, b)] and [max(a, b)]: the first argument unless the second is
    smaller, respectively larger. *)
Definition min (a b : float) : float := if ltb b a then b else a.
Definition max (a b : float) : float := if ltb a b then b else a.

(** [round(x, ndigits)] for [scale] = 10^ndigits, 2 or 3 digits: the exact
    value of [x] is rounded to a multiple of 1/scale, ties to the even one,
    and the float nearest to that decimal is returned, with the sign of [x].
    From [limit] on (2^46 for 2 digits, 2^43 for 3) the floats are further
    apart than 1/scale and [x] is its own rounding, as are zeros,
    infinities and NaN. *)
Definition round_digits (scale : Z) (limit : float) (x : float) : float :=
  if ltb (PrimFloat.abs x) limit then
    match to_Q (PrimFloat.abs x) with
    | Some q =>
        if Qeq_bool q 0 then x
        else
          let r := PrimFloat.div (of_Z (Py.round_half_even (q * inject_Z scale)))
                                 (of_Z scale) in
          if ltb x (of_Z 0) then PrimFloat.opp r else r
    | None => x
    end
  else x.

Definition round2 : float -> float := round_digits 100 (of_Z (2 ^ 46)).
Definition round3 : float -> float := round_digits 1000 (of_Z (2 ^ 43)).

End Float64.

(** ** risk_engine/scoring.py on binary64 floats *)

Module Scoring64.
Import Py.

Record components : Type := {
  probability : Float64.float;
  impact : Float64.float;
  urgency : Float64.float;
  mitigation : Float64.float
}.

Record score_result : Type := {
  risk_score : Float64.float;
  severity_band : string;
  score_components : components
}.

Definition prob_map (sev : string) : option Float64.float :=
  if String.eqb sev "critical" then Some (Float64.of_Q 0.95)
  else if String.eqb sev "high" then Some (Float64.of_Q 0.80)
  else if String.eqb sev "medium" then Some (Float64.of_Q 0.55)
  else if String.eqb sev "low" then Some (Float64.of_Q 0.25)
  else None.

Definition urgency_map (h : string) : option Float64.float :=
  if String.eqb h "immediate" then Some (Float64.of_Q 2.0)
  else if String.eqb h "days" then Some (Float64.of_Q 1.5)
  else if String.eqb h "weeks" then Some (Float64.of_Q 1.0)
  else if String.eqb h "months" then Some (Float64.of_Q 0.5)
  else None.

(** The confirmation adjustment: [probability *= 0.7] for ["uncertain"],
    [probability *= 0.3] for ["false"] or [False], and nothing otherwise. *)
Definition adjust_for_confirmation (probability : Float64.float) (c : json_flag)
    : Float64.float :=
  match c with
  | JStr s =>
      if String.eqb s "uncertain" then Float64.mul probability (Float64.of_Q 0.7)
      else if String.eqb s "false" then Float64.mul probability (Float64.of_Q 0.3)
      else probability
  | JBool b => if b then probability else Float64.mul probability (Float64.of_Q 0.3)
  end.

Definition score_to_band (score : Float64.float) : string :=
  if Float64.leb (Float64.of_Q 10.0) score then "critical"
  else if Float64.leb (Float64.of_Q 6.0) score then "high"
  else if Float64.leb (Float64.of_Q 3.0) score then "medium"
  else "low".

Definition calculate_risk_score
    (rd : RiskEvent.t) (sup : Supplier.t) (cp : Company.t) : result score_result :=
  (* probability *)
  let probability0 :=
    get (prob_map (get (RiskEvent.severity rd) "medium")) (Float64.of_Q 0.55) in
  let probability :=
    adjust_for_confirmation probability0
      (get (RiskEvent.is_confirmed rd) (JStr "uncertain")) in
  (* impact *)
  let dependency_ratio :=
    PrimFloat.div (Float64.of_Q (get (Supplier.supply_volume_pct sup) 50))
                  (Float64.of_Q 100.0) in
  let* material := first (get (Supplier.supplies sup) ["unknown"]) in
  let material_criticality :=
    Float64.of_Q (get (get (Company.material_criticality cp) ∅ !! material) 5) in
  let inventory_days :=
    Float64.of_Q (get (get (Company.inventory_days cp) ∅ !! material) 0) in
  let* buffer_score :=
    Float64.div (Float64.of_Q 1.0)
      (Float64.add (Float64.of_Q 1.0)
                   (PrimFloat.div inventory_days (Float64.of_Q 30.0))) in
  let impact0 :=
    Float64.mul
      (Float64.mul
         (Float64.mul dependency_ratio
                      (PrimFloat.div material_criticality (Float64.of_Q 10.0)))
         buffer_score)
      (Float64.of_Z 10) in
  let impact :=
    Float64.max (Float64.of_Q 1.0) (Float64.min (Float64.of_Q 10.0) impact0) in
  (* urgency *)
  let urgency :=
    get (urgency_map (get (RiskEvent.time_horizon rd) "weeks")) (Float64.of_Q 1.0) in
  (* mitigation *)
  let num_alternates := Scoring.count_alternate_suppliers material cp in
  let mitigation0 :=
    Float64.add (Float64.of_Q 1.0)
      (Float64.min (Float64.mul (Float64.of_Z num_alternates) (Float64.of_Q 0.2))
                   (Float64.of_Q 1.0)) in
  let mitigation :=
    if get (Supplier.is_single_source sup) false then Float64.of_Q 0.5 else mitigation0 in
  (* final score *)
  let* score :=
    Float64.div (Float64.mul (Float64.mul probability impact) urgency) mitigation in
  let severity_band := score_to_band score in
  Ok {| risk_score := Float64.round2 score;
        severity_band := severity_band;
        score_components :=
          {| probability := Float64.round3 probability;
             impact := Float64.round2 impact;
             urgency := urgency;
             mitigation := mitigation |} |}.

(** The value of [score] in [calculate_risk_score], before it is rounded:
    [(probability * impact * urgency) / mitigation]. *)
Definition unrounded_score
    (rd : RiskEvent.t) (sup : Supplier.t) (cp : Company.t) : result Float64.float :=
  let probability :=
    adjust_for_confirmation
      (get (prob_map (get (RiskEvent.severity rd) "medium")) (Float64.of_Q 0.55))
      (get (RiskEvent.is_confirmed rd) (JStr "uncertain")) in
  let dependency_ratio :=
    PrimFloat.div (Float64.of_Q (get (Supplier.supply_volume_pct sup) 50))
                  (Float64.of_Q 100.0) in
  let* material := first (get (Supplier.supplies sup) ["unknown"]) in
  let material_criticality :=
    Float64.of_Q (get (get (Company.material_criticality cp) ∅ !! material) 5) in
  let inventory_days :=
    Float64.of_Q (get (get (Company.inventory_days cp) ∅ !! material) 0) in
  let* buffer_score :=
    Float64.div (Float64.of_Q 1.0)
      (Float64.add (Float64.of_Q 1.0)
                   (PrimFloat.div inventory_days (Float64.of_Q 30.0))) in
  let impact :=
    Float64.max (Float64.of_Q 1.0)
      (Float64.min (Float64.of_Q 10.0)
         (Float64.mul
            (Float64.mul
               (Float64.mul dependency_ratio
                            (PrimFloat.div material_criticality (Float64.of_Q 10.0)))
               buffer_score)
            (Float64.of_Z 10))) in
  let urgency :=
    get (urgency_map (get (RiskEvent.time_horizon rd) "weeks")) (Float64.of_Q 1.0) in
  let mitigation :=
    if get (Supplier.is_single_source sup) false then Float64.of_Q 0.5
    else Float64.add (Float64.of_Q 1.0)
           (Float64.min
              (Float64.mul (Float64.of_Z (Scoring.count_alternate_suppliers material cp))
                           (Float64.of_Q 0.2))
              (Float64.of_Q 1.0)) in
  Float64.div (Float64.mul (Float64.mul probability impact) urgency) mitigation.

(** The band mapping on a score: critical iff [10 <= score], high iff
    [6 <= score] but not [10 <= score], medium iff [3 <= score] but not
    [6 <= score], low otherwise.  For a score that is a number, "not
    [a <= score]" is [score < a]. *)
Definition band_mapping (band : string) (score : Float64.float) : Prop :=
  let at_least (a : Q) := Float64.leb (Float64.of_Q a) score in
  (band = "critical" <-> at_least 10 = true)
  /\ (band = "high" <-> at_least 6 = true /\ at_least 10 = false)
  /\ (band = "medium" <->
        at_least 3 = true /\ at_least 6 = false /\ at_least 10 = false)
  /\ (band = "low" <->
        at_least 3 = false /\ at_least 6 = false /\ at_least 10 = false).

End Scoring64.

(** ** risk_engine/graph_propagation.py on binary64 floats; the weights of
    the graph are converted as they are read *)

Module GraphPropagation64.
Import Py GraphPropagation.

Definition vulnerability (successor_data : node_attrs) : Float64.float :=
  if get (is_single_source successor_data) false
  then Float64.of_Q 1.5 else Float64.of_Q 1.0.

Definition dep_weight (edge_data : edge_attrs) : Float64.float :=
  Float64.of_Q (get (weight edge_data) 0.5).

(** [score * dep_weight * (0.5 + vulnerability * 0.5)] *)
Definition propagated_score (score dep_weight vulnerability : Float64.float)
    : Float64.float :=
  Float64.mul (Float64.mul score dep_weight)
    (Float64.add (Float64.of_Q 0.5) (Float64.mul vulnerability (Float64.of_Q 0.5))).

(** The state of the [while queue] loop. *)
Record state : Type := {
  propagated : gmap string Float64.float;
  queue : list (string * Float64.float);
  visited : gset string
}.

(** One round of [for successor in G.successors(node)]. *)
Definition visit_successor (G : DiGraph) (threshold score : Float64.float)
    (acc : result (gmap string Float64.float * list (string * Float64.float)))
    (edge : string * edge_attrs)
    : result (gmap string Float64.float * list (string * Float64.float)) :=
  let* pq := acc in
  let propagated := fst pq in
  let queue := snd pq in
  let successor := fst edge in
  let* successor_data := nodes G successor in
  let s' := propagated_score score (dep_weight (snd edge)) (vulnerability successor_data) in
  if Float64.ltb threshold s' then
    if match propagated !! successor with
       | None => true
       | Some old => Float64.ltb old s'
       end
    then Ok (<[successor := Float64.round2 s']> propagated, queue ++ [(successor, s')])
    else Ok (propagated, queue)
  else Ok (propagated, queue).

(** One round of [while queue]; [None] when the queue is empty. *)
Definition step (G : DiGraph) (threshold : Float64.float) (st : state)
    : option (result state) :=
  match queue st with
  | [] => None
  | (node, score) :: rest =>
      if bool_decide (node ∈ visited st) then
        Some (Ok {| propagated := propagated st; queue := rest;
                    visited := visited st |})
      else
        Some (let* succs := successors G node in
              let* pq := fold_left (visit_successor G threshold score) succs
                           (Ok (propagated st, rest)) in
              Ok {| propagated := fst pq; queue := snd pq;
                    visited := {[node]} ∪ visited st |})
  end.

(** The loop, run for at most [fuel] rounds. *)
Fixpoint loop (fuel : nat) (G : DiGraph) (threshold : Float64.float) (st : state)
    : option (result (gmap string Float64.float)) :=
  match fuel with
  | O => None
  | S fuel' =>
      match step G threshold st with
      | None => Some (Ok (propagated st))
      | Some (Raise e) => Some (Raise e)
      | Some (Ok st') => loop fuel' G threshold st'
      end
  end.

Definition initial_state (risk_node_id : string) (initial_score : Float64.float) : state :=
  {| propagated := {[ risk_node_id := initial_score ]};
     queue := [(risk_node_id, initial_score)];
     visited := ∅ |}.

(** [propagate_risk]; the opening log line reads [G.nodes[risk_node_id]]. *)
Definition propagate_risk (G : DiGraph) (risk_node_id : string)
    (initial_score threshold : Float64.float)
    : option (result (gmap string Float64.float)) :=
  match nodes G risk_node_id with
  | Raise e => Some (Raise e)
  | Ok _ => loop (enough_fuel G) G threshold (initial_state risk_node_id initial_score)
  end.

(** [step] as a relation between loop states. *)
Definition steps_to (G : DiGraph) (threshold : Float64.float) (st st' : state) : Prop :=
  step G threshold st = Some (Ok st').

(** The scores carried along the paths from the origin. *)
Inductive reaches (G : DiGraph) (origin : string) (s0 : Float64.float)
    : string -> Float64.float -> Prop :=
  | reaches_origin : reaches G origin s0 origin s0
  | reaches_edge (n m : string) (s : Float64.float) (e : edge_attrs) (a : node_attrs) :
      reaches G origin s0 n s ->
      has_edge G n m e ->
      nodes G m = Ok a ->
      reaches G origin s0 m (propagated_score s (dep_weight e) (vulnerability a)).

(** A score that arrives at [m] over an edge. *)
Definition arrives (G : DiGraph) (origin : string) (s0 : Float64.float)
    (m : string) (s' : Float64.float) : Prop :=
  exists n s e a,
    reaches G origin s0 n s /\ has_edge G n m e /\ nodes G m = Ok a
    /\ s' = propagated_score s (dep_weight e) (vulnerability a).

(** What a run may store for node [k]: the origin's initial score, or the
    rounding of a score above the threshold that arrived over an edge. *)
Definition entry_ok (G : DiGraph) (origin : string) (s0 threshold : Float64.float)
    (k : string) (v : Float64.float) : Prop :=
  (k = origin /\ v = s0)
  \/ exists s, arrives G origin s0 k s
               /\ Float64.ltb threshold s = true /\ v = Float64.round2 s.

(** The loop invariant: queued pairs are path scores, stored entries are
    [entry_ok], and the origin keeps an entry. *)
Definition run_invariant (G : DiGraph) (origin : string) (s0 threshold : Float64.float)
    (p : gmap string Float64.float) (q : list (string * Float64.float)) : Prop :=
  (forall n s, In (n, s) q -> reaches G origin s0 n s)
  /\ (forall k v, p !! k = Some v -> entry_ok G origin s0 threshold k v)
  /\ is_Some (p !! origin).

Definition measure (G : DiGraph) (st : state) : nat :=
  (length (queue st) + unvisited_out G (visited st))%nat.

(** Every key of [p] is a key of [p']. *)
Definition keeps_keys (p p' : gmap string Float64.float) : Prop :=
  forall k, is_Some (p !! k) -> is_Some (p' !! k).

End GraphPropagation64.

(* ================================================================== *)
(** * Properties *)
(* ================================================================== *)

Module PyFacts.
Import Py.

Lemma Qltb_true (x y : Q) : Qltb x y = true <-> x < y.
Proof.
  unfold Qltb. rewrite negb_true_iff.
  destruct (Qle_bool y x) eqn:E.
  - apply Qle_bool_iff in E. split; [discriminate | intros H; lra].
  - split; [intros _ | reflexivity].
    apply Qnot_le_lt. intros H. apply Qle_bool_iff in H. congruence.
Qed.

Lemma Qltb_false (x y : Q) : Qltb x y = false <-> y <= x.
Proof.
  unfold Qltb. rewrite negb_false_iff. apply Qle_bool_iff.
Qed.

End PyFacts.

Module RoundFacts.
Import Py PyFacts.

Lemma round_half_even_comp (q q' : Q) :
  q == q' -> round_half_even q = round_half_even q'.
Proof.
  intros E. unfold round_half_even.
  rewrite (Qfloor_comp _ _ E).
  assert (C : Qcompare (q - inject_Z (Qfloor q')) (1 # 2)
            = Qcompare (q' - inject_Z (Qfloor q')) (1 # 2)).
  { apply Qcompare_comp; [rewrite E|]; reflexivity. }
  rewrite C. reflexivity.
Qed.

Lemma round_half_even_floor (q : Q) :
  (Qfloor q <= round_half_even q <= Qfloor q + 1)%Z.
Proof.
  unfold round_half_even.
  destruct (Qcompare _ _); [destruct (Z.even _)|..]; lia.
Qed.

(** An integer below [q] is below its rounding. *)
Lemma round_half_even_ge (z : Z) (q : Q) :
  inject_Z z <= q -> (z <= round_half_even q)%Z.
Proof.
  intros H. pose proof (round_half_even_floor q) as [Hf _].
  assert (z <= Qfloor q)%Z; [|lia].
  rewrite <- (Qfloor_Z z). now apply Qfloor_resp_le.
Qed.

(** An integer above [q] is above its rounding. *)
Lemma round_half_even_le (z : Z) (q : Q) :
  q <= inject_Z z -> (round_half_even q <= z)%Z.
Proof.
  intros H.
  destruct (Qlt_le_dec q (inject_Z z)) as [Hlt | Hge].
  - pose proof (round_half_even_floor q) as [_ Hf].
    assert (Qfloor q < z)%Z; [|lia].
    rewrite Zlt_Qlt. eapply Qle_lt_trans; [apply Qfloor_le | exact Hlt].
  - assert (E : q == inject_Z z) by lra.
    rewrite (round_half_even_comp _ _ E).
    unfold round_half_even. rewrite Qfloor_Z.
    replace (Qcompare (inject_Z z - inject_Z z) (1 # 2)) with Lt; [lia|].
    symmetry. rewrite <- Qlt_alt. lra.
Qed.

Lemma round_half_even_Z (z : Z) : round_half_even (inject_Z z) = z.
Proof.
  apply Z.le_antisymm.
  - apply round_half_even_le. lra.
  - apply round_half_even_ge. lra.
Qed.

Lemma Qmake_le_l (z : Z) (p : positive) (q : Q) :
  z # p <= q <-> inject_Z z <= q * inject_Z (Zpos p).
Proof. unfold Qle, Qmult, inject_Z; simpl. lia. Qed.

Lemma Qmake_le_r (z : Z) (p : positive) (q : Q) :
  q <= z # p <-> q * inject_Z (Zpos p) <= inject_Z z.
Proof. unfold Qle, Qmult, inject_Z; simpl. lia. Qed.

Lemma Qmake_le_Qmake (z z' : Z) (p : positive) : z # p <= z' # p <-> (z <= z')%Z.
Proof. unfold Qle; simpl. nia. Qed.

Lemma round2_comp (q q' : Q) : q == q' -> round2 q = round2 q'.
Proof.
  intros E. unfold round2. f_equal. apply round_half_even_comp. now rewrite E.
Qed.

(** Rounding to two decimals never crosses a two-decimal number. *)
Lemma round2_ge (z : Z) (q : Q) : z # 100 <= q -> z # 100 <= round2 q.
Proof.
  intros H. apply Qmake_le_Qmake, round_half_even_ge.
  exact (proj1 (Qmake_le_l z 100 q) H).
Qed.

Lemma round2_le (z : Z) (q : Q) : q <= z # 100 -> round2 q <= z # 100.
Proof.
  intros H. apply Qmake_le_Qmake, round_half_even_le.
  exact (proj1 (Qmake_le_r z 100 q) H).
Qed.

Lemma round3_ge (z : Z) (q : Q) : z # 1000 <= q -> z # 1000 <= round3 q.
Proof.
  intros H. apply Qmake_le_Qmake, round_half_even_ge.
  exact (proj1 (Qmake_le_l z 1000 q) H).
Qed.

Lemma round3_le (z : Z) (q : Q) : q <= z # 1000 -> round3 q <= z # 1000.
Proof.
  intros H. apply Qmake_le_Qmake, round_half_even_le.
  exact (proj1 (Qmake_le_r z 1000 q) H).
Qed.

(** Rounding a two-decimal number changes nothing. *)
Lemma round2_fixed (z : Z) : round2 (z # 100) == z # 100.
Proof.
  apply Qle_antisym; [apply round2_le | apply round2_ge]; lra.
Qed.

Lemma round_half_even_mono (q q' : Q) :
  q <= q' -> (round_half_even q <= round_half_even q')%Z.
Proof.
  intros H. pose proof (Qfloor_resp_le _ _ H) as Hf.
  destruct (Z.eq_dec (Qfloor q) (Qfloor q')) as [E | N].
  - unfold round_half_even. rewrite <- E.
    destruct (Qcompare_spec (q - inject_Z (Qfloor q)) (1 # 2));
      destruct (Qcompare_spec (q' - inject_Z (Qfloor q)) (1 # 2));
      try destruct (Z.even (Qfloor q)); try lia; exfalso; lra.
  - pose proof (round_half_even_floor q). pose proof (round_half_even_floor q').
    lia.
Qed.

Lemma round2_mono (q q' : Q) : q <= q' -> round2 q <= round2 q'.
Proof.
  intros H. apply Qmake_le_Qmake, round_half_even_mono. lra.
Qed.

End RoundFacts.

Module ScoringFacts.
Import Py PyFacts RoundFacts RiskScoreComponents Scoring.

Lemma min_spec (a b : Q) : (b < a /\ min a b = b) \/ (a <= b /\ min a b = a).
Proof.
  unfold min. destruct (Qltb b a) eqn:E.
  - left. split; [now apply Qltb_true | reflexivity].
  - right. split; [now apply Qltb_false | reflexivity].
Qed.

Lemma max_spec (a b : Q) : (a < b /\ max a b = b) \/ (b <= a /\ max a b = a).
Proof.
  unfold max. destruct (Qltb a b) eqn:E.
  - left. split; [now apply Qltb_true | reflexivity].
  - right. split; [now apply Qltb_false | reflexivity].
Qed.

(** The clamp [max(1.0, min(10.0, x))]. *)
Lemma clamp_bounds (x : Q) : 1 <= max 1 (min 10 x) <= 10.
Proof.
  destruct (min_spec 10 x) as [[H1 ->] | [H1 ->]];
    [destruct (max_spec 1 x) as [[H2 ->] | [H2 ->]]
    |destruct (max_spec 1 10) as [[H2 ->] | [H2 ->]]]; lra.
Qed.

Lemma prob_map_values (sev : string) :
  let p := get (prob_map sev) 0.55 in
  p = 0.95 \/ p = 0.80 \/ p = 0.55 \/ p = 0.25.
Proof.
  unfold prob_map.
  repeat (destruct (String.eqb sev _); [simpl; tauto|]). simpl; tauto.
Qed.

Lemma confirmation_factor_values (c : json_flag) :
  let f := confirmation_factor c in f = 0.7 \/ f = 0.3 \/ f = 1.
Proof.
  destruct c as [s | []]; simpl; [|tauto..].
  repeat (destruct (String.eqb s _); [tauto|]). tauto.
Qed.

Lemma probability_bounds (sev : string) (c : json_flag) :
  0 <= get (prob_map sev) 0.55 * confirmation_factor c <= 1.
Proof.
  destruct (prob_map_values sev) as [-> | [-> | [-> | ->]]];
    destruct (confirmation_factor_values c) as [-> | [-> | ->]]; lra.
Qed.

Lemma urgency_map_values (h : string) :
  let u := get (urgency_map h) 1.0 in
  u = 2.0 \/ u = 1.5 \/ u = 1.0 \/ u = 0.5.
Proof.
  unfold urgency_map.
  repeat (destruct (String.eqb h _); [simpl; tauto|]). simpl; tauto.
Qed.

Lemma count_alternate_suppliers_nonneg (material : string) (cp : Company.t) :
  (0 <= count_alternate_suppliers material cp)%Z.
Proof. unfold count_alternate_suppliers. destruct (Company.suppliers cp); lia. Qed.

Lemma mitigation_bounds (n : Z) (single : bool) :
  (0 <= n)%Z ->
  let m := if single then 0.5 else 1 + min (inject_Z n * 0.2) 1 in
  0.5 <= m <= 2.
Proof.
  intros Hn. destruct single; simpl; [lra|].
  assert (0 <= inject_Z n) by (now rewrite Zle_Qle in Hn).
  destruct (min_spec (inject_Z n * 0.2) 1) as [[H1 ->] | [H1 ->]]; lra.
Qed.

Lemma first_raises {A : Type} (l : list A) (e : exn) :
  first l = Raise e -> e = IndexError.
Proof. destruct l; simpl; congruence. Qed.

Lemma div_raises (a b : Q) (e : exn) : div a b = Raise e -> e = ZeroDivisionError.
Proof. unfold div. destruct (Qeq_bool b 0); congruence. Qed.

Lemma div_Ok (a b q : Q) : div a b = Ok q -> ~ b == 0 /\ q = a / b.
Proof.
  unfold div. destruct (Qeq_bool b 0) eqn:E; [discriminate|].
  intros [= <-]. split; [|reflexivity].
  now apply Qeq_bool_neq.
Qed.

(** Scenario B of the specification: a low-severity risk with three
    alternates scores 0.18, band low. *)
Example scenario_B :
  exists r,
    calculate_risk_score Scenarios.low_event (Scenarios.crude_supplier "s1" 35)
      Scenarios.crude_company = Ok r
    /\ probability (components r) == 0.25
    /\ impact (components r) == 2.33
    /\ urgency (components r) == 0.5
    /\ mitigation (components r) == 1.6
    /\ risk_score r == 0.18
    /\ severity_band r = "low".
Proof.
  eexists. split; [vm_compute; reflexivity|].
  cbn [components probability impact urgency mitigation risk_score severity_band].
  repeat split.
Qed.

(** C4: whenever [calculate_risk_score] returns, the returned components
    satisfy mitigation in [0.5, 2.0], impact in [1, 10] and probability in
    [0, 1]; the only other outcomes are the [IndexError] of an empty
    [supplies] list and the [ZeroDivisionError] of the inventory buffer. *)
Theorem C4_component_ranges (rd : RiskEvent.t) (sup : Supplier.t) (cp : Company.t) :
  match calculate_risk_score rd sup cp with
  | Ok r =>
      let c := components r in
      0.5 <= mitigation c <= 2.0 /\ 1 <= impact c <= 10 /\ 0 <= probability c <= 1
  | Raise e => e = IndexError \/ e = ZeroDivisionError
  end.
Proof.
  unfold calculate_risk_score.
  destruct (first _) as [material | e] eqn:Hm; cbn [bind];
    [|left; eapply first_raises; eassumption].
  destruct (div 1 _) as [buffer_score | e] eqn:Hb; cbn [bind];
    [|right; eapply div_raises; eassumption].
  destruct (div (_ * _) _) as [score | e] eqn:Hs; cbn [bind];
    [|right; eapply div_raises; eassumption].
  cbn [components mitigation impact probability].
  split; [|split].
  - pose proof (mitigation_bounds (count_alternate_suppliers material cp)
                  (get (Supplier.is_single_source sup) false)
                  (count_alternate_suppliers_nonneg material cp)) as H.
    cbv zeta in H. lra.
  - match goal with |- _ <= round2 (max 1 (min 10 ?x)) <= _ =>
      pose proof (clamp_bounds x) as [H1 H2] end.
    split.
    + apply Qle_trans with (100 # 100); [lra|]. apply round2_ge. lra.
    + apply Qle_trans with (1000 # 100); [|lra]. apply round2_le. lra.
  - match goal with |- _ <= round3 ?x <= _ => set (p := x) end.
    assert (0 <= p <= 1) as [H1 H2] by apply probability_bounds.
    split.
    + apply Qle_trans with (0 # 1000); [lra|]. apply round3_ge. lra.
    + apply Qle_trans with (1000 # 1000); [|lra]. apply round3_le. lra.
Qed.

Lemma C4_component_ranges_witness :
  exists r,
    calculate_risk_score Scenarios.critical_event
      (Scenarios.single_source "LPG" 100) (Scenarios.company "LPG" 5 10) = Ok r
    /\ 0.5 <= mitigation (components r) <= 2.0
    /\ 1 <= impact (components r) <= 10
    /\ 0 <= probability (components r) <= 1.
Proof.
  pose proof (C4_component_ranges Scenarios.critical_event
                (Scenarios.single_source "LPG" 100) (Scenarios.company "LPG" 5 10)) as H.
  destruct (calculate_risk_score _ _ _) as [r | e] eqn:E.
  - exists r. split; [reflexivity | exact H].
  - exfalso. vm_compute in E. discriminate E.
Defined.

Lemma round2_exact (q : Q) (z : Z) : q == z # 100 -> round2 q == z # 100.
Proof.
  intros E. apply Qle_antisym; [apply round2_le | apply round2_ge]; lra.
Qed.

Lemma round3_exact (q : Q) (z : Z) : q == z # 1000 -> round3 q == z # 1000.
Proof.
  intros E. apply Qle_antisym; [apply round3_le | apply round3_ge]; lra.
Qed.

Lemma div_nonzero (a b : Q) : ~ b == 0 -> div a b = Ok (a / b).
Proof.
  intros H. unfold div. destruct (Qeq_bool b 0) eqn:E; [|reflexivity].
  apply Qeq_bool_eq in E. contradiction.
Qed.

Lemma min_r (a b : Q) : b < a -> min a b = b.
Proof. intros H. destruct (min_spec a b) as [[_ E] | [H' _]]; [exact E | lra]. Qed.

Lemma max_r (a b : Q) : a < b -> max a b = b.
Proof. intros H. destruct (max_spec a b) as [[_ E] | [H' _]]; [exact E | lra]. Qed.

(** C1: a critical, confirmed, immediate event on a single-source supplier
    with supply_volume_pct 100, whose first material has criticality 5 and
    10 inventory days, scores probability 0.95, impact 3.75, urgency 2.0,
    mitigation 0.5, risk_score 14.25, band critical. *)
Theorem C1_scenario_A
    (rd : RiskEvent.t) (sup : Supplier.t) (cp : Company.t)
    (material : string) (rest : list string) (mc inv : gmap string Q) (v c d : Q) :
  RiskEvent.severity rd = Some "critical" ->
  (RiskEvent.is_confirmed rd = Some (JStr "true")
   \/ RiskEvent.is_confirmed rd = Some (JBool true)) ->
  RiskEvent.time_horizon rd = Some "immediate" ->
  Supplier.supply_volume_pct sup = Some v -> v == 100 ->
  Supplier.is_single_source sup = Some true ->
  Supplier.supplies sup = Some (material :: rest) ->
  Company.material_criticality cp = Some mc -> mc !! material = Some c -> c == 5 ->
  Company.inventory_days cp = Some inv -> inv !! material = Some d -> d == 10 ->
  exists r,
    calculate_risk_score rd sup cp = Ok r
    /\ probability (components r) == 0.95
    /\ impact (components r) == 3.75
    /\ urgency (components r) == 2.0
    /\ mitigation (components r) == 0.5
    /\ risk_score r == 14.25
    /\ severity_band r = "critical".
Proof.
  intros Hsev Hconf Hth Hv Ev Hss Hsup Hmc Hc Ec Hinv Hd Ed.
  assert (Hf : confirmation_factor (get (RiskEvent.is_confirmed rd) (JStr "uncertain")) = 1).
  { destruct Hconf as [-> | ->]; reflexivity. }
  unfold calculate_risk_score.
  rewrite Hsev, Hth, Hv, Hss, Hsup, Hmc, Hinv, Hf.
  cbn [get first bind]. rewrite Hc, Hd. cbn [get].
  change (get (prob_map "critical") 0.55) with 0.95.
  change (get (urgency_map "immediate") 1.0) with 2.0.
  assert (Eb : 1 / (1 + d / 30) == 3 # 4).
  { rewrite Ed. reflexivity. }
  rewrite div_nonzero by (rewrite Ed; discriminate).
  cbn [bind].
  set (impact0 := v / 100 * (c / 10) * (1 / (1 + d / 30)) * 10).
  assert (Ei : impact0 == 375 # 100).
  { unfold impact0. rewrite Eb, Ev, Ec. reflexivity. }
  rewrite (min_r 10 impact0) by lra.
  rewrite (max_r 1 impact0) by lra.
  rewrite div_nonzero by discriminate.
  cbn [bind].
  set (score := 0.95 * 1 * impact0 * 2.0 / 0.5).
  assert (Es : score == 1425 # 100).
  { unfold score. rewrite Ei. reflexivity. }
  eexists. split; [reflexivity|].
  cbn [components probability impact urgency mitigation risk_score severity_band].
  refine (conj _ (conj _ (conj _ (conj _ (conj _ _))))).
  - transitivity (950 # 1000); [apply round3_exact; lra | reflexivity].
  - transitivity (375 # 100); [apply round2_exact; lra | reflexivity].
  - reflexivity.
  - reflexivity.
  - transitivity (1425 # 100); [apply round2_exact; lra | reflexivity].
  - unfold score_to_band.
    assert (Qle_bool 10 score = true) as -> by (apply Qle_bool_iff; lra).
    reflexivity.
Qed.

Lemma C1_scenario_A_witness :
  exists r,
    calculate_risk_score Scenarios.critical_event
      (Scenarios.single_source "LPG" 100) (Scenarios.company "LPG" 5 10) = Ok r
    /\ probability (components r) == 0.95
    /\ impact (components r) == 3.75
    /\ urgency (components r) == 2.0
    /\ mitigation (components r) == 0.5
    /\ risk_score r == 14.25
    /\ severity_band r = "critical".
Proof.
  apply (C1_scenario_A _ _ _ "LPG" [] {[ "LPG" := 5 ]} {[ "LPG" := 10 ]} 100 5 10);
    try reflexivity.
  left; reflexivity.
Defined.

End ScoringFacts.

Module GraphPropagationFacts.
Import Py PyFacts RoundFacts GraphPropagation.

(** *** Termination *)

Lemma unvisited_out_empty (G : DiGraph) : unvisited_out G ∅ = number_of_edges G.
Proof.
  induction G as [|[k [a succs]] G IH]; [reflexivity|].
  cbn [unvisited_out number_of_edges fold_right fst snd] in *.
  rewrite bool_decide_eq_false_2 by set_solver.
  unfold unvisited_out, number_of_edges in IH. now rewrite IH.
Qed.

Lemma unvisited_out_mono (G : DiGraph) (vis vis' : gset string) :
  vis ⊆ vis' -> (unvisited_out G vis' <= unvisited_out G vis)%nat.
Proof.
  intros Hsub. induction G as [|[k [a succs]] G IH]; [reflexivity|].
  cbn [unvisited_out fold_right fst snd] in *.
  fold (unvisited_out G vis) (unvisited_out G vis') in *.
  destruct (bool_decide (k ∈ vis)) eqn:E.
  - apply bool_decide_eq_true_1 in E.
    rewrite bool_decide_eq_true_2 by set_solver. lia.
  - destruct (bool_decide (k ∈ vis')); lia.
Qed.

Lemma unvisited_out_expand (G : DiGraph) (vis : gset string) (node : string)
    (a : node_attrs) (succs : list (string * edge_attrs)) :
  assoc node G = Some (a, succs) -> node ∉ vis ->
  (unvisited_out G ({[node]} ∪ vis) + length succs <= unvisited_out G vis)%nat.
Proof.
  intros Hassoc Hnot. induction G as [|[k [a' succs']] G IH]; [discriminate|].
  cbn [assoc] in Hassoc.
  cbn [unvisited_out fold_right fst snd].
  fold (unvisited_out G vis) (unvisited_out G ({[node]} ∪ vis)).
  destruct (String.eqb node k) eqn:E.
  - apply String.eqb_eq in E. subst k. inversion Hassoc; subst.
    rewrite bool_decide_eq_true_2 by set_solver.
    rewrite bool_decide_eq_false_2 by assumption.
    pose proof (unvisited_out_mono G vis ({[node]} ∪ vis)) as H.
    assert (vis ⊆ {[node]} ∪ vis) as Hs by set_solver.
    specialize (H Hs). lia.
  - apply String.eqb_neq in E. specialize (IH Hassoc).
    destruct (bool_decide (k ∈ vis)) eqn:Ek.
    + apply bool_decide_eq_true_1 in Ek.
      rewrite bool_decide_eq_true_2 by set_solver. lia.
    + apply bool_decide_eq_false_1 in Ek.
      rewrite bool_decide_eq_false_2; [lia|].
      intros [Hk%elem_of_singleton | Hk]%elem_of_union; [congruence | contradiction].
Qed.

(** A round of the [for] loop appends at most one pair to the queue. *)
Lemma visit_successor_queue (G : DiGraph) (t score : Q)
    (p p' : gmap string Q) (q q' : list (string * Q)) (e : string * edge_attrs) :
  visit_successor G t score (Ok (p, q)) e = Ok (p', q') ->
  (length q' <= S (length q))%nat.
Proof.
  unfold visit_successor. cbn [bind fst snd].
  destruct (nodes G (fst e)); cbn [bind]; [|discriminate].
  destruct (Qltb t _); [destruct (p !! fst e) as [old|]; [destruct (Qltb old _)|]|];
    intros H; inversion H; subst; rewrite ?length_app; simpl; lia.
Qed.

Lemma fold_visit_Raise (G : DiGraph) (t score : Q) (l : list (string * edge_attrs))
    (e : exn) :
  fold_left (visit_successor G t score) l (Raise e) = Raise e.
Proof. induction l; [reflexivity | exact IHl]. Qed.

(** Whatever every round of the [for] loop preserves holds after it. *)
Lemma fold_visit_ind (G : DiGraph) (t score : Q)
    (P : gmap string Q -> list (string * Q) -> Prop)
    (l : list (string * edge_attrs)) :
  (forall p q p' q' e, In e l -> P p q ->
     visit_successor G t score (Ok (p, q)) e = Ok (p', q') -> P p' q') ->
  forall p q p' q',
    P p q ->
    fold_left (visit_successor G t score) l (Ok (p, q)) = Ok (p', q') ->
    P p' q'.
Proof.
  induction l as [|e l IH]; intros Hstep p q p' q' HP Hfold.
  - inversion Hfold; subst. exact HP.
  - cbn [fold_left] in Hfold.
    destruct (visit_successor G t score (Ok (p, q)) e) as [[p1 q1] | ex] eqn:Hv.
    + eapply IH; [| |exact Hfold].
      * intros. eapply Hstep; eauto. now right.
      * eapply Hstep; eauto. now left.
    + rewrite fold_visit_Raise in Hfold. discriminate.
Qed.

Lemma fold_visit_queue (G : DiGraph) (t score : Q) (l : list (string * edge_attrs))
    (p p' : gmap string Q) (q q' : list (string * Q)) :
  fold_left (visit_successor G t score) l (Ok (p, q)) = Ok (p', q') ->
  (length q' <= length q + length l)%nat.
Proof.
  revert p q. induction l as [|e l IH]; intros p q Hfold.
  - inversion Hfold; subst. lia.
  - cbn [fold_left] in Hfold.
    destruct (visit_successor G t score (Ok (p, q)) e) as [[p1 q1] | ex] eqn:Hv.
    + apply IH in Hfold. apply visit_successor_queue in Hv. simpl. lia.
    + rewrite fold_visit_Raise in Hfold. discriminate.
Qed.

(** What one round of the [while] loop does. *)
Lemma step_inv (G : DiGraph) (t : Q) (st st' : state) :
  steps_to G t st st' ->
  exists node score rest,
    queue st = (node, score) :: rest
    /\ (((node ∈ visited st) /\ propagated st' = propagated st
         /\ queue st' = rest /\ visited st' = visited st)
        \/ ((node ∉ visited st) /\ visited st' = {[node]} ∪ visited st
            /\ exists a succs,
                 assoc node G = Some (a, succs)
                 /\ fold_left (visit_successor G t score) succs
                      (Ok (propagated st, rest)) = Ok (propagated st', queue st'))).
Proof.
  unfold steps_to, step. destruct (queue st) as [|[node score] rest]; [discriminate|].
  exists node, score, rest. split; [reflexivity|].
  destruct (bool_decide (node ∈ visited st)) eqn:E.
  - apply bool_decide_eq_true_1 in E. injection H as <-. left. auto.
  - apply bool_decide_eq_false_1 in E. right.
    unfold successors in H. destruct (assoc node G) as [[a succs]|] eqn:Ha;
      cbn [bind] in H; [|discriminate].
    destruct (fold_left _ _ _) as [[p q]|] eqn:Hf; cbn [bind] in H; [|discriminate].
    injection H as <-. cbn [visited propagated queue fst snd].
    repeat split; [assumption|]. exists a, succs. auto.
Qed.

Lemma step_measure (G : DiGraph) (t : Q) (st st' : state) :
  steps_to G t st st' -> (measure G st' < measure G st)%nat.
Proof.
  intros H. apply step_inv in H as (node & score & rest & Hq & H).
  unfold measure. rewrite Hq. cbn [length].
  destruct H as [(_ & _ & -> & ->) | (Hnot & -> & a & succs & Ha & Hf)]; [lia|].
  apply fold_visit_queue in Hf.
  pose proof (unvisited_out_expand G (visited st) node a succs Ha Hnot). lia.
Qed.

Lemma loop_total (G : DiGraph) (t : Q) (fuel : nat) :
  forall st, (measure G st < fuel)%nat -> exists r, loop fuel G t st = Some r.
Proof.
  induction fuel as [|fuel IH]; intros st Hm; [lia|].
  cbn [loop]. destruct (step G t st) as [[st'|e]|] eqn:Hs; eauto.
  apply IH. pose proof (step_measure G t st st' Hs). lia.
Qed.

(** More fuel than needed changes nothing. *)
Lemma loop_fuel_mono (G : DiGraph) (t : Q) (fuel : nat) :
  forall st r fuel', loop fuel G t st = Some r -> (fuel <= fuel')%nat ->
    loop fuel' G t st = Some r.
Proof.
  induction fuel as [|fuel IH]; intros st r fuel' H Hle; [discriminate|].
  destruct fuel' as [|fuel']; [lia|].
  cbn [loop] in *. destruct (step G t st) as [[st'|e]|]; auto.
  apply IH; [assumption | lia].
Qed.

(** C9: [propagate_risk] terminates on every finite directed graph, cycles
    included, for every origin, initial score and threshold: the rounds of
    [enough_fuel] always reach an outcome, which more rounds do not change;
    and the node popped in a round is in [visited] from then on, where
    only nodes outside [visited] are expanded. *)
Theorem C9_propagate_risk_terminates (G : DiGraph) (origin : string) (s0 t : Q) :
  (exists r, propagate_risk G origin s0 t = Some r
     /\ (nodes G origin = Raise KeyError \/
         forall fuel, (enough_fuel G <= fuel)%nat ->
           loop fuel G t (initial_state origin s0) = Some r))
  /\ (forall st st', steps_to G t st st' ->
        visited st ⊆ visited st'
        /\ (measure G st' < measure G st)%nat
        /\ exists node score rest,
             queue st = (node, score) :: rest /\ node ∈ visited st'
             /\ (node ∈ visited st ->
                 propagated st' = propagated st /\ queue st' = rest)).
Proof.
  split.
  - unfold propagate_risk. destruct (nodes G origin) as [a|e] eqn:Hn.
    + destruct (loop_total G t (enough_fuel G) (initial_state origin s0)) as [r Hr].
      { unfold measure, enough_fuel. cbn [initial_state queue visited length].
        rewrite unvisited_out_empty. lia. }
      exists r. split; [exact Hr|]. right. intros fuel Hle.
      eapply loop_fuel_mono; eassumption.
    + eexists. split; [reflexivity|]. left.
      unfold nodes in *. destruct (assoc origin G) as [[]|]; congruence.
  - intros st st' H. pose proof (step_measure G t st st' H) as Hm.
    apply step_inv in H as (node & score & rest & Hq & H).
    destruct H as [(Hin & Hp & Hq' & Hv) | (Hnot & Hv & _)]; rewrite Hv.
    + split; [set_solver|]. split; [exact Hm|].
      exists node, score, rest. auto.
    + split; [apply union_subseteq_r|]. split; [exact Hm|].
      exists node, score, rest. split; [assumption|].
      split; [now apply elem_of_union_l, elem_of_singleton|].
      intros Hin. contradiction.
Qed.

(** *** What a run stores *)

Section Run.
Context (G : DiGraph) (origin : string) (s0 t : Q).

Lemma Inv_initial :
  run_invariant G origin s0 t (propagated (initial_state origin s0)) (queue (initial_state origin s0)).
Proof.
  cbn [initial_state propagated queue]. split; [|split].
  - intros n s [[= <- <-] | []]. constructor.
  - intros k v H. apply lookup_singleton_Some in H as [<- <-]. now left.
  - rewrite lookup_singleton_eq. eauto.
Qed.

Lemma assoc_In {A : Type} (k : string) (l : list (string * A)) (a : A) :
  assoc k l = Some a -> In (k, a) l.
Proof.
  induction l as [|[k' a'] l IH]; [discriminate|]. cbn [assoc].
  destruct (String.eqb k k') eqn:E.
  - apply String.eqb_eq in E. intros [= ->]. subst. now left.
  - intros H. right. auto.
Qed.

Lemma visit_successor_cases (score : Q) (p p' : gmap string Q)
    (q q' : list (string * Q)) (e : string * edge_attrs) :
  visit_successor G t score (Ok (p, q)) e = Ok (p', q') ->
  exists a,
    nodes G (fst e) = Ok a
    /\ let s' := propagated_score score (get (weight (snd e)) 0.5) (vulnerability a) in
       (p' = p /\ q' = q)
       \/ (t < s'
           /\ (p !! fst e = None \/ exists old, p !! fst e = Some old /\ old < s')
           /\ p' = <[fst e := round2 s']> p
           /\ q' = q ++ [(fst e, s')]).
Proof.
  unfold visit_successor. cbn [bind fst snd].
  destruct (nodes G (fst e)) as [a|]; cbn [bind]; [|discriminate].
  intros H. exists a. split; [reflexivity|]. cbv zeta.
  destruct (Qltb t _) eqn:Et; [|inversion H; auto].
  apply Qltb_true in Et.
  destruct (p !! fst e) as [old|] eqn:El.
  - destruct (Qltb old _) eqn:Eo; inversion H; subst; [|auto].
    apply Qltb_true in Eo. right. eauto 10.
  - inversion H; subst. right. auto.
Qed.

Lemma visit_successor_Inv (node : string) (score : Q) (p p' : gmap string Q)
    (q q' : list (string * Q)) (e : string * edge_attrs) :
  reaches G origin s0 node score ->
  has_edge G node (fst e) (snd e) ->
  run_invariant G origin s0 t p q ->
  visit_successor G t score (Ok (p, q)) e = Ok (p', q') ->
  run_invariant G origin s0 t p' q'.
Proof.
  intros Hr He (Hq & Hp & Ho) Hv.
  apply visit_successor_cases in Hv as (a & Ha & Hv). cbv zeta in Hv.
  destruct Hv as [[-> ->] | (Ht & _ & -> & ->)]; [repeat split; assumption|].
  split; [|split].
  - intros n s Hin. apply in_app_or in Hin as [Hin | [[= <- <-] | []]]; [auto|].
    econstructor; eassumption.
  - intros k v Hl. destruct (decide (fst e = k)) as [<- | Hne].
    + rewrite lookup_insert_eq in Hl. injection Hl as <-. right.
      eexists. split; [|split; [exact Ht | reflexivity]].
      exists node, score, (snd e), a. auto.
    + rewrite lookup_insert_ne in Hl by assumption. auto.
  - destruct (decide (fst e = origin)) as [<- | Hne].
    + rewrite lookup_insert_eq. eauto.
    + now rewrite lookup_insert_ne.
Qed.

Lemma step_Inv (st st' : state) :
  run_invariant G origin s0 t (propagated st) (queue st) -> steps_to G t st st' ->
  run_invariant G origin s0 t (propagated st') (queue st').
Proof.
  intros HI H. apply step_inv in H as (node & score & rest & Hq & H).
  rewrite Hq in HI. destruct HI as (HIq & HIp & HIo).
  assert (Hrest : run_invariant G origin s0 t (propagated st) rest).
  { repeat split; auto. intros. apply HIq. now right. }
  destruct H as [(_ & -> & -> & _) | (_ & _ & a & succs & Ha & Hf)]; [assumption|].
  eapply (fold_visit_ind G t score (run_invariant G origin s0 t) succs); [|exact Hrest|exact Hf].
  intros p q p' q' [m e] Hin HP Hv.
  eapply visit_successor_Inv; [apply HIq; now left| |exact HP|exact Hv].
  exists a, succs. auto.
Qed.

Lemma run_Inv (st : state) :
  rtc (steps_to G t) (initial_state origin s0) st ->
  run_invariant G origin s0 t (propagated st) (queue st).
Proof.
  revert st. apply rtc_ind_r; [apply Inv_initial|].
  intros st st' _ Hstep HI. eapply step_Inv; eassumption.
Qed.

(** The map returned by the loop is the map of the state in which the
    run ends. *)
Lemma loop_run (fuel : nat) (m : gmap string Q) :
  forall st, loop fuel G t st = Some (Ok m) ->
    exists st', rtc (steps_to G t) st st' /\ queue st' = [] /\ propagated st' = m.
Proof.
  induction fuel as [|fuel IH]; intros st H; [discriminate|].
  cbn [loop] in H. destruct (step G t st) as [[st1|e]|] eqn:Hs; [|discriminate|].
  - apply IH in H as (st' & Hrun & Hq & Hp). exists st'.
    split; [|auto]. eapply rtc_l; [exact Hs | exact Hrun].
  - injection H as <-. exists st. split; [reflexivity|]. split; [|reflexivity].
    unfold step in Hs. destruct (queue st) as [|[n s] r]; [reflexivity|].
    destruct (bool_decide _); discriminate.
Qed.

Lemma propagate_risk_run (m : gmap string Q) :
  propagate_risk G origin s0 t = Some (Ok m) ->
  exists st, rtc (steps_to G t) (initial_state origin s0) st
             /\ queue st = [] /\ propagated st = m.
Proof.
  unfold propagate_risk. destruct (nodes G origin); [|discriminate].
  apply loop_run.
Qed.

(** *** Entries do not decrease *)







(** *** Attenuating graphs *)



End Run.

(** Scenario E of the specification: the result map of the two-tier
    chain is {U: 8.0, S1: 10.0, C: 6.0}. *)
Example scenario_E :
  propagate_risk Scenarios.two_tier_chain "U" 8 1
  = Some (Ok {[ "U" := 8; "S1" := 1000 # 100; "C" := 600 # 100 ]}).
Proof. vm_compute. reflexivity. Qed.




End GraphPropagationFacts.

Module StringFacts.
Import Py.

Lemma lower_char_idem (c : ascii) : lower_char (lower_char c) = lower_char c.
Proof. destruct c as [[] [] [] [] [] [] [] []]; reflexivity. Qed.

Lemma lower_upper_char (c : ascii) : lower_char (upper_char c) = lower_char c.
Proof. destruct c as [[] [] [] [] [] [] [] []]; reflexivity. Qed.

Lemma is_space_lower_char (c : ascii) : is_space (lower_char c) = is_space c.
Proof. destruct c as [[] [] [] [] [] [] [] []]; reflexivity. Qed.

Lemma lower_idem (s : string) : lower (lower s) = lower s.
Proof.
  induction s as [|c s IH]; [reflexivity|].
  unfold lower in *. cbn [map_string]. now rewrite lower_char_idem, IH.
Qed.

Lemma lower_upper (s : string) : lower (upper s) = lower s.
Proof.
  induction s as [|c s IH]; [reflexivity|].
  unfold lower, upper in *. cbn [map_string]. now rewrite lower_upper_char, IH.
Qed.

Lemma lower_empty (s : string) : lower s = EmptyString <-> s = EmptyString.
Proof. destruct s; cbn; split; congruence. Qed.

Lemma take_lower (n : nat) (s : string) : take n (lower s) = lower (take n s).
Proof.
  unfold lower. revert s. induction n as [|n IH]; intros [|c s]; try reflexivity.
  cbn [map_string take]. now rewrite IH.
Qed.

Lemma lstrip_lower (s : string) : lstrip (lower s) = lower (lstrip s).
Proof.
  unfold lower. induction s as [|c s IH]; [reflexivity|].
  cbn [map_string lstrip]. rewrite is_space_lower_char.
  destruct (is_space c); [exact IH | reflexivity].
Qed.

Lemma rstrip_lower (s : string) : rstrip (lower s) = lower (rstrip s).
Proof.
  unfold lower. induction s as [|c s IH]; [reflexivity|].
  cbn [map_string rstrip]. rewrite IH, is_space_lower_char.
  destruct (rstrip s); cbn [map_string]; [destruct (is_space c)|]; reflexivity.
Qed.

Lemma strip_lower (s : string) : strip (lower s) = lower (strip s).
Proof. unfold strip. now rewrite lstrip_lower, rstrip_lower. Qed.

Lemma lstrip_idem (s : string) : lstrip (lstrip s) = lstrip s.
Proof.
  induction s as [|c s IH]; [reflexivity|]. cbn [lstrip].
  destruct (is_space c) eqn:E; [exact IH|]. cbn [lstrip]. now rewrite E.
Qed.

Lemma rstrip_cons (c : ascii) (r : string) :
  rstrip (String c r)
  = match rstrip r with
    | EmptyString => if is_space c then EmptyString else String c EmptyString
    | r' => String c r'
    end.
Proof. reflexivity. Qed.

Lemma rstrip_idem (s : string) : rstrip (rstrip s) = rstrip s.
Proof.
  induction s as [|c s IH]; [reflexivity|]. rewrite rstrip_cons.
  destruct (rstrip s) as [|c' s'] eqn:E.
  - destruct (is_space c) eqn:Ec; [reflexivity|]. cbn [rstrip]. now rewrite Ec.
  - rewrite rstrip_cons, IH. reflexivity.
Qed.

Lemma lstrip_rstrip (s : string) : lstrip (rstrip s) = rstrip (lstrip s).
Proof.
  induction s as [|c s IH]; [reflexivity|]. cbn [rstrip lstrip].
  destruct (is_space c) eqn:Ec.
  - rewrite <- IH. destruct (rstrip s); [reflexivity|].
    cbn [lstrip]. now rewrite Ec.
  - cbn [rstrip]. destruct (rstrip s); cbn [lstrip]; now rewrite Ec.
Qed.

Lemma strip_idem (s : string) : strip (strip s) = strip s.
Proof.
  unfold strip. now rewrite lstrip_rstrip, lstrip_idem, rstrip_idem.
Qed.

Lemma length_lstrip (s : string) : (String.length (lstrip s) <= String.length s)%nat.
Proof.
  induction s as [|c s IH]; [reflexivity|]. cbn [lstrip].
  destruct (is_space c); cbn [String.length]; lia.
Qed.

Lemma length_rstrip (s : string) : (String.length (rstrip s) <= String.length s)%nat.
Proof.
  induction s as [|c s IH]; [reflexivity|]. cbn [rstrip].
  destruct (rstrip s); [destruct (is_space c)|]; cbn [String.length] in *; lia.
Qed.

Lemma length_strip (s : string) : (String.length (strip s) <= String.length s)%nat.
Proof.
  unfold strip. pose proof (length_rstrip (lstrip s)). pose proof (length_lstrip s). lia.
Qed.

Lemma take_all (n : nat) (s : string) : (String.length s <= n)%nat -> take n s = s.
Proof.
  revert s. induction n as [|n IH]; intros [|c s] H; cbn in *; try reflexivity; [lia|].
  rewrite IH; [reflexivity | lia].
Qed.

End StringFacts.

Module DeduplicatorFacts.
Import Py StringFacts Deduplicator.

Lemma length_hex (bytes : list Z) :
  String.length (Hashlib.hex bytes) = (2 * length bytes)%nat.
Proof.
  induction bytes as [|b r IH]; [reflexivity|].
  cbn [Hashlib.hex String.length length]. rewrite IH. lia.
Qed.

(** The digest has 128 bits: 32 hexadecimal digits. *)
Lemma length_md5_hexdigest (s : string) :
  String.length (Hashlib.md5_hexdigest s) = 32%nat.
Proof.
  unfold Hashlib.md5_hexdigest, Hashlib.md5. rewrite length_hex.
  cbv zeta. rewrite !length_app. reflexivity.
Qed.

(** Two digests, as [hashlib] computes them. *)
Example fingerprint_with_body :
  generate_fingerprint {| headline := Some " Fire at Plant "; body := Some "Halts LPG" |}
  = "e5662c1cc690ae9bc976a71828b49139".
Proof. vm_compute. reflexivity. Qed.

Example fingerprint_without_body :
  generate_fingerprint {| headline := Some "Fire at Plant"; body := None |}
  = "573024c84d68ba21f14b76f188140a95".
Proof. vm_compute. reflexivity. Qed.

Lemma length_take (n : nat) (s : string) : (String.length (take n s) <= n)%nat.
Proof.
  revert s. induction n as [|n IH]; intros [|c s]; cbn [take String.length]; try lia.
  specialize (IH s). lia.
Qed.

(** C6, as stated, fails.  For an empty body the hashed text is the
    headline alone, not the headline followed by a space; trimming a body
    of one space to the empty body changes the fingerprint; and trimming a
    body of more than 100 characters moves other characters into the
    hashed window. *)
Lemma C6_fingerprint_formula_fails :
  generate_fingerprint {| headline := Some "Fire"; body := Some "" |}
    <> Hashlib.md5_hexdigest (lower "Fire" ++ " " ++ lower (take 100 ""))
  /\ generate_fingerprint {| headline := Some "Fire"; body := Some (strip " ") |}
       <> generate_fingerprint {| headline := Some "Fire"; body := Some " " |}
  /\ generate_fingerprint
       {| headline := Some "Fire";
          body := Some (strip (" " ++ DedupScenarios.lead_paragraph)) |}
       <> generate_fingerprint
            {| headline := Some "Fire";
               body := Some (" " ++ DedupScenarios.lead_paragraph)%string |}.
Proof. repeat split; vm_compute; discriminate. Qed.

(** C6, amended, for a headline and a body of ASCII characters: the
    fingerprint is the MD5 hex digest (32 hexadecimal digits) of the
    stripped lowercase headline when the body is absent or empty, and of
    that headline, a space, and the stripped lowercase first 100 characters
    of the body otherwise; an absent headline counts as the empty one.  It
    is invariant under whitespace trim and case change of the headline,
    under case change of the body, under any change of the body that
    leaves the lowercase form of its first 100 characters as it is and does
    not make the body empty, and under whitespace trim of the first 100
    characters of the body when these are not all whitespace, hence
    under trim of a body of at most 100 characters that is not all
    whitespace. *)
Theorem C6_fingerprint_stability (H B : string) :
  PyStr.isascii H = true -> PyStr.isascii B = true ->
  generate_fingerprint {| headline := Some H; body := Some B |}
    = Hashlib.md5_hexdigest
        (if String.eqb B "" then strip (lower H)
         else strip (lower H) ++ " " ++ strip (lower (take 100 B)))
  /\ generate_fingerprint {| headline := Some H; body := None |}
       = Hashlib.md5_hexdigest (strip (lower H))
  /\ generate_fingerprint {| headline := None; body := Some B |}
       = generate_fingerprint {| headline := Some ""; body := Some B |}
  /\ generate_fingerprint {| headline := None; body := None |}
       = Hashlib.md5_hexdigest ""
  /\ String.length (generate_fingerprint {| headline := Some H; body := Some B |})
       = 32%nat
  /\ String.length (generate_fingerprint {| headline := Some H; body := None |})
       = 32%nat
  /\ generate_fingerprint {| headline := Some (strip H); body := Some B |}
       = generate_fingerprint {| headline := Some H; body := Some B |}
  /\ generate_fingerprint {| headline := Some (strip H); body := None |}
       = generate_fingerprint {| headline := Some H; body := None |}
  /\ (forall H' b, lower H' = lower H ->
        generate_fingerprint {| headline := Some H'; body := b |}
          = generate_fingerprint {| headline := Some H; body := b |})
  /\ (forall b, generate_fingerprint {| headline := Some (upper H); body := b |}
                = generate_fingerprint {| headline := Some H; body := b |})
  /\ (forall B', lower B' = lower B ->
        generate_fingerprint {| headline := Some H; body := Some B' |}
          = generate_fingerprint {| headline := Some H; body := Some B |})
  /\ generate_fingerprint {| headline := Some H; body := Some (upper B) |}
       = generate_fingerprint {| headline := Some H; body := Some B |}
  /\ (forall B', (B' = "" <-> B = "") -> lower (take 100 B') = lower (take 100 B) ->
        generate_fingerprint {| headline := Some H; body := Some B' |}
          = generate_fingerprint {| headline := Some H; body := Some B |})
  /\ (strip (take 100 B) <> "" ->
      generate_fingerprint {| headline := Some H; body := Some (strip (take 100 B)) |}
        = generate_fingerprint {| headline := Some H; body := Some B |})
  /\ ((String.length B <= 100)%nat -> strip B <> "" ->
      generate_fingerprint {| headline := Some H; body := Some (strip B) |}
        = generate_fingerprint {| headline := Some H; body := Some B |}).
Proof.
  intros _ _.
  assert (Hcase : forall H' b, lower H' = lower H ->
            generate_fingerprint {| headline := Some H'; body := b |}
            = generate_fingerprint {| headline := Some H; body := b |}).
  { intros H' b E. unfold generate_fingerprint. cbn [headline body get]. now rewrite E. }
  assert (Bcase : forall B', lower B' = lower B ->
            generate_fingerprint {| headline := Some H; body := Some B' |}
            = generate_fingerprint {| headline := Some H; body := Some B |}).
  { intros B' E. unfold generate_fingerprint. cbn [headline body get].
    rewrite <- !take_lower, E.
    destruct (String.eqb B' "") eqn:E1, (String.eqb B "") eqn:E2; try reflexivity.
    - apply String.eqb_eq in E1. apply String.eqb_neq in E2. subst B'.
      symmetry in E. apply (proj1 (lower_empty B)) in E. contradiction.
    - apply String.eqb_eq in E2. apply String.eqb_neq in E1. subst B.
      apply (proj1 (lower_empty B')) in E. contradiction. }
  assert (Window : strip (take 100 B) <> "" ->
            generate_fingerprint
              {| headline := Some H; body := Some (strip (take 100 B)) |}
            = generate_fingerprint {| headline := Some H; body := Some B |}).
  { intros Hne. unfold generate_fingerprint. cbn [headline body get].
    pose proof (length_strip (take 100 B)) as Hl.
    pose proof (length_take 100 B) as Ht.
    rewrite (take_all 100 (strip (take 100 B))) by lia.
    rewrite !strip_lower, strip_idem.
    destruct (String.eqb (strip (take 100 B)) "") eqn:E1;
      [apply String.eqb_eq in E1; contradiction|].
    destruct (String.eqb B "") eqn:E2; [|reflexivity].
    apply String.eqb_eq in E2. subst B. contradiction Hne. reflexivity. }
  assert (Lead : forall B', (B' = "" <-> B = "") ->
            lower (take 100 B') = lower (take 100 B) ->
            generate_fingerprint {| headline := Some H; body := Some B' |}
            = generate_fingerprint {| headline := Some H; body := Some B |}).
  { intros B' Hiff E. unfold generate_fingerprint. cbn [headline body get].
    rewrite E.
    destruct (String.eqb B' "") eqn:E1, (String.eqb B "") eqn:E2; try reflexivity.
    - apply String.eqb_eq in E1. apply String.eqb_neq in E2.
      destruct (E2 (proj1 Hiff E1)).
    - apply String.eqb_eq in E2. apply String.eqb_neq in E1.
      destruct (E1 (proj2 Hiff E2)). }
  refine (conj _ (conj _ (conj _ (conj _ (conj _ (conj _ (conj _ (conj _
           (conj Hcase (conj _ (conj Bcase (conj _ (conj Lead (conj Window _)))))))))))))).
  - unfold generate_fingerprint. cbn [headline body get].
    destruct (String.eqb B ""); reflexivity.
  - reflexivity.
  - reflexivity.
  - reflexivity.
  - apply length_md5_hexdigest.
  - apply length_md5_hexdigest.
  - unfold generate_fingerprint. cbn [headline body get].
    now rewrite !strip_lower, strip_idem.
  - unfold generate_fingerprint. cbn [headline body get].
    now rewrite !strip_lower, strip_idem.
  - intros b. apply Hcase, lower_upper.
  - apply Bcase, lower_upper.
  - intros Hlen Hne. rewrite <- Window; rewrite (take_all 100 B) by lia;
      [reflexivity | exact Hne].
Qed.

Lemma C6_fingerprint_stability_witness :
  generate_fingerprint
      {| headline := Some "Fire at Plant"; body := Some (strip "  Halts LPG  ") |}
    = generate_fingerprint
        {| headline := Some "Fire at Plant"; body := Some "  Halts LPG  " |}.
Proof.
  apply (C6_fingerprint_stability "Fire at Plant" "  Halts LPG  ").
  - reflexivity.
  - reflexivity.
  - cbn. lia.
  - vm_compute. discriminate.
Defined.

End DeduplicatorFacts.

Module SupplierFinderFacts.
Import Py PyFacts SupplierFinder.

Lemma insert_desc_In (x y : scored) (l : list scored) :
  In y (insert_desc x l) <-> y = x \/ In y l.
Proof.
  induction l as [|z l IH]; cbn [insert_desc].
  - cbn. intuition congruence.
  - destruct (Qltb (score x) (score z)); cbn [In]; [rewrite IH|]; intuition congruence.
Qed.

Lemma insert_desc_sorted (x : scored) (l : list scored) :
  StronglySorted score_ge l -> StronglySorted score_ge (insert_desc x l).
Proof.
  induction 1 as [|y l Hs IH Hall]; cbn [insert_desc].
  - repeat constructor.
  - destruct (Qltb (score x) (score y)) eqn:E.
    + apply Qltb_true in E. constructor; [exact IH|].
      apply List.Forall_forall. intros z Hz. apply insert_desc_In in Hz as [-> | Hz].
      * unfold score_ge. lra.
      * rewrite List.Forall_forall in Hall. auto.
    + apply Qltb_false in E. constructor; [constructor; assumption|].
      constructor; [exact E|].
      apply List.Forall_forall. intros z Hz. rewrite List.Forall_forall in Hall.
      specialize (Hall z Hz). unfold score_ge in *. lra.
Qed.

Lemma sort_by_score_desc_sorted (l : list scored) :
  StronglySorted score_ge (sort_by_score_desc l).
Proof.
  induction l as [|x l IH]; [constructor|]. now apply insert_desc_sorted.
Qed.

Lemma insert_desc_perm (x : scored) (l : list scored) :
  Permutation (insert_desc x l) (x :: l).
Proof.
  induction l as [|y l IH]; cbn [insert_desc]; [reflexivity|].
  destruct (Qltb (score x) (score y)); [|reflexivity].
  rewrite IH. apply perm_swap.
Qed.

Lemma sort_by_score_desc_perm (l : list scored) :
  Permutation (sort_by_score_desc l) l.
Proof.
  induction l as [|x l IH]; [reflexivity|].
  cbn [sort_by_score_desc fold_right]. rewrite insert_desc_perm.
  now apply perm_skip.
Qed.

(** Insertion never moves an element past one of the same score. *)
Lemma insert_desc_stable (q : Q) (x : scored) (l : list scored) :
  List.filter (fun a => Qeq_bool (score a) q) (insert_desc x l)
  = List.filter (fun a => Qeq_bool (score a) q) (x :: l).
Proof.
  induction l as [|y l IH]; cbn [insert_desc]; [reflexivity|].
  destruct (Qltb (score x) (score y)) eqn:E; [|reflexivity].
  apply Qltb_true in E. cbn [List.filter] in *. rewrite IH.
  destruct (Qeq_bool (score x) q) eqn:Ex, (Qeq_bool (score y) q) eqn:Ey;
    try reflexivity.
  apply Qeq_bool_eq in Ex, Ey. lra.
Qed.

Lemma sort_by_score_desc_stable (q : Q) (l : list scored) :
  List.filter (fun a => Qeq_bool (score a) q) (sort_by_score_desc l)
  = List.filter (fun a => Qeq_bool (score a) q) l.
Proof.
  induction l as [|x l IH]; [reflexivity|].
  cbn [sort_by_score_desc fold_right]. rewrite insert_desc_stable.
  cbn [List.filter]. fold (sort_by_score_desc l). now rewrite IH.
Qed.

Lemma firstn_incl {A : Type} (n : nat) (l : list A) (y : A) :
  In y (firstn n l) -> In y l.
Proof.
  revert l. induction n as [|n IH]; intros [|x l]; cbn [firstn In]; try tauto.
  intros [-> | H]; auto.
Qed.

Lemma firstn_sorted (n : nat) (l : list scored) :
  StronglySorted score_ge l -> StronglySorted score_ge (firstn n l).
Proof.
  intros H. revert n. induction H as [|x l Hs IH Hall]; intros [|n];
    cbn [firstn]; try constructor; [apply IH|].
  apply List.Forall_forall. intros y Hy. rewrite List.Forall_forall in Hall.
  apply Hall. eapply firstn_incl. exact Hy.
Qed.

(** What [find_alternates] returns: the first [max_results] of the scored
    candidates, sorted. *)
Lemma find_alternates_Ok (id : string) (db : Db.t) (n : nat) (l : list scored) :
  find_alternates id db n = Ok l ->
  l = firstn n (sort_by_score_desc (scored_candidates id db)).
Proof.
  unfold find_alternates, scored_candidates.
  destruct (find _ (Db.suppliers db)) as [disrupted|]; [|intros [= <-]; now destruct n].
  destruct (first _) as [material|]; cbn [bind]; [|discriminate].
  destruct (getitem _); cbn [bind]; [|discriminate].
  destruct (List.filter _ _) as [|c cs] eqn:Ef; intros [= <-]; [now destruct n | reflexivity].
Qed.

(** Scenario F of the specification: of two candidates that differ in
    lead time only, the one with 2 weeks ranks first; its score is higher. *)
Example scenario_F :
  exists a b,
    find_alternates "s1" Scenarios.lead_time_db 5 = Ok [a; b]
    /\ name a = "Fast Gas" /\ name b = "Slow Gas" /\ score b < score a.
Proof.
  eexists. eexists. split; [vm_compute; reflexivity|]. repeat split.
Qed.

(** C7, as stated, fails on the tiebreak: two candidates with the equal
    score 8.25 are returned in the order of the database, the one with a
    lead time of 12 weeks before the one with 4 weeks. *)
Lemma C7_tiebreak_fails :
  exists a b,
    find_alternates "s1" Scenarios.tie_db 5 = Ok [a; b]
    /\ score a == score b
    /\ lead_time_weeks a == 12 /\ lead_time_weeks b == 4
    /\ ~ tiebreak_ok a b.
Proof.
  eexists. eexists. split; [vm_compute; reflexivity|].
  cbn [score lead_time_weeks approved_vendor name].
  split; [reflexivity|]. split; [reflexivity|]. split; [reflexivity|].
  unfold tiebreak_ok. cbn [lead_time_weeks].
  intros [H | [H _]]; vm_compute in H; discriminate H.
Qed.

(** C7, amended: the list returned by [find_alternates] is sorted
    non-increasing by score and has at most [max_results] entries (5 by
    default); it is the head of the stable sort of the scored candidates,
    so candidates with equal scores stay in the order in which the
    database returned them. *)
Theorem C7_find_alternates_order (id : string) (db : Db.t) (n : nat) (l : list scored) :
  find_alternates id db n = Ok l ->
  StronglySorted score_ge l
  /\ (length l <= n)%nat
  /\ l = firstn n (sort_by_score_desc (scored_candidates id db))
  /\ Permutation (sort_by_score_desc (scored_candidates id db)) (scored_candidates id db)
  /\ (forall q,
        List.filter (fun a => Qeq_bool (score a) q)
               (sort_by_score_desc (scored_candidates id db))
        = List.filter (fun a => Qeq_bool (score a) q) (scored_candidates id db)).
Proof.
  intros H. apply find_alternates_Ok in H. subst l.
  split; [apply firstn_sorted, sort_by_score_desc_sorted|].
  split; [apply firstn_le_length|]. split; [reflexivity|].
  split; [apply sort_by_score_desc_perm|]. intros q. apply sort_by_score_desc_stable.
Qed.

Lemma C7_find_alternates_order_witness :
  exists l,
    find_alternates "s1" Scenarios.tie_db 5 = Ok l
    /\ StronglySorted score_ge l
    /\ (length l <= 5)%nat
    /\ l = firstn 5 (sort_by_score_desc (scored_candidates "s1" Scenarios.tie_db)).
Proof.
  eexists. split; [vm_compute; reflexivity|].
  match goal with |- StronglySorted _ ?l /\ _ =>
    destruct (C7_find_alternates_order "s1" Scenarios.tie_db 5 l) as (H1 & H2 & H3 & _)
  end; [vm_compute; reflexivity|].
  split; [exact H1|]. split; [exact H2 | exact H3].
Defined.

End SupplierFinderFacts.

Module AlertGeneratorFacts.
Import Py PyFacts AlertGenerator.

(** The gate of [should_create_alert]. *)
Lemma should_create_alert_spec (settings : Settings.t) (risk_event : RiskEvent.t) :
  should_create_alert settings risk_event = true
  <-> Settings.alert_threshold_score settings <= get (RiskEvent.risk_score risk_event) 0.0
      /\ get (RiskEvent.affected_supply_chain_nodes risk_event) [] <> [].
Proof.
  unfold should_create_alert.
  destruct (Qltb _ _) eqn:E.
  - apply Qltb_true in E. split; [discriminate | intros [H _]; lra].
  - apply Qltb_false in E.
    destruct (get (RiskEvent.affected_supply_chain_nodes risk_event) []).
    + split; [discriminate | intros [_ H]; contradiction].
    + split; [intros _; split; [exact E | discriminate] | reflexivity].
Qed.

(** C2, as stated, fails in one direction: for a scored event above the
    threshold with an affected node, a store without the company document
    gets no alert. *)
Lemma C2_gate_not_sufficient :
  Settings.alert_threshold_score Settings.default
    <= get (RiskEvent.risk_score Scenarios.scored_event) 0.0
  /\ get (RiskEvent.affected_supply_chain_nodes Scenarios.scored_event) [] <> []
  /\ create_alert Settings.default Scenarios.scored_event (Scenarios.store [] []) None
     = (None, Scenarios.store [] []).
Proof.
  split; [discriminate|]. split; [discriminate | reflexivity].
Qed.

(** C2, amended: [create_alert] writes an alert only if the risk_score is
    at least the configured threshold and the list of affected nodes is
    not empty; when either fails it returns None and inserts nothing.
    When both hold, one alert is appended and its id returned exactly when
    the company document is found and the alert is assembled without an
    exception; otherwise None is returned and the store is unchanged. *)
Theorem C2_alert_gating (settings : Settings.t) (risk_event : RiskEvent.t) (db : Db.t)
    (gemini_client : option RecommendationText.gemini_client) :
  let gate :=
    Settings.alert_threshold_score settings <= get (RiskEvent.risk_score risk_event) 0.0
    /\ get (RiskEvent.affected_supply_chain_nodes risk_event) [] <> [] in
  let company_id :=
    get (RiskEvent.company_id risk_event) (Settings.company_id settings) in
  let company :=
    find (fun c => String.eqb (Company._id c) company_id) (Db.companies db) in
  let r := create_alert settings risk_event db gemini_client in
  (~ gate -> r = (None, db))
  /\ (forall id db', r = (Some id, db') ->
        gate
        /\ exists c alert,
             company = Some c
             /\ assemble_alert risk_event db gemini_client c company_id = Ok alert
             /\ id = Alert._id alert
             /\ Db.alerts db' = Db.alerts db ++ [alert]
             /\ db' = insert_alert db alert)
  /\ (forall db', r = (None, db') -> db' = db)
  /\ (forall c alert,
        gate -> company = Some c ->
        assemble_alert risk_event db gemini_client c company_id = Ok alert ->
        r = (Some (Alert._id alert), insert_alert db alert)).
Proof.
  cbv zeta. pose proof (should_create_alert_spec settings risk_event) as Hg.
  unfold create_alert.
  destruct (should_create_alert settings risk_event) eqn:Eg; cbn [negb].
  - assert (G : Settings.alert_threshold_score settings
                  <= get (RiskEvent.risk_score risk_event) 0.0
                /\ get (RiskEvent.affected_supply_chain_nodes risk_event) [] <> [])
      by (now apply Hg).
    destruct (find _ (Db.companies db)) as [c|] eqn:Ec; cbn [catch].
    + destruct (assemble_alert risk_event db gemini_client c _) as [alert|e] eqn:Ea;
        cbn [bind catch].
      * split; [intros Hn; contradiction|].
        split; [intros id db' [= <- <-]; split; [exact G|]; exists c, alert; auto|].
        split; [discriminate|]. intros c' alert' _ [= <-] Ha'.
        rewrite Ea in Ha'. now injection Ha' as <-.
      * split; [intros Hn; contradiction|]. split; [discriminate|].
        split; [now intros db' [= <-]|]. intros c' alert' _ [= <-] Ha'.
        rewrite Ea in Ha'. discriminate.
    + split; [intros Hn; contradiction|]. split; [discriminate|].
      split; [now intros db' [= <-] | discriminate].
  - assert (G : ~ (Settings.alert_threshold_score settings
                     <= get (RiskEvent.risk_score risk_event) 0.0
                   /\ get (RiskEvent.affected_supply_chain_nodes risk_event) [] <> [])).
    { intros H. apply Hg in H. discriminate. }
    split; [reflexivity|]. split; [discriminate|].
    split; [now intros db' [= <-]|]. intros c alert H. contradiction.
Qed.

(** Scenario A: with the company and the supplier in the store, one
    alert is written. *)
Lemma C2_alert_gating_witness :
  exists id alert,
    create_alert Settings.default Scenarios.scored_event Scenarios.tie_db None
      = (Some id, insert_alert Scenarios.tie_db alert)
    /\ Alert.risk_score alert == 14.25
    /\ Alert.severity_band alert = "critical"
    /\ length (Alert.recommendations alert) = 2%nat.
Proof.
  pose proof (C2_alert_gating Settings.default Scenarios.scored_event
                Scenarios.tie_db None) as H.
  cbv zeta in H. destruct H as (_ & _ & _ & H).
  eexists. eexists. split.
  - apply (H (Scenarios.company "LPG" 5 10)).
    + split; discriminate.
    + reflexivity.
    + vm_compute. reflexivity.
  - cbn [Alert.risk_score Alert.severity_band Alert.recommendations].
    split; [reflexivity|]. split; reflexivity.
Defined.

End AlertGeneratorFacts.

Module WorkersFacts.
Import Py Workers.

Lemma update_one_length {A : Type} (matches : A -> bool) (set : A -> A) (l : list A) :
  length (update_one matches set l) = length l.
Proof.
  induction l as [|x l IH]; [reflexivity|]. cbn [update_one].
  destruct (matches x); cbn [length]; congruence.
Qed.

Lemma update_one_no_match {A : Type} (matches : A -> bool) (set : A -> A) (l : list A) :
  existsb matches l = false -> update_one matches set l = l.
Proof.
  induction l as [|x l IH]; [reflexivity|]. cbn [update_one existsb].
  destruct (matches x); [discriminate|]. intros H. now rewrite IH.
Qed.

(** C8: for a relevant article that the LLM does not classify as a risk,
    the handler creates no risk event, no alert and no stream record, and
    inserts no article: it only updates a stored article with the same
    event_id.  On a store that does not hold the article (it is inserted
    only on the risk path) nothing is persisted: the article is not
    stored as processed. *)
Theorem C8_not_a_risk
    (company_profile : Company.t) (relevance_score : Q) (rd : risk_data)
    (article_data : Article.t) (w : world) :
  let w' := handler company_profile (true, relevance_score)
              (Some (not_a_risk rd)) article_data w in
  Db.risk_events (db w') = Db.risk_events (db w)
  /\ Db.alerts (db w') = Db.alerts (db w)
  /\ risk_entities w' = risk_entities w
  /\ length (Db.articles (db w')) = length (Db.articles (db w))
  /\ (existsb (fun a => opt_eqb (Article.event_id a) (Article.event_id article_data))
              (Db.articles (db w)) = false ->
      Db.articles (db w') = Db.articles (db w))
  /\ Db.articles
       (db (handler (Scenarios.company "LPG" 5 10) (true, 0.5)
              (Some (Scenarios.llm_answer false)) Scenarios.news Scenarios.empty_world))
     = [].
Proof.
  cbv zeta. unfold handler, not_a_risk.
  cbn [fst snd negb is_empty is_risk get db risk_entities with_articles
       Db.risk_events Db.alerts Db.articles].
  repeat split.
  - apply update_one_length.
  - apply update_one_no_match.
Qed.

End WorkersFacts.

(* ================================================================== *)
(** * Further properties of the code *)
(* ================================================================== *)

Module ScoringExtras.
Import Py PyFacts RoundFacts RiskScoreComponents Scoring ScoringFacts.

Lemma buffer_denominator_zero (d : Q) : 1 + d / 30 == 0 <-> d == -30.
Proof.
  unfold Qdiv. change (/ 30) with (1 # 30). split; intros H; lra.
Qed.

(** The outcomes of [calculate_risk_score]: an empty [supplies] list
    raises IndexError; otherwise the first material decides: -30
    inventory days raise ZeroDivisionError, anything else returns. *)
Theorem calculate_risk_score_outcomes
    (rd : RiskEvent.t) (sup : Supplier.t) (cp : Company.t) :
  (Supplier.supplies sup = Some [] ->
   calculate_risk_score rd sup cp = Raise IndexError)
  /\ (forall material rest,
        get (Supplier.supplies sup) ["unknown"] = material :: rest ->
        (get (get (Company.inventory_days cp) ∅ !! material) 0 == -30 ->
         calculate_risk_score rd sup cp = Raise ZeroDivisionError)
        /\ (~ get (get (Company.inventory_days cp) ∅ !! material) 0 == -30 ->
            exists r, calculate_risk_score rd sup cp = Ok r)).
Proof.
  split.
  - intros H. unfold calculate_risk_score. rewrite H. reflexivity.
  - intros material rest H. unfold calculate_risk_score. rewrite H.
    cbn [first bind]. split; intros Hd.
    + unfold div at 1.
      assert (Qeq_bool (1 + get (get (Company.inventory_days cp) ∅ !! material) 0 / 30) 0
              = true) as ->; [|reflexivity].
      apply Qeq_bool_iff. now apply buffer_denominator_zero.
    + rewrite div_nonzero by (now rewrite buffer_denominator_zero).
      cbn [bind]. rewrite div_nonzero; [cbn [bind]; eauto|].
      pose proof (mitigation_bounds (count_alternate_suppliers material cp)
                    (get (Supplier.is_single_source sup) false)
                    (count_alternate_suppliers_nonneg material cp)) as Hm.
      cbv zeta in Hm. intros E. rewrite E in Hm. lra.
Qed.

Lemma probability_lower (sev : string) (c : json_flag) :
  0.075 <= get (prob_map sev) 0.55 * confirmation_factor c <= 0.95.
Proof.
  destruct (prob_map_values sev) as [-> | [-> | [-> | ->]]];
    destruct (confirmation_factor_values c) as [-> | [-> | ->]]; lra.
Qed.

Lemma urgency_bounds (h : string) : 0.5 <= get (urgency_map h) 1.0 <= 2.
Proof.
  destruct (urgency_map_values h) as [-> | [-> | [-> | ->]]]; lra.
Qed.

Lemma final_score_bounds (p i u m : Q) :
  0.075 <= p <= 0.95 -> 1 <= i <= 10 -> 0.5 <= u <= 2 -> 0.5 <= m <= 2 ->
  0.01875 <= p * i * u / m <= 38.
Proof.
  intros Hp Hi Hu Hm.
  assert (Hpi : 0.075 <= p * i <= 9.5) by nra.
  assert (Hx : 0.0375 <= p * i * u <= 19) by nra.
  split.
  - apply Qle_shift_div_l; lra.
  - apply Qle_shift_div_r; lra.
Qed.

Lemma returned_score_bounds
    (rd : RiskEvent.t) (sup : Supplier.t) (cp : Company.t) (r : score_result) :
  calculate_risk_score rd sup cp = Ok r -> 0.02 <= risk_score r <= 38.
Proof.
  unfold calculate_risk_score.
  destruct (first _) as [material | e]; cbn [bind]; [|discriminate].
  destruct (div 1 _) as [buffer_score | e]; cbn [bind]; [|discriminate].
  destruct (div (_ * _) _) as [score | e] eqn:Hs; cbn [bind]; [|discriminate].
  intros [= <-]. cbn [risk_score].
  apply div_Ok in Hs as [_ ->].
  match goal with |- _ <= round2 (?p * ?i * ?u / ?m) <= _ =>
    assert (Hb : 0.01875 <= p * i * u / m <= 38)
  end.
  { apply final_score_bounds.
    - apply probability_lower.
    - apply clamp_bounds.
    - apply urgency_bounds.
    - apply (mitigation_bounds (count_alternate_suppliers material cp)
               (get (Supplier.is_single_source sup) false)
               (count_alternate_suppliers_nonneg material cp)). }
  destruct Hb as [Hlo Hhi]. split.
  - apply Qle_trans with (round2 0.01875); [vm_compute; discriminate|].
    now apply round2_mono.
  - apply Qle_trans with (3800 # 100); [|lra]. apply round2_le. lra.
Qed.

(** Every score that [calculate_risk_score] returns lies between 0.02 and
    38.0, and its urgency is one of 2.0, 1.5, 1.0, 0.5. *)
Theorem risk_score_range
    (rd : RiskEvent.t) (sup : Supplier.t) (cp : Company.t) (r : score_result) :
  calculate_risk_score rd sup cp = Ok r ->
  0.02 <= risk_score r <= 38
  /\ (urgency (components r) = 2.0 \/ urgency (components r) = 1.5
      \/ urgency (components r) = 1.0 \/ urgency (components r) = 0.5).
Proof.
  intros H. split; [eapply returned_score_bounds; exact H|].
  revert H. unfold calculate_risk_score.
  destruct (first _) as [material | e]; cbn [bind]; [|discriminate].
  destruct (div 1 _) as [buffer_score | e]; cbn [bind]; [|discriminate].
  destruct (div (_ * _) _) as [score | e]; cbn [bind]; [|discriminate].
  intros [= <-]. cbn [components urgency]. apply urgency_map_values.
Qed.

Lemma risk_score_range_witness :
  exists r,
    calculate_risk_score Scenarios.low_event (Scenarios.crude_supplier "s1" 35)
      Scenarios.crude_company = Ok r
    /\ 0.02 <= risk_score r <= 38.
Proof.
  eexists. split; [vm_compute; reflexivity|].
  eapply (risk_score_range Scenarios.low_event (Scenarios.crude_supplier "s1" 35)
            Scenarios.crude_company).
  vm_compute. reflexivity.
Defined.

(** A loop that adds at most one per round. *)
Lemma count_fold_bounds (g : Z -> Supplier.t -> Z) (l : list Supplier.t) (acc : Z) :
  (forall c s, (c <= g c s <= c + 1)%Z) ->
  (acc <= fold_left g l acc <= acc + Z.of_nat (length l))%Z.
Proof.
  intros Hg. revert acc. induction l as [|s l IH]; intros acc; cbn [fold_left length].
  - lia.
  - specialize (IH (g acc s)). specialize (Hg acc s). lia.
Qed.

(** [count_alternate_suppliers] is never negative and at most the number
    of listed suppliers less one; it is 0 without a "suppliers" key; two
    material names with the same lowercase form give the same count, so
    for a name of ASCII characters the count does not depend on its case. *)
Theorem count_alternate_suppliers_bounds (material : string) (cp : Company.t) :
  (0 <= count_alternate_suppliers material cp
     <= Z.max 0 (Z.of_nat (length (get (Company.suppliers cp) [])) - 1))%Z
  /\ (Company.suppliers cp = None -> count_alternate_suppliers material cp = 0%Z)
  /\ (forall material', lower material' = lower material ->
        count_alternate_suppliers material' cp = count_alternate_suppliers material cp)
  /\ (PyStr.isascii material = true ->
      count_alternate_suppliers (upper material) cp
      = count_alternate_suppliers material cp).
Proof.
  assert (Hcase : forall material', lower material' = lower material ->
            count_alternate_suppliers material' cp = count_alternate_suppliers material cp).
  { intros material' E. unfold count_alternate_suppliers. now rewrite E. }
  split; [|split; [|split]].
  - unfold count_alternate_suppliers. destruct (Company.suppliers cp) as [sups|];
      cbn [get length]; [|lia].
    match goal with |- context [fold_left ?g sups 0%Z] =>
      assert (H : (0 <= fold_left g sups 0 <= 0 + Z.of_nat (length sups))%Z)
    end.
    { apply count_fold_bounds. intros c s.
      destruct (str_in _ _); [destruct (available_status _)|]; lia. }
    lia.
  - intros H. unfold count_alternate_suppliers. now rewrite H.
  - exact Hcase.
  - intros _. apply Hcase, StringFacts.lower_upper.
Qed.

(** *** Batch scoring *)



End ScoringExtras.

Module GraphPropagationExtras.
Import Py PyFacts RoundFacts GraphPropagation GraphPropagationFacts DiGraphInvariant.

Lemma is_node_nodes (G : DiGraph) (n : string) :
  is_node G n = true <-> exists a, nodes G n = Ok a.
Proof.
  unfold is_node, nodes. destruct (assoc n G) as [[a succs]|].
  - split; eauto.
  - split; [discriminate | intros [a H]; discriminate].
Qed.

Lemma well_formed_edge (G : DiGraph) (n m : string) (e : edge_attrs) :
  well_formed G = true -> has_edge G n m e -> is_node G m = true.
Proof.
  intros Hwf (a & succs & Hassoc & Hin).
  unfold well_formed in Hwf. rewrite forallb_forall in Hwf.
  specialize (Hwf _ (assoc_In _ _ _ Hassoc)). cbn [snd] in Hwf.
  rewrite forallb_forall in Hwf. exact (Hwf _ Hin).
Qed.

(** *** No exception on a well-formed graph *)

Section WellFormed.
Context (G : DiGraph) (t : Q) (Hwf : well_formed G = true).

Lemma visit_successor_no_raise (node : string) (score : Q) (p : gmap string Q)
    (q : list (string * Q)) (e : string * edge_attrs) :
  has_edge G node (fst e) (snd e) -> queue_of_nodes G q ->
  exists p' q',
    visit_successor G t score (Ok (p, q)) e = Ok (p', q') /\ queue_of_nodes G q'.
Proof.
  intros He Hq. pose proof (well_formed_edge G _ _ _ Hwf He) as Hn.
  apply is_node_nodes in Hn as [a Ha].
  unfold visit_successor. cbn [bind fst snd]. rewrite Ha. cbn [bind].
  destruct (Qltb t _); [destruct (p !! fst e) as [old|]; [destruct (Qltb old _)|]|];
    eexists; eexists; (split; [reflexivity|]); try exact Hq.
  all: intros n s Hin; apply in_app_or in Hin as [Hin | [[= <- <-] | []]];
    [eapply Hq; exact Hin | apply is_node_nodes; eauto].
Qed.

Lemma fold_visit_no_raise (node : string) (score : Q)
    (l : list (string * edge_attrs)) :
  (forall e, In e l -> has_edge G node (fst e) (snd e)) ->
  forall p q, queue_of_nodes G q ->
    exists p' q',
      fold_left (visit_successor G t score) l (Ok (p, q)) = Ok (p', q')
      /\ queue_of_nodes G q'.
Proof.
  induction l as [|e l IH]; intros Hl p q Hq; cbn [fold_left]; [eauto|].
  destruct (visit_successor_no_raise node score p q e) as (p1 & q1 & -> & Hq1);
    [apply Hl; now left | exact Hq |].
  apply IH; [|exact Hq1]. intros e' He'. apply Hl. now right.
Qed.

Lemma step_no_raise (st : state) (r : result state) :
  queue_of_nodes G (queue st) -> step G t st = Some r ->
  exists st', r = Ok st' /\ queue_of_nodes G (queue st').
Proof.
  intros Hq. unfold step. destruct (queue st) as [|[node score] rest]; [discriminate|].
  assert (Hrest : queue_of_nodes G rest) by (intros n s Hin; eapply Hq; right; exact Hin).
  destruct (bool_decide (node ∈ visited st)).
  - intros [= <-]. eexists. split; [reflexivity | exact Hrest].
  - unfold successors. specialize (Hq node score (or_introl eq_refl)).
    unfold is_node in Hq. destruct (assoc node G) as [[a succs]|] eqn:Ha;
      [|discriminate]. cbn [bind].
    destruct (fold_visit_no_raise node score succs) with (p := propagated st) (q := rest)
      as (p' & q' & -> & Hq'); [|exact Hrest|].
    { intros [m e] Hin. exists a, succs. auto. }
    cbn [bind]. intros [= <-]. eexists. split; [reflexivity | exact Hq'].
Qed.

Lemma loop_no_raise (fuel : nat) :
  forall st r, queue_of_nodes G (queue st) -> loop fuel G t st = Some r ->
    exists m, r = Ok m.
Proof.
  induction fuel as [|fuel IH]; intros st r Hq H; [discriminate|].
  cbn [loop] in H. destruct (step G t st) as [r1|] eqn:Hs.
  - destruct (step_no_raise st r1 Hq Hs) as (st' & -> & Hq'). eapply IH; eassumption.
  - injection H as <-. eauto.
Qed.

End WellFormed.

(** [propagate_risk] raises KeyError when the origin is not a node of the
    graph; on a graph in which every edge ends in a node it raises
    nothing else: for an origin in the graph it always returns a map. *)
Theorem propagate_risk_outcomes (G : DiGraph) (origin : string) (s0 t : Q) :
  (is_node G origin = false -> propagate_risk G origin s0 t = Some (Raise KeyError))
  /\ (is_node G origin = true -> well_formed G = true ->
      exists m, propagate_risk G origin s0 t = Some (Ok m)).
Proof.
  unfold propagate_risk, is_node, nodes. split.
  - destruct (assoc origin G) as [[a succs]|]; [discriminate | reflexivity].
  - intros Hn Hwf. destruct (assoc origin G) as [[a succs]|] eqn:Ha; [|discriminate].
    destruct (loop_total G t (enough_fuel G) (initial_state origin s0)) as [r Hr].
    { unfold measure, enough_fuel. cbn [initial_state queue visited length].
      rewrite unvisited_out_empty. lia. }
    rewrite Hr.
    destruct (loop_no_raise G t Hwf (enough_fuel G) (initial_state origin s0) r)
      as [m ->]; [|exact Hr|eauto].
    intros n s [[= <- <-] | []]. unfold is_node. now rewrite Ha.
Qed.

Lemma propagate_risk_outcomes_witness :
  exists m, propagate_risk Scenarios.two_tier_chain "S1" 8 1 = Some (Ok m).
Proof.
  apply (proj2 (propagate_risk_outcomes Scenarios.two_tier_chain "S1" 8 1));
    reflexivity.
Defined.

(** Every key of the returned map is a node of the graph that a path
    from the origin reaches. *)
Theorem result_keys_are_reached
    (G : DiGraph) (origin : string) (s0 t : Q) (m : gmap string Q) :
  propagate_risk G origin s0 t = Some (Ok m) ->
  forall k v, m !! k = Some v ->
    is_node G k = true /\ exists s, reaches G origin s0 k s.
Proof.
  intros Hm k v Hl.
  assert (Ho : is_node G origin = true).
  { unfold propagate_risk, nodes, is_node in *.
    destruct (assoc origin G) as [[]|]; [reflexivity | discriminate]. }
  apply propagate_risk_run in Hm as (st & Hrun & _ & <-).
  apply run_Inv in Hrun as (_ & Hp & _).
  destruct (Hp _ _ Hl) as [[-> _] | (s & Harr & _)].
  - split; [exact Ho|]. exists s0. constructor.
  - destruct Harr as (n & sn & e & a & Hr & He & Ha & ->). split.
    + apply is_node_nodes. eauto.
    + eexists. econstructor; eassumption.
Qed.

Lemma result_keys_are_reached_witness :
  propagate_risk Scenarios.two_tier_chain "U" 8 1
    = Some (Ok {[ "U" := 8; "S1" := 1000 # 100; "C" := 600 # 100 ]})
  /\ is_node Scenarios.two_tier_chain "C" = true
  /\ exists s, reaches Scenarios.two_tier_chain "U" 8 "C" s.
Proof.
  assert (E : propagate_risk Scenarios.two_tier_chain "U" 8 1
              = Some (Ok {[ "U" := 8; "S1" := 1000 # 100; "C" := 600 # 100 ]}))
    by (vm_compute; reflexivity).
  split; [exact E|].
  apply (result_keys_are_reached Scenarios.two_tier_chain "U" 8 1 _ E "C" (600 # 100)).
  vm_compute. reflexivity.
Defined.

End GraphPropagationExtras.

Module DedupIndexFacts.
Import Py DedupIndex.



Lemma is_duplicate_live (a : Deduplicator.article) (ttl now : Z) (r : Redis.t) :
  (0 < ttl)%Z ->
  is_duplicate a ttl now r
  = if Redis.live now r (dedup_key a) then Ok (true, r)
    else Ok (false, {| Redis.entries :=
                         <[dedup_key a := Some (now + ttl)%Z]> (Redis.entries r) |}).
Proof.
  intros Httl. unfold is_duplicate, Redis.set_nx_ex.
  destruct (ttl <=? 0)%Z eqn:E; [lia|].
  destruct (Redis.live now r (dedup_key a)); reflexivity.
Qed.


(** The body enters the fingerprint through its first 100 characters
    only: two articles with the same headline whose bodies agree on these
    have the same fingerprint, whatever follows in the bodies. *)
Theorem fingerprint_reads_100_characters (H : option string) (B B' : string) :
  take 100 B = take 100 B' ->
  Deduplicator.generate_fingerprint
    {| Deduplicator.headline := H; Deduplicator.body := Some B |}
  = Deduplicator.generate_fingerprint
      {| Deduplicator.headline := H; Deduplicator.body := Some B' |}.
Proof.
  intros E. unfold Deduplicator.generate_fingerprint.
  cbn [Deduplicator.headline Deduplicator.body].
  assert (Hemp : String.eqb B "" = String.eqb B' "").
  { change 100%nat with (S 99) in E.
    destruct B, B'; cbn [take] in E; try discriminate E; reflexivity. }
  rewrite Hemp, E. reflexivity.
Qed.

Lemma fingerprint_reads_100_characters_witness :
  Deduplicator.generate_fingerprint
    {| Deduplicator.headline := Some "Port strike";
       Deduplicator.body := Some (DedupScenarios.lead_paragraph ++ ". More follows.")%string |}
  = Deduplicator.generate_fingerprint
      {| Deduplicator.headline := Some "Port strike";
         Deduplicator.body := Some (DedupScenarios.lead_paragraph ++ " (updated)")%string |}.
Proof.
  apply (fingerprint_reads_100_characters (Some "Port strike")
           (DedupScenarios.lead_paragraph ++ ". More follows.")%string
           (DedupScenarios.lead_paragraph ++ " (updated)")%string).
  vm_compute. reflexivity.
Defined.





Lemma del_lookup_In (r : Redis.t) (ks : list string) (k : string) :
  In k ks -> Redis.entries (Redis.del r ks) !! k = None.
Proof.
  unfold Redis.del. cbn [Redis.entries].
  induction ks as [|k0 ks IH]; intros Hin; [contradiction|]. cbn [fold_right].
  destruct (decide (k0 = k)) as [->|Hne].
  - apply lookup_delete_eq.
  - rewrite lookup_delete_ne by assumption. apply IH. now destruct Hin.
Qed.

Lemma del_lookup_not_In (r : Redis.t) (ks : list string) (k : string) :
  ~ In k ks -> Redis.entries (Redis.del r ks) !! k = Redis.entries r !! k.
Proof.
  unfold Redis.del. cbn [Redis.entries].
  induction ks as [|k0 ks IH]; intros Hin; [reflexivity|]. cbn [fold_right].
  rewrite lookup_delete_ne by (intros ->; apply Hin; now left).
  apply IH. intros H. apply Hin. now right.
Qed.

Lemma keys_In (r : Redis.t) (now : Z) (p k : string) :
  In k (Redis.keys r now p) <-> String.prefix p k = true /\ Redis.live now r k = true.
Proof.
  unfold Redis.keys. rewrite List.filter_In, andb_true_iff. split.
  - intros (_ & H). exact H.
  - intros (Hp & Hl). split; [|now split].
    unfold Redis.live in Hl. destruct (Redis.entries r !! k) as [v|] eqn:E; [|discriminate].
    apply in_map_iff. exists (k, v). split; [reflexivity|].
    apply list_elem_of_In. now apply elem_of_map_to_list.
Qed.

Lemma clear_dedup_cache_entries (now : Z) (r : Redis.t) :
  Redis.entries (clear_dedup_cache now r)
  = Redis.entries (Redis.del r (Redis.keys r now "dedup:")).
Proof.
  unfold clear_dedup_cache. now destruct (Redis.keys r now "dedup:").
Qed.

Lemma dedup_key_prefix (a : Deduplicator.article) :
  String.prefix "dedup:" (dedup_key a) = true.
Proof.
  unfold dedup_key. generalize (Deduplicator.generate_fingerprint a). intros x.
  cbn. now destruct x.
Qed.

(** [clear_dedup_cache] forgets every article: from the moment of the call
    on, the next sighting of any article is reported as new.  It removes
    nothing but [dedup:] keys, so the streams and other keys of the same
    server stay as they were. *)
Theorem clear_dedup_cache_forgets (now : Z) (r : Redis.t) :
  (forall a ttl now',
      (now <= now')%Z -> (0 < ttl)%Z ->
      exists r'', is_duplicate a ttl now' (clear_dedup_cache now r) = Ok (false, r''))
  /\ (forall k, String.prefix "dedup:" k = false ->
        Redis.entries (clear_dedup_cache now r) !! k = Redis.entries r !! k).
Proof.
  split.
  - intros a ttl now' Hnow Httl. rewrite is_duplicate_live by assumption.
    assert (Hl : Redis.live now' (clear_dedup_cache now r) (dedup_key a) = false);
      [|rewrite Hl; eauto].
    unfold Redis.live. rewrite clear_dedup_cache_entries.
    destruct (in_dec string_dec (dedup_key a) (Redis.keys r now "dedup:")) as [Hin|Hin].
    + now rewrite del_lookup_In.
    + rewrite del_lookup_not_In by assumption.
      assert (Hd : Redis.live now r (dedup_key a) = false).
      { destruct (Redis.live now r (dedup_key a)) eqn:E; [|reflexivity].
        exfalso. apply Hin, keys_In. split; [apply dedup_key_prefix|exact E]. }
      unfold Redis.live in Hd.
      destruct (Redis.entries r !! dedup_key a) as [[e|]|]; try discriminate; [lia|reflexivity].
  - intros k Hk. rewrite clear_dedup_cache_entries. apply del_lookup_not_In.
    intros Hin. apply keys_In in Hin. destruct Hin as [Hp _]. congruence.
Qed.

End DedupIndexFacts.

Module SupplierFinderExtras.
Import Py PyFacts RoundFacts ScoringFacts SupplierFinder SupplierFinderFacts.

Lemma score_candidates_fold (cands : list Supplier.t) (d : Supplier.t) (rv : Q)
    (acc : list scored) :
  fold_left
    (fun scored_alternates candidate =>
       catch (let* sc := score_alternate_supplier candidate d rv in
              Ok (scored_alternates ++ [sc]))
             (fun _ => scored_alternates))
    cands acc
  = acc ++ flat_map (fun c => match score_alternate_supplier c d rv with
                              | Ok sc => [sc]
                              | Raise _ => []
                              end) cands.
Proof.
  revert acc. induction cands as [|c cs IH]; intros acc; cbn [fold_left flat_map].
  - now rewrite app_nil_r.
  - rewrite IH. destruct (score_alternate_supplier c d rv); cbn [bind catch].
    + now rewrite <- app_assoc.
    + reflexivity.
Qed.

Lemma score_candidates_In (cands : list Supplier.t) (d : Supplier.t) (rv : Q) (a : scored) :
  In a (score_candidates cands d rv)
  <-> exists c, In c cands /\ score_alternate_supplier c d rv = Ok a.
Proof.
  unfold score_candidates. rewrite score_candidates_fold. cbn [app].
  rewrite in_flat_map. split.
  - intros (c & Hc & Ha). exists c. split; [exact Hc|].
    destruct (score_alternate_supplier c d rv); cbn [In] in Ha; [|contradiction].
    destruct Ha as [-> | []]. reflexivity.
  - intros (c & Hc & Ha). exists c. split; [exact Hc|]. rewrite Ha. now left.
Qed.

Lemma score_alternate_supplier_id (c d : Supplier.t) (rv : Q) (a : scored) :
  score_alternate_supplier c d rv = Ok a ->
  supplier_id a = Supplier._id c
  /\ Supplier.name c = Some (name a)
  /\ Supplier.country c = Some (country a).
Proof.
  unfold score_alternate_supplier.
  destruct (if Qltb 0 _ then _ else _) as [cap|]; cbn [bind]; [|discriminate].
  destruct (div 1.0 _) as [lead|]; cbn [bind]; [|discriminate].
  destruct (Supplier.name c) as [nm|]; cbn [getitem bind]; [|discriminate].
  destruct (Supplier.country c) as [co|]; cbn [getitem bind]; [|discriminate].
  intros [= <-]. cbn. auto.
Qed.

(** Every alternate that [find_alternates] returns is the score of a stored
    supplier other than the disrupted one: it belongs to the same company,
    has an available status, supplies the first material of the disrupted
    supplier, and has a name and a country.  The disrupted supplier itself
    is never recommended, and a candidate whose scoring raises is left out. *)
Theorem find_alternates_members
    (id : string) (db : Db.t) (n : nat) (l : list scored) (a : scored) :
  find_alternates id db n = Ok l ->
  In a l ->
  exists d material c,
    find (fun s => String.eqb (Supplier._id s) id) (Db.suppliers db) = Some d
    /\ first (get (Supplier.supplies d) ["unknown"]) = Ok material
    /\ In c (Db.suppliers db)
    /\ score_alternate_supplier c d (get (Supplier.supply_volume_pct d) 50) = Ok a
    /\ supplier_id a = Supplier._id c
    /\ supplier_id a <> id
    /\ In material (get (Supplier.supplies c) [])
    /\ (exists st, Supplier.status c = Some st
                   /\ In st ["active"; "alternate"; "pre_qualified"])
    /\ opt_eqb (Supplier.company_id c) (Supplier.company_id d) = true.
Proof.
  intros H Ha. apply find_alternates_Ok in H. subst l.
  apply firstn_incl in Ha.
  apply (Permutation_in _ (sort_by_score_desc_perm _)) in Ha.
  unfold scored_candidates in Ha.
  destruct (find _ (Db.suppliers db)) as [d|] eqn:Ed; [|contradiction].
  destruct (first _) as [material|] eqn:Em; [|contradiction].
  apply score_candidates_In in Ha. destruct Ha as (c & Hc & Hs).
  apply List.filter_In in Hc. destruct Hc as [Hc Hq].
  unfold candidate_query in Hq.
  apply andb_true_iff in Hq. destruct Hq as [Hq Hco].
  apply andb_true_iff in Hq. destruct Hq as [Hq Hst].
  apply andb_true_iff in Hq. destruct Hq as [Hmat Hid].
  pose proof (score_alternate_supplier_id _ _ _ _ Hs) as (Hsid & _ & _).
  exists d, material, c.
  split; [reflexivity|]. split; [exact Em|]. split; [exact Hc|].
  split; [exact Hs|]. split; [exact Hsid|].
  split.
  { rewrite Hsid. apply negb_true_iff in Hid. now apply String.eqb_neq. }
  split.
  { unfold str_in in Hmat. apply existsb_exists in Hmat.
    destruct Hmat as (x & Hx & Hxe). apply String.eqb_eq in Hxe. now subst x. }
  split; [|exact Hco].
  destruct (Supplier.status c) as [st|]; [|discriminate].
  exists st. split; [reflexivity|].
  unfold str_in in Hst. apply existsb_exists in Hst.
  destruct Hst as (x & Hx & Hxe). apply String.eqb_eq in Hxe. now subst x.
Qed.

Lemma find_alternates_members_witness :
  exists a b d material c,
    find_alternates "s1" Scenarios.tie_db 5 = Ok [a; b]
    /\ find (fun s => String.eqb (Supplier._id s) "s1") (Db.suppliers Scenarios.tie_db) = Some d
    /\ first (get (Supplier.supplies d) ["unknown"]) = Ok material
    /\ In c (Db.suppliers Scenarios.tie_db)
    /\ score_alternate_supplier c d (get (Supplier.supply_volume_pct d) 50) = Ok a
    /\ supplier_id a <> "s1".
Proof.
  destruct (find_alternates "s1" Scenarios.tie_db 5) as [[|a [|b [|? ?]]]|] eqn:E;
    try (vm_compute in E; discriminate E).
  destruct (find_alternates_members "s1" Scenarios.tie_db 5 [a; b] a E ltac:(now left))
    as (d & material & c & H1 & H2 & H3 & H4 & _ & H6 & _).
  exists a, b, d, material, c. auto 10.
Defined.

(** [find_alternates] lets no scoring error out.  It returns the empty list
    for an unknown supplier id; for a stored one it raises [IndexError] when
    the supplier has an empty [supplies] list, [KeyError] when it has no
    name, and otherwise returns at most [max_results] alternates, whatever
    the candidates look like. *)
Theorem find_alternates_outcomes (id : string) (db : Db.t) (n : nat) :
  match find (fun s => String.eqb (Supplier._id s) id) (Db.suppliers db) with
  | None => find_alternates id db n = Ok []
  | Some d =>
      match Supplier.supplies d, Supplier.name d with
      | Some [], _ => find_alternates id db n = Raise IndexError
      | _, None => find_alternates id db n = Raise KeyError
      | _, Some _ =>
          exists l, find_alternates id db n = Ok l /\ (length l <= n)%nat
      end
  end.
Proof.
  unfold find_alternates.
  destruct (find _ (Db.suppliers db)) as [d|]; [|reflexivity].
  destruct (Supplier.supplies d) as [[|m ms]|], (Supplier.name d) as [nm|];
    cbn [get first bind getitem]; try reflexivity.
  - destruct (List.filter _ _); eexists; (split; [reflexivity|]);
      [cbn; lia | apply firstn_le_length].
  - destruct (List.filter _ _); eexists; (split; [reflexivity|]);
      [cbn; lia | apply firstn_le_length].
Qed.

Lemma weighted_sum_bounds (geo cap rel esg fin sw lead : Q) :
  0.3 <= geo <= 1 -> 0 <= cap <= 1 -> 0.4 <= rel <= 1 -> 0 <= esg <= 1 ->
  0 <= fin <= 1 -> 0 <= sw <= 1 -> 0 <= lead <= 1 ->
  140 # 100 <= (geo * 0.20 + cap * 0.25 + rel * 0.20 + esg * 0.10
                + fin * 0.10 + sw * 0.05 + lead * 0.10) * 10 <= 1000 # 100.
Proof. intros. lra. Qed.

Lemma Qdiv_unit_interval (a b : Q) : 0 <= a -> 0 < b -> a <= b -> 0 <= a / b <= 1.
Proof.
  intros Ha Hb Hab. split.
  - apply Qle_shift_div_l; [exact Hb | lra].
  - apply Qle_shift_div_r; [exact Hb | lra].
Qed.

Lemma Qdiv_const (a : Q) (n : positive) : a / (Zpos n # 1) == a * (1 # n).
Proof. unfold Qdiv. reflexivity. Qed.

(** With a positive required volume and the candidate's ratings inside
    their documented ranges (ESG 0-100, financial health and switching cost
    0-10, lead time not negative), the score of an alternate lies between
    1.4 and 10, and the seven components of its breakdown between 0 and 1. *)
Theorem alternate_score_range (c d : Supplier.t) (rv : Q) (a : scored) :
  0 < rv ->
  0 <= get (Supplier.esg_score c) 50 <= 100 ->
  0 <= get (Supplier.financial_health_score c) 5.0 <= 10 ->
  0 <= get (Supplier.switching_cost_estimate c) 5.0 <= 10 ->
  0 <= get (Supplier.lead_time_weeks c) 8 ->
  score_alternate_supplier c d rv = Ok a ->
  1.4 <= score a <= 10
  /\ 0.3 <= ScoreBreakdown.geographic_diversity (score_breakdown a) <= 1
  /\ 0 <= ScoreBreakdown.capacity (score_breakdown a) <= 1
  /\ 0.4 <= ScoreBreakdown.relationship (score_breakdown a) <= 1
  /\ 0 <= ScoreBreakdown.esg (score_breakdown a) <= 1
  /\ 0 <= ScoreBreakdown.financial (score_breakdown a) <= 1
  /\ 0 <= ScoreBreakdown.switching_cost (score_breakdown a) <= 1
  /\ 0 <= ScoreBreakdown.lead_time (score_breakdown a) <= 1.
Proof.
  intros Hrv Hesg Hfin Hsw Hlead. unfold score_alternate_supplier.
  set (geo := if opt_eqb _ _ then 0.3 else 1.0).
  set (rel := if get (Supplier.approved_vendor c) false then 1.0
              else if get (Supplier.pre_qualified c) false then 0.8 else 0.4).
  set (e := get (Supplier.esg_score c) 50) in *.
  set (f := get (Supplier.financial_health_score c) 5.0) in *.
  set (s := get (Supplier.switching_cost_estimate c) 5.0) in *.
  set (w := get (Supplier.lead_time_weeks c) 8) in *.
  assert (Hgeo : 0.3 <= geo <= 1) by (subst geo; destruct (opt_eqb _ _); lra).
  assert (Hrel : 0.4 <= rel <= 1).
  { subst rel. destruct (get (Supplier.approved_vendor c) false);
      [|destruct (get (Supplier.pre_qualified c) false)]; lra. }
  assert (He : 0 <= e / 100 <= 1) by (rewrite (Qdiv_const e 100); lra).
  assert (Hf : 0 <= f / 10 <= 1) by (rewrite (Qdiv_const f 10); lra).
  assert (Hs : 0 <= 1.0 - s / 10 <= 1) by (rewrite (Qdiv_const s 10); lra).
  assert (Hden : 1 <= 1.0 + w / 4) by (rewrite (Qdiv_const w 4); lra).
  destruct (if Qltb 0 _ then _ else _) as [cap|] eqn:Ecap; cbn [bind]; [|discriminate].
  assert (Hcap : 0 <= cap <= 1).
  { destruct (Qltb 0 (get (Supplier.max_capacity c) 0)) eqn:Ec.
    - apply Qltb_true in Ec. rewrite div_nonzero in Ecap by lra.
      cbn [bind] in Ecap. injection Ecap as <-.
      assert (0 <= get (Supplier.max_capacity c) 0 / rv)
        by (apply Qle_shift_div_l; [exact Hrv | lra]).
      destruct (min_spec (get (Supplier.max_capacity c) 0 / rv) 1.0) as [[? ->] | [? ->]]; lra.
    - injection Ecap as <-. lra. }
  rewrite div_nonzero by lra. cbn [bind].
  assert (Hl : 0 <= 1.0 / (1.0 + w / 4) <= 1) by (apply Qdiv_unit_interval; lra).
  destruct (Supplier.name c) as [nm|]; cbn [getitem bind]; [|discriminate].
  destruct (Supplier.country c) as [co|]; cbn [getitem bind]; [|discriminate].
  intros [= <-]. cbn [score score_breakdown ScoreBreakdown.geographic_diversity
    ScoreBreakdown.capacity ScoreBreakdown.relationship ScoreBreakdown.esg
    ScoreBreakdown.financial ScoreBreakdown.switching_cost ScoreBreakdown.lead_time].
  pose proof (weighted_sum_bounds geo cap rel (e / 100) (f / 10) (1.0 - s / 10)
                (1.0 / (1.0 + w / 4)) Hgeo Hcap Hrel He Hf Hs Hl) as [Hlo Hhi].
  assert (B : forall (lo hi : Z) (q : Q),
             lo # 100 <= q <= hi # 100 -> lo # 100 <= round2 q <= hi # 100).
  { intros lo hi q [? ?]. split; [now apply round2_ge | now apply round2_le]. }
  refine (conj _ (conj _ (conj _ (conj _ (conj _ (conj _ (conj _ _))))))).
  - pose proof (B 140%Z 1000%Z _ (conj Hlo Hhi)). lra.
  - pose proof (B 30%Z 100%Z geo ltac:(lra)). lra.
  - pose proof (B 0%Z 100%Z cap ltac:(lra)). lra.
  - pose proof (B 40%Z 100%Z rel ltac:(lra)). lra.
  - pose proof (B 0%Z 100%Z (e / 100) ltac:(lra)). lra.
  - pose proof (B 0%Z 100%Z (f / 10) ltac:(lra)). lra.
  - pose proof (B 0%Z 100%Z (1.0 - s / 10) ltac:(lra)). lra.
  - pose proof (B 0%Z 100%Z (1.0 / (1.0 + w / 4)) ltac:(lra)). lra.
Qed.

Lemma alternate_score_range_witness :
  exists a,
    score_alternate_supplier (Scenarios.lpg_supplier "s2" "Zeta Gas" "IN" 12 75)
      (Scenarios.single_source "LPG" 100) 50 = Ok a
    /\ 1.4 <= score a <= 10.
Proof.
  eexists. split; [vm_compute; reflexivity|].
  match goal with |- _ <= score ?a <= _ =>
    apply (alternate_score_range (Scenarios.lpg_supplier "s2" "Zeta Gas" "IN" 12 75)
             (Scenarios.single_source "LPG" 100) 50 a)
  end; cbn; try lra.
  vm_compute. reflexivity.
Defined.

End SupplierFinderExtras.

Module AlertGeneratorExtras.
Import Py PyFacts SupplierFinderFacts AlertGeneratorFacts AlertGenerator AlertBatch.

Lemma map_to_recommendation_sorted (l : list SupplierFinder.scored) :
  StronglySorted SupplierFinder.score_ge l ->
  StronglySorted recommendation_ge (map to_recommendation l).
Proof.
  induction 1 as [|x l Hs IH Hall]; cbn [map]; constructor; [exact IH|].
  apply List.Forall_forall. intros y Hy. apply in_map_iff in Hy.
  destruct Hy as (z & <- & Hz). rewrite List.Forall_forall in Hall.
  exact (Hall z Hz).
Qed.

Lemma find_alternates_sorted (id : string) (db : Db.t) (n : nat)
    (l : list SupplierFinder.scored) :
  SupplierFinder.find_alternates id db n = Ok l ->
  StronglySorted SupplierFinder.score_ge l /\ (length l <= n)%nat.
Proof.
  intros H. apply find_alternates_Ok in H. subst l.
  split; [apply firstn_sorted, sort_by_score_desc_sorted | apply firstn_le_length].
Qed.

(** The content of a created alert.  Its event id, score and band are
    those of the risk event; it is neither acknowledged nor notified; it
    names the first affected node.  It carries at most five
    recommendations, best score first.  A recommendation text is present
    exactly when an LLM client was given and there is a recommendation: it
    is the stripped answer of the client, or the fallback template when the
    call raised. *)
Theorem created_alert_content
    (risk_event : RiskEvent.t) (db : Db.t)
    (gemini_client : option RecommendationText.gemini_client)
    (company : Company.t) (company_id : string) (alert : Alert.t) :
  assemble_alert risk_event db gemini_client company company_id = Ok alert ->
  RiskEvent._id risk_event = Some (Alert.risk_event_id alert)
  /\ RiskEvent.risk_score risk_event = Some (Alert.risk_score alert)
  /\ RiskEvent.severity_band risk_event = Some (Alert.severity_band alert)
  /\ Alert.company_id alert = company_id
  /\ Alert.is_acknowledged alert = false
  /\ Alert.notification_sent alert = false
  /\ Alert.affected_supplier alert
     = match get (RiskEvent.affected_supply_chain_nodes risk_event) [] with
       | n :: _ => n
       | [] => "Unknown"
       end
  /\ (length (Alert.recommendations alert) <= 5)%nat
  /\ StronglySorted recommendation_ge (Alert.recommendations alert)
  /\ match gemini_client, Alert.recommendations alert with
     | Some client, _ :: _ =>
         exists company_name,
           Company.company_name company = Some company_name
           /\ Alert.recommendation_text alert
              = Some
                  match
                    RecommendationText.generate_text client
                      {| RecommendationText.company_name := company_name;
                         RecommendationText.title := Alert.title alert;
                         RecommendationText.risk_score := Alert.risk_score alert;
                         RecommendationText.severity_band_upper :=
                           upper (Alert.severity_band alert);
                         RecommendationText.affected_supplier := Alert.affected_supplier alert;
                         RecommendationText.affected_material := Alert.affected_material alert;
                         RecommendationText.top_alternates :=
                           firstn 3 (Alert.recommendations alert) |}
                  with
                  | Ok text => FromLLM (strip text)
                  | Raise _ =>
                      Template (Alert.severity_band alert)
                               (head (Alert.recommendations alert))
                  end
     | _, _ => Alert.recommendation_text alert = None
     end.
Proof.
  unfold assemble_alert.
  destruct (find _ (Db.suppliers db)) as [s|].
  - destruct (first _) as [material|]; cbn [bind]; [|discriminate].
    destruct (SupplierFinder.find_alternates _ db 5) as [raw|] eqn:Ef;
      cbn [bind]; [|discriminate].
    apply find_alternates_sorted in Ef. destruct Ef as [Hsorted Hlen].
    apply map_to_recommendation_sorted in Hsorted.
    rewrite <- (length_map to_recommendation) in Hlen.
    destruct (RiskEvent._id risk_event) as [rid|],
             (RiskEvent.risk_score risk_event) as [rs|],
             (RiskEvent.severity_band risk_event) as [band|];
      destruct gemini_client as [client|];
      destruct (map to_recommendation raw) as [|r rs'] eqn:Em;
      cbn [bind getitem fst snd]; try discriminate;
      unfold RecommendationText.generate_recommendation_text;
      try (destruct (Company.company_name company) as [cn|]);
      cbn [bind getitem fst snd
           RecommendationText.alert_title RecommendationText.alert_risk_score
           RecommendationText.alert_severity_band
           RecommendationText.alert_affected_supplier
           RecommendationText.alert_affected_material]; try discriminate;
      intros [= <-];
      cbn [Alert.risk_event_id Alert.risk_score Alert.severity_band Alert.company_id
           Alert.is_acknowledged Alert.notification_sent Alert.affected_supplier
           Alert.recommendations Alert.recommendation_text Alert.title
           Alert.affected_material];
      refine (conj eq_refl (conj eq_refl (conj eq_refl (conj eq_refl (conj eq_refl
               (conj eq_refl (conj eq_refl (conj Hlen (conj Hsorted _)))))))));
      try reflexivity.
    exists cn. split; [reflexivity|]. f_equal.
    destruct (RecommendationText.generate_text client _); reflexivity.
  - cbn [bind fst snd].
    destruct (RiskEvent._id risk_event) as [rid|],
             (RiskEvent.risk_score risk_event) as [rs|],
             (RiskEvent.severity_band risk_event) as [band|];
      cbn [bind getitem]; try discriminate.
    intros [= <-].
    cbn [Alert.risk_event_id Alert.risk_score Alert.severity_band Alert.company_id
         Alert.is_acknowledged Alert.notification_sent Alert.affected_supplier
         Alert.recommendations Alert.recommendation_text].
    refine (conj eq_refl (conj eq_refl (conj eq_refl (conj eq_refl (conj eq_refl
             (conj eq_refl (conj eq_refl (conj _ (conj _ _))))))))).
    + cbn. lia.
    + constructor.
    + now destruct gemini_client.
Qed.

Lemma created_alert_content_witness :
  exists alert,
    assemble_alert Scenarios.scored_event Scenarios.tie_db
      (Some AlertScenarios.failing_client) (Scenarios.company "LPG" 5 10) "c1" = Ok alert
    /\ Alert.risk_event_id alert = "re1"
    /\ (length (Alert.recommendations alert) <= 5)%nat
    /\ Alert.recommendation_text alert
       = Some (Template "critical" (head (Alert.recommendations alert))).
Proof.
  destruct (assemble_alert Scenarios.scored_event Scenarios.tie_db
              (Some AlertScenarios.failing_client) (Scenarios.company "LPG" 5 10) "c1")
    as [alert|] eqn:E; [|vm_compute in E; discriminate E].
  exists alert. split; [reflexivity|].
  pose proof (created_alert_content _ _ _ _ _ _ E) as (H1 & _ & H3 & _ & _ & _ & _ & H8 & _ & H10).
  split; [cbn in H1; congruence|]. split; [exact H8|].
  destruct (Alert.recommendations alert) as [|r rs] eqn:Er.
  - exfalso. vm_compute in E. injection E as <-. discriminate Er.
  - destruct H10 as (cn & _ & ->). cbn in H3. injection H3 as <-. reflexivity.
Defined.

Lemma create_alert_cases (settings : Settings.t) (risk_event : RiskEvent.t) (db : Db.t)
    (gemini_client : option RecommendationText.gemini_client) :
  create_alert settings risk_event db gemini_client = (None, db)
  \/ exists company alert,
       should_create_alert settings risk_event = true
       /\ assemble_alert risk_event db gemini_client company
            (get (RiskEvent.company_id risk_event) (Settings.company_id settings))
          = Ok alert
       /\ create_alert settings risk_event db gemini_client
          = (Some (Alert._id alert), insert_alert db alert).
Proof.
  unfold create_alert.
  destruct (should_create_alert settings risk_event); cbn [negb]; [|now left].
  destruct (find _ (Db.companies db)) as [company|]; cbn [catch]; [|now left].
  destruct (assemble_alert _ _ _ _ _) as [alert|] eqn:E; cbn [bind catch]; [|now left].
  right. exists company, alert. auto.
Qed.

Lemma assemble_alert_fields (risk_event : RiskEvent.t) (db : Db.t)
    (gemini_client : option RecommendationText.gemini_client)
    (company : Company.t) (company_id : string) (alert : Alert.t) :
  assemble_alert risk_event db gemini_client company company_id = Ok alert ->
  Alert._id alert = Db.oid (Db.next_oid db)
  /\ RiskEvent._id risk_event = Some (Alert.risk_event_id alert)
  /\ RiskEvent.risk_score risk_event = Some (Alert.risk_score alert).
Proof.
  unfold assemble_alert.
  destruct (match find _ (Db.suppliers db) with Some _ => _ | None => _ end);
    cbn [bind]; [|discriminate].
  destruct (match find _ (Db.suppliers db) with Some _ => _ | None => _ end);
    cbn [bind]; [|discriminate].
  destruct (RiskEvent._id risk_event), (RiskEvent.severity_band risk_event),
    (RiskEvent.risk_score risk_event); cbn [bind getitem]; try discriminate.
  intros [= <-]. cbn. auto.
Qed.

(** The state of [batch_create_alerts] after a prefix of the events:
    [new] are the alerts written so far. *)
Lemma alert_batch_fold (settings : Settings.t)
    (gemini_client : option RecommendationText.gemini_client)
    (events : list RiskEvent.t) (db0 : Db.t) (ids : list string) (db : Db.t)
    (new : list Alert.t) (seen : list RiskEvent.t) :
  Db.companies db = Db.companies db0 -> Db.suppliers db = Db.suppliers db0 ->
  Db.articles db = Db.articles db0 -> Db.risk_events db = Db.risk_events db0 ->
  Db.alerts db = Db.alerts db0 ++ new ->
  (length new <= length seen)%nat ->
  List.filter (fun i => negb (String.eqb i "")) (map Alert._id new) = ids ->
  Forall (fun a => exists e, In e (seen ++ events)
                     /\ should_create_alert settings e = true
                     /\ RiskEvent._id e = Some (Alert.risk_event_id a)
                     /\ RiskEvent.risk_score e = Some (Alert.risk_score a)) new ->
  let r := fold_left
    (fun (acc : list string * Db.t) risk_event =>
       let created := create_alert settings risk_event (snd acc) gemini_client in
       match fst created with
       | Some alert_id =>
           if String.eqb alert_id "" then (fst acc, snd created)
           else (fst acc ++ [alert_id], snd created)
       | None => (fst acc, snd created)
       end)
    events (ids, db) in
  Db.companies (snd r) = Db.companies db0 /\ Db.suppliers (snd r) = Db.suppliers db0
  /\ Db.articles (snd r) = Db.articles db0 /\ Db.risk_events (snd r) = Db.risk_events db0
  /\ exists new',
       Db.alerts (snd r) = Db.alerts db0 ++ new'
       /\ (length new' <= length (seen ++ events))%nat
       /\ fst r = List.filter (fun i => negb (String.eqb i "")) (map Alert._id new')
       /\ Forall (fun a => exists e, In e (seen ++ events)
                     /\ should_create_alert settings e = true
                     /\ RiskEvent._id e = Some (Alert.risk_event_id a)
                     /\ RiskEvent.risk_score e = Some (Alert.risk_score a)) new'.
Proof.
  revert ids db new seen.
  induction events as [|e events IH]; intros ids db new seen Hc Hs Ha Hr Hal Hlen Hids Hall;
    cbn [fold_left]; cbv zeta.
  - cbn [fst snd]. refine (conj Hc (conj Hs (conj Ha (conj Hr _)))).
    exists new. rewrite app_nil_r in *. auto.
  - cbn [fst snd].
    destruct (create_alert_cases settings e db gemini_client)
      as [E | (company & alert & Hgate & Hasm & E)]; rewrite E; cbn [fst snd].
    + specialize (IH ids db new (seen ++ [e])).
      rewrite <- app_assoc in IH. cbn [app] in IH. apply IH; auto.
      rewrite length_app. cbn. lia.
    + pose proof (assemble_alert_fields _ _ _ _ _ _ Hasm) as (_ & Hid & Hsc).
      assert (Hnew : Forall (fun a => exists e0, In e0 (seen ++ e :: events)
                     /\ should_create_alert settings e0 = true
                     /\ RiskEvent._id e0 = Some (Alert.risk_event_id a)
                     /\ RiskEvent.risk_score e0 = Some (Alert.risk_score a))
                (new ++ [alert])).
      { apply Forall_app. split; [exact Hall|]. constructor; [|constructor].
        exists e. split; [apply in_or_app; right; now left|]. auto. }
      destruct (String.eqb (Alert._id alert) "") eqn:Ee.
      * specialize (IH ids (insert_alert db alert) (new ++ [alert]) (seen ++ [e])).
        rewrite <- app_assoc in IH. cbn [app] in IH. apply IH; auto.
        -- cbn. rewrite Hal. now rewrite app_assoc.
        -- rewrite !length_app. cbn. lia.
        -- rewrite map_app, List.filter_app. cbn [map List.filter]. rewrite Ee.
           cbn [negb]. rewrite app_nil_r. exact Hids.
      * specialize (IH (ids ++ [Alert._id alert]) (insert_alert db alert)
                      (new ++ [alert]) (seen ++ [e])).
        rewrite <- app_assoc in IH. cbn [app] in IH. apply IH; auto.
        -- cbn. rewrite Hal. now rewrite app_assoc.
        -- rewrite !length_app. cbn. lia.
        -- rewrite map_app, List.filter_app. cbn [map List.filter]. rewrite Ee.
           cbn [negb]. now rewrite Hids.
Qed.

(** [batch_create_alerts] only appends alerts: companies, suppliers,
    articles and risk events are left as they were.  It writes at most one
    alert per event; each written alert belongs to an event of the batch
    that passes the alert gate and carries its id and score; the returned
    ids are the non-empty ids of the written alerts, in order. *)
Theorem batch_create_alerts_spec (settings : Settings.t) (risk_events : list RiskEvent.t)
    (db : Db.t) (gemini_client : option RecommendationText.gemini_client) :
  let r := batch_create_alerts settings risk_events db gemini_client in
  Db.companies (snd r) = Db.companies db /\ Db.suppliers (snd r) = Db.suppliers db
  /\ Db.articles (snd r) = Db.articles db /\ Db.risk_events (snd r) = Db.risk_events db
  /\ exists new,
       Db.alerts (snd r) = Db.alerts db ++ new
       /\ (length new <= length risk_events)%nat
       /\ fst r = List.filter (fun i => negb (String.eqb i "")) (map Alert._id new)
       /\ Forall (fun a => exists e, In e risk_events
                     /\ should_create_alert settings e = true
                     /\ RiskEvent._id e = Some (Alert.risk_event_id a)
                     /\ RiskEvent.risk_score e = Some (Alert.risk_score a)
                     /\ Settings.alert_threshold_score settings <= Alert.risk_score a) new.
Proof.
  cbv zeta. unfold batch_create_alerts.
  pose proof (alert_batch_fold settings gemini_client risk_events db [] db [] []) as H.
  cbv zeta in H. cbn [app length] in H.
  destruct H as (Hc & Hs & Ha & Hr & new & Hal & Hlen & Hids & Hall);
    auto using app_nil_r; try (now rewrite app_nil_r).
  refine (conj Hc (conj Hs (conj Ha (conj Hr _)))).
  exists new. refine (conj Hal (conj Hlen (conj Hids _))).
  revert Hall. apply List.Forall_impl.
  intros a (e & He & Hg & Hid & Hsc). exists e.
  refine (conj He (conj Hg (conj Hid (conj Hsc _)))).
  apply should_create_alert_spec in Hg. destruct Hg as [Hg _].
  rewrite Hsc in Hg. exact Hg.
Qed.

End AlertGeneratorExtras.

Module WorkersExtras.
Import Py Workers WorkersFacts.

Lemma opt_eqb_refl (a : option string) : opt_eqb a a = true.
Proof. destruct a; cbn; [apply String.eqb_refl | reflexivity]. Qed.

Lemma update_one_idem {A : Type} (matches : A -> bool) (set : A -> A) (l : list A) :
  (forall x, matches (set x) = matches x) -> (forall x, set (set x) = set x) ->
  update_one matches set (update_one matches set l) = update_one matches set l.
Proof.
  intros Hm Hs. induction l as [|x l IH]; [reflexivity|]. cbn [update_one].
  destruct (matches x) eqn:E; cbn [update_one].
  - now rewrite Hm, E, Hs.
  - now rewrite E, IH.
Qed.

Lemma insert_article_duplicate (d : Db.t) (doc : Article.t) (id : string) (d' : Db.t) :
  insert_article d doc = Ok (id, d') ->
  existsb (fun a => opt_eqb (Article.event_id a) (Article.event_id doc)) (Db.articles d')
  = true.
Proof.
  unfold insert_article. destruct (existsb _ (Db.articles d)); [discriminate|].
  intros [= <- <-]. cbn [with_articles Db.articles]. rewrite existsb_app.
  cbn [existsb Article.event_id]. rewrite opt_eqb_refl. now rewrite orb_true_r.
Qed.

(** Handling the same stream record twice is handling it once: with the
    same answers of the relevance filter and of the LLM, a second run of
    the handler on the world the first one left changes nothing.  On the
    risk path it is the unique index on [event_id] that stops the second
    run, before a second risk event is written. *)
Theorem handler_idempotent
    (company_profile : Company.t) (relevance : bool * Q) (extracted : option risk_data)
    (article_data : Article.t) (w : world) :
  handler company_profile relevance extracted article_data
    (handler company_profile relevance extracted article_data w)
  = handler company_profile relevance extracted article_data w.
Proof.
  unfold handler. destruct relevance as [relevant score]. cbn [fst snd].
  destruct relevant; cbn [negb]; [|reflexivity].
  destruct extracted as [rd|]; [|reflexivity].
  destruct (is_empty rd); [reflexivity|].
  destruct (get (is_risk rd) false); cbn [negb].
  - destruct (insert_article (db w) _) as [[article_id db1]|] eqn:Ei; [|now rewrite Ei].
    apply insert_article_duplicate in Ei.
    destruct (getitem (risk_type rd)) as [rt|]; cbn [bind].
    + destruct (getitem (severity rd)) as [sv|]; cbn [bind].
      * destruct (getitem (time_horizon rd)) as [th|]; cbn [bind].
        -- unfold insert_article at 1.
           cbn [db with_risk_events Db.articles]. now rewrite Ei.
        -- unfold insert_article at 1. cbn [db]. now rewrite Ei.
      * unfold insert_article at 1. cbn [db]. now rewrite Ei.
    + unfold insert_article at 1. cbn [db]. now rewrite Ei.
  - cbn [db risk_entities with_articles Db.articles Db.companies Db.suppliers
         Db.risk_events Db.alerts Db.next_oid].
    rewrite update_one_idem; [reflexivity| |]; intros []; reflexivity.
Qed.

(** What the handler can write.  Companies, suppliers and alerts are never
    touched and no article is removed.  Risk events and stream records are
    written together or not at all: either both are unchanged, or exactly
    one risk event and one record are appended, the record carries the id of
    the event, the event has score 0 and band low and belongs to the
    company, and the article it points to is stored as processed. *)
Theorem handler_writes
    (company_profile : Company.t) (relevance : bool * Q) (extracted : option risk_data)
    (article_data : Article.t) (w : world) :
  let w' := handler company_profile relevance extracted article_data w in
  Db.companies (db w') = Db.companies (db w)
  /\ Db.suppliers (db w') = Db.suppliers (db w)
  /\ Db.alerts (db w') = Db.alerts (db w)
  /\ (length (Db.articles (db w)) <= length (Db.articles (db w'))
      <= S (length (Db.articles (db w))))%nat
  /\ ((Db.risk_events (db w') = Db.risk_events (db w)
       /\ risk_entities w' = risk_entities w)
      \/ exists ev rec a,
           Db.risk_events (db w') = Db.risk_events (db w) ++ [ev]
           /\ risk_entities w' = risk_entities w ++ [rec]
           /\ RiskEvent._id ev = Some (entity_risk_event_id rec)
           /\ RiskEvent.affected_supply_chain_nodes ev = Some (entity_affected_nodes rec)
           /\ RiskEvent.company_id ev = Some (Company._id company_profile)
           /\ RiskEvent.risk_score ev = Some 0.0
           /\ RiskEvent.severity_band ev = Some "low"
           /\ Db.articles (db w') = Db.articles (db w) ++ [a]
           /\ Article._id a = RiskEvent.article_id ev
           /\ Article.event_id a = Article.event_id article_data
           /\ Article.processed a = Some true
           /\ Article.risk_extracted a = Some true
           /\ fst relevance = true).
Proof.
  cbv zeta. unfold handler. destruct relevance as [relevant score]. cbn [fst snd].
  destruct relevant; cbn [negb]; [|repeat split; try lia; now left].
  destruct extracted as [rd|]; [|repeat split; try lia; now left].
  destruct (is_empty rd); [repeat split; try lia; now left|].
  destruct (get (is_risk rd) false); cbn [negb].
  - unfold insert_article. destruct (existsb _ (Db.articles (db w)));
      [repeat split; try lia; now left|].
    destruct (getitem (risk_type rd)) as [rt|]; cbn [bind];
      [destruct (getitem (severity rd)) as [sv|]; cbn [bind];
       [destruct (getitem (time_horizon rd)) as [th|]; cbn [bind]|]|];
      cbn [db risk_entities with_articles with_risk_events Db.articles Db.companies
           Db.suppliers Db.risk_events Db.alerts Db.next_oid];
      rewrite ?length_app; cbn [length];
      (split; [reflexivity|]); (split; [reflexivity|]); (split; [reflexivity|]);
      (split; [lia|]); try (left; split; reflexivity).
    right. do 3 eexists.
    repeat (split; [reflexivity|]). reflexivity.
  - cbn [db risk_entities with_articles Db.articles Db.companies
         Db.suppliers Db.risk_events Db.alerts Db.next_oid].
    rewrite update_one_length.
    repeat split; try lia. now left.
Qed.

(** The risk path on a new article: the article is stored with its
    relevance score, as processed and with [risk_extracted] set.  When the
    answer of the LLM has a risk type, a severity and a time horizon, one
    risk event and one stream record follow; when one of the three is
    missing, the handler stops after the article, which stays marked as
    extracted although no risk event exists. *)
Theorem handler_risk_path
    (company_profile : Company.t) (relevance_score : Q) (rd : risk_data)
    (article_data : Article.t) (w : world) :
  is_risk rd = Some true ->
  existsb (fun a => opt_eqb (Article.event_id a) (Article.event_id article_data))
          (Db.articles (db w)) = false ->
  let w' := handler company_profile (true, relevance_score) (Some rd) article_data w in
  (exists a,
      Db.articles (db w') = Db.articles (db w) ++ [a]
      /\ Article._id a = Some (get (Article._id article_data) (Db.oid (Db.next_oid (db w))))
      /\ Article.raw_relevance_score a = Some relevance_score
      /\ Article.processed a = Some true
      /\ Article.risk_extracted a = Some true)
  /\ match risk_type rd, severity rd, time_horizon rd with
     | Some rt, Some sv, Some th =>
         exists ev,
           Db.risk_events (db w') = Db.risk_events (db w) ++ [ev]
           /\ RiskEvent.risk_type ev = Some rt
           /\ RiskEvent.severity ev = Some sv
           /\ RiskEvent.time_horizon ev = Some th
           /\ RiskEvent.is_confirmed ev = Some (get (is_confirmed rd) (JStr "uncertain"))
           /\ risk_entities w'
              = risk_entities w ++
                  [{| entity_risk_event_id := Db.oid (N.succ (Db.next_oid (db w)));
                      entity_risk_type := rt;
                      entity_severity := sv;
                      entity_affected_nodes := get (affected_supply_chain_nodes rd) [] |}]
     | _, _, _ =>
         Db.risk_events (db w') = Db.risk_events (db w)
         /\ risk_entities w' = risk_entities w
     end.
Proof.
  intros Hrisk Hnew. cbv zeta. unfold handler. cbn [fst snd negb].
  assert (He : is_empty rd = false) by (unfold is_empty; now rewrite Hrisk).
  rewrite He, Hrisk. cbn [get negb]. unfold insert_article.
  cbn [Article.event_id]. rewrite Hnew.
  destruct (risk_type rd) as [rt|], (severity rd) as [sv|], (time_horizon rd) as [th|];
    cbn [getitem bind db risk_entities with_articles with_risk_events Db.articles
         Db.risk_events Db.next_oid];
    (split; [eexists; split; [reflexivity|]; cbn; auto|]); try (split; reflexivity).
  eexists. split; [reflexivity|]. cbn. auto 10.
Qed.

Lemma handler_risk_path_witness :
  exists a ev,
    Db.articles (db (handler (Scenarios.company "LPG" 5 10) (true, 0.5)
                       (Some (Scenarios.llm_answer true)) Scenarios.news
                       Scenarios.empty_world)) = [a]
    /\ Article.risk_extracted a = Some true
    /\ Db.risk_events (db (handler (Scenarios.company "LPG" 5 10) (true, 0.5)
                       (Some (Scenarios.llm_answer true)) Scenarios.news
                       Scenarios.empty_world)) = [ev]
    /\ RiskEvent.severity ev = Some "low".
Proof.
  destruct (handler_risk_path (Scenarios.company "LPG" 5 10) 0.5
              (Scenarios.llm_answer true) Scenarios.news Scenarios.empty_world
              eq_refl eq_refl) as [(a & Ha & _ & _ & _ & Hx) H].
  cbn [Scenarios.llm_answer risk_type severity time_horizon] in H.
  destruct H as (ev & Hev & _ & Hsv & _).
  exists a, ev. cbn [Scenarios.empty_world db Scenarios.store Db.articles Db.risk_events app] in Ha, Hev.
  auto.
Defined.

End WorkersExtras.

Module IngestionFacts.
Import Py Normalizer Ingestion DedupIndex DedupIndexFacts.

Lemma validate_article_headline (a : normalized) :
  validate_article a = true ->
  exists h, headline a = JString h /\ (10 <= String.length h)%nat
            /\ event_id a <> "" /\ truthy (article_url a) = true.
Proof.
  unfold validate_article.
  destruct (String.eqb (event_id a) "") eqn:Ee; [discriminate|].
  destruct (String.eqb (source a) ""); [discriminate|].
  destruct (truthy (headline a)); cbn [negb]; [|discriminate].
  destruct (truthy (article_url a)); cbn [negb]; [|discriminate].
  destruct (headline a) as [|h]; [discriminate|]. intros H.
  exists h. split; [reflexivity|]. apply negb_true_iff, Nat.ltb_ge in H.
  apply String.eqb_neq in Ee. auto.
Qed.


Lemma as_article_uuid (u u' : string) (x : raw_article) :
  as_article (normalize_newsapi_article u x) = as_article (normalize_newsapi_article u' x).
Proof. reflexivity. Qed.

(** Which raw articles pass: [validate_article] accepts a normalized
    NewsAPI article exactly when the raw title is a string of 10 characters
    or more and the raw url is a non-empty string (and the UUID drawn is not
    empty).  Content, description and date play no part; a null or absent
    title makes the article invalid. *)
Theorem validate_normalized (u : string) (x : raw_article) :
  validate_article (normalize_newsapi_article u x) = true
  <-> u <> ""
      /\ (exists h, title x = Some (JString h) /\ (10 <= String.length h)%nat)
      /\ (exists l, url x = Some (JString l) /\ l <> "").
Proof.
  unfold validate_article, normalize_newsapi_article.
  cbn [event_id source headline article_url String.eqb]. split.
  - destruct (String.eqb u "") eqn:Eu; [discriminate|].
    apply String.eqb_neq in Eu.
    destruct (title x) as [[|h]|]; cbn [get truthy negb]; try discriminate.
    + destruct (String.eqb h "") eqn:Eh; cbn [negb]; [discriminate|].
      destruct (url x) as [[|l]|]; cbn [get truthy negb String.eqb]; try discriminate.
      destruct (String.eqb l "") eqn:El; cbn [negb]; [discriminate|].
      intros H. apply negb_true_iff, Nat.ltb_ge in H. apply String.eqb_neq in El.
      eauto 10.
  - intros (Hu & (h & -> & Hh) & (l & -> & Hl)).
    apply String.eqb_neq in Hu, Hl. rewrite Hu. cbn [get truthy]. rewrite Hl.
    assert (Eh : String.eqb h "" = false) by (destruct h; [cbn in Hh; lia | reflexivity]).
    rewrite Eh. cbn [negb]. apply negb_true_iff, Nat.ltb_ge. exact Hh.
Qed.

(** The three ways through the body of the loop. *)
Lemma process_article_cases (x : arrival) (st : fetch_state) :
  let n := normalize_newsapi_article (uuid x) (raw x) in
  (validate_article n = false /\ process_article x st = count_invalid st)
  \/ exists a,
       validate_article n = true /\ as_article n = Some a
       /\ key_of (raw x) = Some (dedup_key a)
       /\ ((Redis.live (at_time x) (redis st) (dedup_key a) = true
            /\ process_article x st = count_duplicate st (redis st))
           \/ (Redis.live (at_time x) (redis st) (dedup_key a) = false
               /\ process_article x st
                  = count_new st
                      {| Redis.entries :=
                           <[dedup_key a := Some (at_time x + default_ttl_seconds)%Z]>
                             (Redis.entries (redis st)) |} n)).
Proof.
  cbv zeta. unfold process_article.
  destruct (validate_article _) eqn:Ev; cbn [negb]; [|now left].
  right. destruct (validate_article_headline _ Ev) as (h & Hh & _).
  assert (Ha : exists a, as_article (normalize_newsapi_article (uuid x) (raw x)) = Some a).
  { unfold as_article. rewrite Hh. eauto. }
  destruct Ha as [a Ha]. exists a. rewrite Ha.
  split; [reflexivity|]. split; [reflexivity|].
  split; [unfold key_of; now rewrite (as_article_uuid "-" (uuid x)), Ha|].
  rewrite is_duplicate_live by reflexivity.
  destruct (Redis.live _ _ _); [left | right]; split; reflexivity.
Qed.

Lemma fetch_fold (xs seen : list arrival) (st : fetch_state) (pushed : list normalized)
    (stream : list normalized) :
  normalized_events st = stream ++ pushed ->
  length pushed = total_new (tally st) ->
  (total_new (tally st) + total_duplicates (tally st) + total_invalid (tally st)
   = length seen)%nat ->
  Forall (fun a => validate_article a = true
                   /\ exists x, In x (seen ++ xs)
                        /\ a = normalize_newsapi_article (uuid x) (raw x)) pushed ->
  let st' := fold_left (fun st x => process_article x st) xs st in
  total_fetched (tally st') = total_fetched (tally st)
  /\ (total_new (tally st') + total_duplicates (tally st') + total_invalid (tally st')
      = length (seen ++ xs))%nat
  /\ exists pushed',
       normalized_events st' = stream ++ pushed'
       /\ length pushed' = total_new (tally st')
       /\ Forall (fun a => validate_article a = true
                   /\ exists x, In x (seen ++ xs)
                        /\ a = normalize_newsapi_article (uuid x) (raw x)) pushed'.
Proof.
  revert seen st pushed. induction xs as [|x xs IH]; intros seen st pushed He Hl Hc Hall;
    cbn [fold_left]; cbv zeta.
  - rewrite app_nil_r in *. split; [reflexivity|]. split; [exact Hc|]. eauto.
  - specialize (IH (seen ++ [x]) (process_article x st)).
    rewrite <- app_assoc in IH. cbn [app] in IH.
    destruct (process_article_cases x st)
      as [[Hv E] | (a & Hv & Ha & _ & [[_ E] | [_ E]])]; cbv zeta in IH;
      rewrite E in IH |- *.
    + destruct (IH pushed) as (H1 & H2 & H3); auto;
        cbn; rewrite ?length_app; cbn; lia.
    + destruct (IH pushed) as (H1 & H2 & H3); auto;
        cbn; rewrite ?length_app; cbn; lia.
    + destruct (IH (pushed ++ [normalize_newsapi_article (uuid x) (raw x)]))
        as (H1 & H2 & H3); auto.
      * cbn. rewrite He. now rewrite app_assoc.
      * cbn. rewrite length_app. cbn. lia.
      * cbn. rewrite length_app. cbn. lia.
      * apply Forall_app. split; [exact Hall|]. constructor; [|constructor].
        split; [exact Hv|]. exists x. split; [|reflexivity].
        apply in_or_app. right. now left.
Qed.

(** The counts of a fetch add up: every fetched article is counted as new,
    as a duplicate or as invalid.  Exactly the new ones are appended to the
    [normalized_events] stream, in order; each of them is valid and not yet
    processed. *)
Theorem fetch_counts (articles : list arrival) (r : Redis.t) (stream : list normalized) :
  let st := fetch_all_sources articles r stream in
  total_fetched (tally st) = length articles
  /\ (total_fetched (tally st)
      = total_new (tally st) + total_duplicates (tally st) + total_invalid (tally st))%nat
  /\ exists pushed,
       normalized_events st = stream ++ pushed
       /\ length pushed = total_new (tally st)
       /\ Forall (fun a => validate_article a = true
                           /\ processed a = false /\ risk_extracted a = false
                           /\ exists x, In x articles
                                /\ a = normalize_newsapi_article (uuid x) (raw x)) pushed.
Proof.
  cbv zeta. unfold fetch_all_sources.
  pose proof (fetch_fold articles []
                {| tally := {| total_fetched := length articles; total_new := 0;
                               total_duplicates := 0; total_invalid := 0 |};
                   redis := r; normalized_events := stream |} [] stream) as H.
  cbv zeta in H. cbn [app] in H.
  destruct H as (H1 & H2 & pushed & H3 & H4 & H5); auto using app_nil_r;
    try (cbn; now rewrite app_nil_r).
  split; [exact H1|]. split; [rewrite H1, H2; reflexivity|].
  exists pushed. split; [exact H3|]. split; [exact H4|].
  revert H5. apply List.Forall_impl. intros a (Hv & x & Hx & ->). cbn. eauto 10.
Qed.

Section Refetch.
Variable lo : Z.
Variable K : string -> Prop.





End Refetch.



End IngestionFacts.

Module SupplyGraphFacts.
Import Py GraphPropagation DiGraphInvariant GraphPropagationFacts SupplyGraph.

Lemma closed_well_formed (G : DiGraph) : closed G -> well_formed G = true.
Proof.
  intros H. unfold well_formed. apply forallb_forall. intros [k [a succs]] Hin.
  cbn [snd]. apply forallb_forall. intros [m e] Hm. cbn [fst]. eapply H; eassumption.
Qed.

Lemma assoc_add_node (G : DiGraph) (n k : string) (update : node_attrs -> node_attrs) :
  assoc k (add_node G n update)
  = match assoc k G with
    | Some (a, succs) => Some (if String.eqb k n then update a else a, succs)
    | None => if String.eqb k n then Some (update no_attrs, []) else None
    end.
Proof.
  induction G as [|[k' [a succs]] G IH]; cbn [add_node assoc].
  - destruct (String.eqb k n); reflexivity.
  - destruct (String.eqb n k') eqn:En; cbn [assoc].
    + apply String.eqb_eq in En. subst k'.
      destruct (String.eqb k n); [reflexivity|].
      now destruct (assoc k G) as [[a0 s0]|].
    + destruct (String.eqb k k') eqn:Ek; [|exact IH].
      apply String.eqb_eq in Ek. subst k'. rewrite String.eqb_sym, En. reflexivity.
Qed.

Lemma assoc_set_successor (G : DiGraph) (u v k : string) (e : edge_attrs) :
  assoc k (set_successor G u v e)
  = match assoc k G with
    | Some (a, succs) => Some (a, if String.eqb k u then set_edge succs v e else succs)
    | None => None
    end.
Proof.
  induction G as [|[k' [a succs]] G IH]; cbn [set_successor assoc]; [reflexivity|].
  destruct (String.eqb u k') eqn:Eu; cbn [assoc].
  - apply String.eqb_eq in Eu. subst k'. destruct (String.eqb k u); [reflexivity|].
    now destruct (assoc k G) as [[a0 s0]|].
  - destruct (String.eqb k k') eqn:Ek; [|exact IH].
    apply String.eqb_eq in Ek. subst k'. rewrite String.eqb_sym, Eu. reflexivity.
Qed.

Lemma is_node_add_node (G : DiGraph) (n k : string) (update : node_attrs -> node_attrs) :
  is_node (add_node G n update) k = is_node G k || String.eqb k n.
Proof.
  unfold is_node. rewrite assoc_add_node.
  destruct (assoc k G) as [[a succs]|]; [reflexivity|].
  destruct (String.eqb k n); reflexivity.
Qed.

Lemma is_node_set_successor (G : DiGraph) (u v k : string) (e : edge_attrs) :
  is_node (set_successor G u v e) k = is_node G k.
Proof.
  unfold is_node. rewrite assoc_set_successor. now destruct (assoc k G) as [[a succs]|].
Qed.

Lemma is_node_add_edge (G : DiGraph) (u v k : string) (w : Q) :
  is_node (add_edge G u v w) k = is_node G k || String.eqb k u || String.eqb k v.
Proof.
  unfold add_edge. now rewrite is_node_set_successor, !is_node_add_node.
Qed.

Lemma In_add_node (G : DiGraph) (n k : string) (update : node_attrs -> node_attrs)
    (a : node_attrs) (succs : list (string * edge_attrs)) :
  In (k, (a, succs)) (add_node G n update) ->
  succs = [] \/ exists a', In (k, (a', succs)) G.
Proof.
  induction G as [|[k' [a' succs']] G IH]; cbn [add_node].
  - intros [[= _ _ <-] | []]. now left.
  - destruct (String.eqb n k'); cbn [In].
    + intros [[= <- _ <-] | H]; right; eauto.
    + intros [[= <- <- <-] | H]; [right; eauto|].
      destruct (IH H) as [-> | [a0 H0]]; [now left | right; eauto].
Qed.

Lemma In_set_edge (succs : list (string * edge_attrs)) (v m : string) (e e' : edge_attrs) :
  In (m, e') (set_edge succs v e) -> m = v \/ exists e0, In (m, e0) succs.
Proof.
  induction succs as [|[k e0] succs IH]; cbn [set_edge].
  - intros [[= <- _] | []]. now left.
  - destruct (String.eqb v k) eqn:Ev; cbn [In].
    + apply String.eqb_eq in Ev. subst k. intros [[= <- _] | H]; [now left | right; eauto].
    + intros [[= <- <-] | H]; [right; eauto|].
      destruct (IH H) as [-> | [e1 H1]]; [now left | right; eauto].
Qed.

Lemma set_edge_In (succs : list (string * edge_attrs)) (v : string) (e : edge_attrs) :
  In (v, e) (set_edge succs v e).
Proof.
  induction succs as [|[k e0] succs IH]; cbn [set_edge]; [now left|].
  destruct (String.eqb v k) eqn:Ev; cbn [In].
  - apply String.eqb_eq in Ev. subst k. now left.
  - now right.
Qed.

Lemma set_edge_keeps (succs : list (string * edge_attrs)) (v m : string)
    (e e0 : edge_attrs) :
  In (m, e0) succs -> exists e1, In (m, e1) (set_edge succs v e).
Proof.
  induction succs as [|[k e'] succs IH]; cbn [set_edge]; [intros []|].
  destruct (String.eqb v k) eqn:Ev; cbn [In].
  - intros [[= -> ->] | H]; eauto.
  - intros [[= -> ->] | H]; [eauto|]. destruct (IH H) as [e1 H1]. eauto.
Qed.

Lemma In_set_successor (G : DiGraph) (u v k : string) (e : edge_attrs)
    (a : node_attrs) (succs : list (string * edge_attrs)) :
  In (k, (a, succs)) (set_successor G u v e) ->
  In (k, (a, succs)) G
  \/ exists succs0, In (k, (a, succs0)) G /\ succs = set_edge succs0 v e.
Proof.
  induction G as [|[k' [a' succs']] G IH]; cbn [set_successor]; [intros []|].
  destruct (String.eqb u k'); cbn [In].
  - intros [[= <- <- <-] | H]; [right; eauto | left; now right].
  - intros [[= <- <- <-] | H]; [left; now left|].
    destruct (IH H) as [H0 | (s0 & H0 & ->)]; [left; now right | right; eauto].
Qed.

Lemma closed_add_node (G : DiGraph) (n : string) (update : node_attrs -> node_attrs) :
  closed G -> closed (add_node G n update).
Proof.
  intros H k a succs m e Hin Hm. rewrite is_node_add_node.
  destruct (In_add_node _ _ _ _ _ _ Hin) as [-> | [a' Hin']]; [contradiction|].
  rewrite (H _ _ _ _ _ Hin' Hm). reflexivity.
Qed.

Lemma closed_add_edge (G : DiGraph) (u v : string) (w : Q) :
  closed G -> closed (add_edge G u v w).
Proof.
  intros H. unfold add_edge.
  assert (H2 : closed (add_node (add_node G u (fun a => a)) v (fun a => a)))
    by now apply closed_add_node, closed_add_node.
  set (G2 := add_node (add_node G u (fun a => a)) v (fun a => a)) in *.
  intros k a succs m e Hin Hm. rewrite is_node_set_successor.
  destruct (In_set_successor _ _ _ _ _ _ _ Hin) as [Hin' | (s0 & Hin' & ->)].
  - exact (H2 _ _ _ _ _ Hin' Hm).
  - destruct (In_set_edge _ _ _ _ _ Hm) as [-> | [e0 Hm']].
    + subst G2. rewrite is_node_add_node, String.eqb_refl. apply orb_true_r.
    + exact (H2 _ _ _ _ _ Hin' Hm').
Qed.

(** Adding a node or an edge never removes a node or an edge. *)
Lemma edge_add_node (G : DiGraph) (n u v : string) (update : node_attrs -> node_attrs) :
  edge G u v -> edge (add_node G n update) u v.
Proof.
  intros (e & a & succs & Ha & Hin). exists e. unfold has_edge.
  rewrite assoc_add_node, Ha. eauto.
Qed.

Lemma edge_set_successor (G : DiGraph) (x y u v : string) (e : edge_attrs) :
  edge G u v -> edge (set_successor G x y e) u v.
Proof.
  intros (e0 & a & succs & Ha & Hin). unfold edge, has_edge.
  setoid_rewrite assoc_set_successor. rewrite Ha.
  destruct (String.eqb u x).
  - destruct (set_edge_keeps succs y v e e0 Hin) as [e1 H1]. eauto.
  - eauto.
Qed.

Lemma edge_add_edge_keeps (G : DiGraph) (x y u v : string) (w : Q) :
  edge G u v -> edge (add_edge G x y w) u v.
Proof.
  intros H. unfold add_edge. now apply edge_set_successor, edge_add_node, edge_add_node.
Qed.

Lemma edge_add_edge (G : DiGraph) (u v : string) (w : Q) : edge (add_edge G u v w) u v.
Proof.
  unfold edge, has_edge, add_edge. setoid_rewrite assoc_set_successor.
  assert (Hn : is_node (add_node (add_node G u (fun a => a)) v (fun a => a)) u = true).
  { rewrite !is_node_add_node, String.eqb_refl. now rewrite orb_true_r. }
  unfold is_node in Hn.
  destruct (assoc u _) as [[a succs]|]; [|discriminate].
  rewrite String.eqb_refl. eexists. eexists. eexists. split; [reflexivity|].
  apply set_edge_In.
Qed.

(** What a loop keeps, when each round keeps it. *)
Lemma fold_result_ind {A B : Type} (P : A -> Prop) (f : A -> B -> result A)
    (l : list B) (a a' : A) :
  (forall x b y, In b l -> P x -> f x b = Ok y -> P y) ->
  P a -> fold_result f l a = Ok a' -> P a'.
Proof.
  revert a. induction l as [|b l IH]; intros a Hf Ha; cbn [fold_result].
  - now intros [= <-].
  - destruct (f a b) as [y|] eqn:E; cbn [bind]; [|discriminate].
    apply IH; [intros x b' y' Hb; apply Hf; now right|].
    eapply Hf; [now left | exact Ha | exact E].
Qed.

Lemma extends_refl (G : DiGraph) : extends G G.
Proof. split; auto. Qed.

Lemma extends_trans (G1 G2 G3 : DiGraph) : extends G1 G2 -> extends G2 G3 -> extends G1 G3.
Proof. intros [H1 H2] [H3 H4]. split; auto. Qed.

Lemma add_node_extends (G : DiGraph) (n : string) (update : node_attrs -> node_attrs) :
  extends G (add_node G n update).
Proof.
  split.
  - intros k H. rewrite is_node_add_node, H. reflexivity.
  - intros u v. apply edge_add_node.
Qed.

Lemma add_edge_extends (G : DiGraph) (u v : string) (w : Q) : extends G (add_edge G u v w).
Proof.
  split.
  - intros k H. rewrite is_node_add_edge, H. reflexivity.
  - intros x y. apply edge_add_edge_keeps.
Qed.

Lemma fold_result_spec {B : Type} (f : DiGraph -> B -> result DiGraph)
    (Q : B -> DiGraph -> Prop) (l : list B) (a a' : DiGraph) :
  (forall x b y, In b l -> closed x -> f x b = Ok y ->
                 closed y /\ extends x y /\ Q b y) ->
  (forall b y z, Q b y -> extends y z -> Q b z) ->
  closed a -> fold_result f l a = Ok a' ->
  closed a' /\ extends a a' /\ forall b, In b l -> Q b a'.
Proof.
  intros Hf Hmono. revert a. induction l as [|b l IH]; intros a Ha; cbn [fold_result].
  - intros [= <-]. split; [exact Ha|]. split; [apply extends_refl | intros b []].
  - destruct (f a b) as [y|] eqn:E; cbn [bind]; [|discriminate]. intros H.
    destruct (Hf a b y ltac:(now left) Ha E) as (Hc & He & Hq).
    destruct (IH ltac:(intros x b' y' Hb; apply Hf; now right) y Hc H) as (Hc' & He' & Hq').
    split; [exact Hc'|]. split; [eapply extends_trans; eassumption|].
    intros b' [<- | Hb]; [eapply Hmono; eassumption | now apply Hq'].
Qed.

Lemma fold_result_Ok {A B : Type} (f : A -> B -> result A) (l : list B) (a : A) :
  (forall x b, In b l -> exists y, f x b = Ok y) -> exists a', fold_result f l a = Ok a'.
Proof.
  revert a. induction l as [|b l IH]; intros a H; cbn [fold_result]; [eauto|].
  destruct (H a b ltac:(now left)) as [y ->]. cbn [bind].
  apply IH. intros x b' Hb. apply H. now right.
Qed.

Lemma fold_result_Raise {A B : Type} (f : A -> B -> result A) (l : list B) (a : A)
    (e : exn) :
  (forall x b e', f x b = Raise e' -> e' = e) ->
  (exists b, In b l /\ forall x, exists e', f x b = Raise e') ->
  fold_result f l a = Raise e.
Proof.
  intros He (b & Hb & Hr). revert a. induction l as [|b' l IH]; intros a; [contradiction|].
  cbn [fold_result]. destruct (f a b') as [y|e'] eqn:E; cbn [bind].
  - destruct Hb as [-> | Hb]; [|now apply IH].
    destruct (Hr a) as [e' E']. congruence.
  - f_equal. eapply He. exact E.
Qed.

Lemma add_upstream_spec (supplier_id : string) (G G' : DiGraph) (up : upstream) :
  closed G -> add_upstream supplier_id G up = Ok G' ->
  closed G' /\ extends G G'
  /\ exists up_name,
       upstream_name up = Some up_name
       /\ edge G' (supplier_id ++ "_upstream_" ++ up_name) supplier_id.
Proof.
  intros Hc. unfold add_upstream.
  destruct (upstream_name up) as [nm|]; cbn [getitem bind]; [|discriminate].
  destruct (upstream_country up) as [co|]; cbn [getitem bind]; [|discriminate].
  intros [= <-]. split; [now apply closed_add_edge, closed_add_node|].
  split; [eapply extends_trans; [apply add_node_extends | apply add_edge_extends]|].
  exists nm. split; [reflexivity | apply edge_add_edge].
Qed.

Lemma add_upstream_total (supplier_id : string) (G : DiGraph) (up : upstream) :
  match add_upstream supplier_id G up with
  | Ok _ => present (upstream_name up) && present (upstream_country up) = true
  | Raise e =>
      e = KeyError /\ present (upstream_name up) && present (upstream_country up) = false
  end.
Proof.
  unfold add_upstream.
  destruct (upstream_name up), (upstream_country up); cbn; auto.
Qed.

Lemma add_supplier_spec (upstream_suppliers : Supplier.t -> list upstream)
    (company_id : string) (G G' : DiGraph) (s : Supplier.t) :
  closed G -> add_supplier upstream_suppliers company_id G s = Ok G' ->
  closed G' /\ extends G G'
  /\ is_node G' (Supplier._id s) = true
  /\ edge G' (Supplier._id s) company_id
  /\ forall up, In up (upstream_suppliers s) ->
       exists up_name,
         upstream_name up = Some up_name
         /\ edge G' (Supplier._id s ++ "_upstream_" ++ up_name) (Supplier._id s).
Proof.
  intros Hc. unfold add_supplier.
  destruct (Supplier.name s) as [nm|]; cbn [getitem bind]; [|discriminate].
  destruct (Supplier.country s) as [co|]; cbn [getitem bind]; [|discriminate].
  set (G1 := add_node G _ _). set (G2 := add_edge G1 _ _ _). intros H.
  assert (Hc2 : closed G2) by now apply closed_add_edge, closed_add_node.
  destruct (fold_result_spec (add_upstream (Supplier._id s))
              (fun up y => exists up_name,
                   upstream_name up = Some up_name
                   /\ edge y (Supplier._id s ++ "_upstream_" ++ up_name) (Supplier._id s))
              (upstream_suppliers s) G2 G') as (Hc' & He & Hq); auto.
  - intros x b y _ Hx Hb. now apply add_upstream_spec.
  - intros b y z (nm' & Hn & Hed) [_ Hz]. exists nm'. auto.
  - split; [exact Hc'|].
    assert (He2 : extends G G2)
      by (eapply extends_trans; [apply add_node_extends | apply add_edge_extends]).
    split; [eapply extends_trans; eassumption|].
    destruct He as [Hn Hed]. split; [|split; [|exact Hq]].
    + apply Hn. subst G2. rewrite is_node_add_edge, String.eqb_refl.
      now rewrite orb_true_r.
    + apply Hed. apply edge_add_edge.
Qed.

Lemma add_supplier_total (upstream_suppliers : Supplier.t -> list upstream)
    (company_id : string) (G : DiGraph) (s : Supplier.t) :
  match add_supplier upstream_suppliers company_id G s with
  | Ok _ => complete upstream_suppliers s = true
  | Raise e => e = KeyError /\ complete upstream_suppliers s = false
  end.
Proof.
  unfold add_supplier, complete.
  destruct (Supplier.name s) as [nm|]; cbn [getitem bind present andb]; [|auto].
  destruct (Supplier.country s) as [co|]; cbn [getitem bind present andb]; [|auto].
  set (G2 := add_edge _ _ _ _). clearbody G2. revert G2.
  induction (upstream_suppliers s) as [|up l IH]; intros G2; cbn [fold_result forallb];
    [reflexivity|].
  pose proof (add_upstream_total (Supplier._id s) G2 up) as Hu.
  destruct (add_upstream (Supplier._id s) G2 up) as [G3|e]; cbn [bind].
  - rewrite Hu. cbn [andb]. apply IH.
  - destruct Hu as [-> ->]. auto.
Qed.

Lemma propagate_risk_closed (G : DiGraph) (origin : string) (s0 t : Q) :
  well_formed G = true -> is_node G origin = true ->
  exists m, propagate_risk G origin s0 t = Some (Ok m).
Proof.
  intros Hwf Hn. unfold propagate_risk, is_node, nodes in *.
  destruct (assoc origin G) as [[a succs]|] eqn:Ha; [|discriminate].
  destruct (loop_total G t (enough_fuel G) (initial_state origin s0)) as [r Hr].
  { unfold measure, enough_fuel. cbn [initial_state queue visited length].
    rewrite unvisited_out_empty. lia. }
  rewrite Hr.
  destruct (GraphPropagationExtras.loop_no_raise G t Hwf (enough_fuel G)
              (initial_state origin s0) r) as [m ->]; [|exact Hr|eauto].
  intros n s [[= <- <-] | []]. unfold is_node. now rewrite Ha.
Qed.

Lemma build_supply_graph_inv (db : Db.t) (upstream_suppliers : Supplier.t -> list upstream)
    (company_id : string) (G : DiGraph) :
  build_supply_graph db upstream_suppliers company_id = Ok G ->
  closed G
  /\ match find (fun c => String.eqb (Company._id c) company_id) (Db.companies db) with
     | None => G = []
     | Some _ =>
         is_node G company_id = true
         /\ forall s, In s (Db.suppliers db) -> Supplier.company_id s = Some company_id ->
              is_node G (Supplier._id s) = true
              /\ edge G (Supplier._id s) company_id
              /\ forall up, In up (upstream_suppliers s) ->
                   exists up_name,
                     upstream_name up = Some up_name
                     /\ edge G (Supplier._id s ++ "_upstream_" ++ up_name) (Supplier._id s)
     end.
Proof.
  unfold build_supply_graph.
  destruct (find _ (Db.companies db)) as [c|] eqn:Ec.
  - apply find_some in Ec. destruct Ec as [_ Ec]. apply String.eqb_eq in Ec.
    destruct (Company.company_name c) as [cn|]; cbn [getitem bind]; [|discriminate].
    rewrite Ec. set (G0 := add_node [] company_id _). intros H.
    assert (Hc0 : closed G0) by (apply closed_add_node; intros k a succs m e []).
    destruct (fold_result_spec (add_supplier upstream_suppliers company_id)
                (fun s y => is_node y (Supplier._id s) = true
                   /\ edge y (Supplier._id s) company_id
                   /\ forall up, In up (upstream_suppliers s) ->
                        exists up_name,
                          upstream_name up = Some up_name
                          /\ edge y (Supplier._id s ++ "_upstream_" ++ up_name)
                               (Supplier._id s))
                (List.filter
                   (fun s => opt_eqb (Supplier.company_id s) (Some company_id))
                   (Db.suppliers db))
                G0 G) as (Hc & [Hn He] & Hq); auto.
    + intros x b y _ Hx Hb.
      destruct (add_supplier_spec _ _ _ _ _ Hx Hb) as (H1 & H2 & H3 & H4 & H5). auto.
    + intros b y z (H1 & H2 & H3) [Hn He]. split; [auto|]. split; [auto|].
      intros up Hup. destruct (H3 up Hup) as (nm & H4 & H5). eauto.
    + split; [exact Hc|]. split.
      * apply Hn. subst G0. rewrite is_node_add_node, String.eqb_refl. apply orb_true_r.
      * intros s Hs Hco. apply Hq. apply List.filter_In. split; [exact Hs|].
        rewrite Hco. cbn. apply String.eqb_refl.
  - intros [= <-]. split; [intros k a succs m e []|reflexivity].
Qed.

(** A graph built by [build_supply_graph] can always be propagated over:
    each of its edges ends in one of its nodes, so [propagate_risk] from
    any node of it returns a map and raises nothing. *)
Theorem built_graph_propagates
    (db : Db.t) (upstream_suppliers : Supplier.t -> list upstream)
    (company_id : string) (G : DiGraph) (origin : string) (s0 t : Q) :
  build_supply_graph db upstream_suppliers company_id = Ok G ->
  well_formed G = true
  /\ (is_node G origin = true -> exists m, propagate_risk G origin s0 t = Some (Ok m))
  /\ (is_node G origin = false -> propagate_risk G origin s0 t = Some (Raise KeyError)).
Proof.
  intros H. apply build_supply_graph_inv in H. destruct H as [Hc _].
  apply closed_well_formed in Hc. split; [exact Hc|]. split.
  - intros Hn. now apply propagate_risk_closed.
  - unfold propagate_risk, is_node, nodes.
    destruct (assoc origin G) as [[a succs]|]; [discriminate | reflexivity].
Qed.

Lemma built_graph_propagates_witness :
  exists G,
    build_supply_graph Scenarios.tie_db SupplyGraphScenarios.upstream_of "c1" = Ok G
    /\ exists m, propagate_risk G "s1_upstream_Ras Gas" 8 1 = Some (Ok m).
Proof.
  eexists. split; [vm_compute; reflexivity|].
  match goal with |- exists m, propagate_risk ?G _ _ _ = _ =>
    destruct (built_graph_propagates Scenarios.tie_db SupplyGraphScenarios.upstream_of
                "c1" G "s1_upstream_Ras Gas" 8 1) as (_ & H & _)
  end; [vm_compute; reflexivity|].
  apply H. vm_compute. reflexivity.
Defined.

(** The shape of the built graph.  Without the company document it is
    empty.  Otherwise the company is a node, every stored supplier of the
    company is a node with an edge to the company, whatever its tier, and
    every entry of its [upstream_suppliers] gives a node, named after the
    supplier and the entry, with an edge to the supplier. *)
Theorem built_graph_edges
    (db : Db.t) (upstream_suppliers : Supplier.t -> list upstream)
    (company_id : string) (G : DiGraph) :
  build_supply_graph db upstream_suppliers company_id = Ok G ->
  match find (fun c => String.eqb (Company._id c) company_id) (Db.companies db) with
  | None => G = []
  | Some _ =>
      is_node G company_id = true
      /\ forall s, In s (Db.suppliers db) -> Supplier.company_id s = Some company_id ->
           is_node G (Supplier._id s) = true
           /\ edge G (Supplier._id s) company_id
           /\ forall up, In up (upstream_suppliers s) ->
                exists up_name,
                  upstream_name up = Some up_name
                  /\ edge G (Supplier._id s ++ "_upstream_" ++ up_name) (Supplier._id s)
  end.
Proof. intros H. now apply build_supply_graph_inv in H. Qed.

Lemma built_graph_edges_witness :
  exists G,
    build_supply_graph Scenarios.tie_db SupplyGraphScenarios.upstream_of "c1" = Ok G
    /\ edge G "s1" "c1" /\ edge G "s1_upstream_Ras Gas" "s1".
Proof.
  destruct (build_supply_graph Scenarios.tie_db SupplyGraphScenarios.upstream_of "c1")
    as [G|] eqn:E; [|vm_compute in E; discriminate E].
  exists G. split; [reflexivity|].
  pose proof (built_graph_edges _ _ _ _ E) as H. cbn [find Scenarios.tie_db
    Scenarios.store Db.companies Scenarios.company Company._id String.eqb Ascii.eqb
    Bool.eqb] in H.
  destruct H as [_ H].
  destruct (H (Scenarios.single_source "LPG" 100) ltac:(now left) eq_refl)
    as (_ & H1 & H2).
  split; [exact H1|].
  destruct (H2 _ ltac:(now left)) as (nm & Hn & He).
  injection Hn as <-. exact He.
Defined.

(** [build_supply_graph] fails as a whole on one incomplete document.
    With the company in the store, it returns a graph exactly when the
    company has a name and each of its suppliers, and each of their
    upstream entries, has a name and a country; otherwise it raises
    [KeyError].  Without the company it returns the empty graph. *)
Theorem build_supply_graph_outcomes
    (db : Db.t) (upstream_suppliers : Supplier.t -> list upstream) (company_id : string) :
  match find (fun c => String.eqb (Company._id c) company_id) (Db.companies db) with
  | None => build_supply_graph db upstream_suppliers company_id = Ok []
  | Some c =>
      if present (Company.company_name c)
         && forallb (complete upstream_suppliers)
              (List.filter (fun s => opt_eqb (Supplier.company_id s) (Some company_id))
                           (Db.suppliers db))
      then exists G, build_supply_graph db upstream_suppliers company_id = Ok G
      else build_supply_graph db upstream_suppliers company_id = Raise KeyError
  end.
Proof.
  unfold build_supply_graph.
  destruct (find _ (Db.companies db)) as [c|]; [|reflexivity].
  destruct (Company.company_name c) as [cn|]; cbn [getitem bind present andb];
    [|reflexivity].
  set (G0 := add_node [] _ _). clearbody G0.
  set (l := List.filter _ _). clearbody l.
  destruct (forallb (complete upstream_suppliers) l) eqn:E.
  - apply fold_result_Ok. intros x b Hb.
    rewrite forallb_forall in E. specialize (E b Hb).
    pose proof (add_supplier_total upstream_suppliers (Company._id c) x b) as Ht.
    destruct (add_supplier _ _ x b) as [y|e]; [eauto|].
    destruct Ht as [_ Ht]. congruence.
  - apply fold_result_Raise.
    + intros x b e' He.
      pose proof (add_supplier_total upstream_suppliers (Company._id c) x b) as Ht.
      rewrite He in Ht. now destruct Ht.
    + assert (Hex : exists b, In b l /\ complete upstream_suppliers b = false).
      { clear -E. induction l as [|b l IH]; [discriminate|].
        cbn [forallb] in E. apply andb_false_iff in E. destruct E as [E | E].
        - exists b. split; [now left | exact E].
        - destruct (IH E) as (b' & Hb & Hc). exists b'. split; [now right | exact Hc]. }
      destruct Hex as (b & Hb & Hcb). exists b. split; [exact Hb|]. intros x.
      pose proof (add_supplier_total upstream_suppliers (Company._id c) x b) as Ht.
      destruct (add_supplier _ _ x b) as [y|e]; [congruence | eauto].
Qed.

End SupplyGraphFacts.

(** ** [propagate_risk] on binary64 floats *)

Module GraphPropagation64Facts.
Import Py GraphPropagation GraphPropagationFacts GraphPropagation64.

Lemma visit_successor_cases64 (G : DiGraph) (t score : Float64.float)
    (p p' : gmap string Float64.float) (q q' : list (string * Float64.float))
    (e : string * edge_attrs) :
  visit_successor G t score (Ok (p, q)) e = Ok (p', q') ->
  exists a,
    nodes G (fst e) = Ok a
    /\ let s' := propagated_score score (dep_weight (snd e)) (vulnerability a) in
       (p' = p /\ q' = q
        /\ (Float64.ltb t s' = false
            \/ exists old, p !! fst e = Some old /\ Float64.ltb old s' = false))
       \/ (Float64.ltb t s' = true
           /\ (p !! fst e = None
               \/ exists old, p !! fst e = Some old /\ Float64.ltb old s' = true)
           /\ p' = <[fst e := Float64.round2 s']> p
           /\ q' = q ++ [(fst e, s')]).
Proof.
  unfold visit_successor. cbn [bind fst snd].
  destruct (nodes G (fst e)) as [a|]; cbn [bind]; [|discriminate].
  intros H. exists a. split; [reflexivity|]. cbv zeta.
  destruct (Float64.ltb t _) eqn:Et; [|inversion H; auto].
  destruct (p !! fst e) as [old|] eqn:El.
  - destruct (Float64.ltb old _) eqn:Eo; inversion H; subst; [right; eauto 10|].
    left. eauto 10.
  - inversion H; subst. right. auto.
Qed.

Lemma visit_successor_queue64 (G : DiGraph) (t score : Float64.float)
    (p p' : gmap string Float64.float) (q q' : list (string * Float64.float))
    (e : string * edge_attrs) :
  visit_successor G t score (Ok (p, q)) e = Ok (p', q') ->
  (length q' <= S (length q))%nat.
Proof.
  intros H. apply visit_successor_cases64 in H as (a & _ & H). cbv zeta in H.
  destruct H as [(_ & -> & _) | (_ & _ & _ & ->)]; [lia|].
  rewrite length_app. cbn. lia.
Qed.

Lemma fold_visit_Raise64 (G : DiGraph) (t score : Float64.float)
    (l : list (string * edge_attrs)) (e : exn) :
  fold_left (visit_successor G t score) l (Raise e) = Raise e.
Proof. induction l; [reflexivity | assumption]. Qed.

(** Whatever every round of the [for] loop preserves holds after it. *)
Lemma fold_visit_ind64 (G : DiGraph) (t score : Float64.float)
    (P : gmap string Float64.float -> list (string * Float64.float) -> Prop)
    (l : list (string * edge_attrs)) :
  (forall p q p' q' e, In e l -> P p q ->
     visit_successor G t score (Ok (p, q)) e = Ok (p', q') -> P p' q') ->
  forall p q p' q',
    P p q ->
    fold_left (visit_successor G t score) l (Ok (p, q)) = Ok (p', q') ->
    P p' q'.
Proof.
  induction l as [|e l IH]; intros Hstep p q p' q' HP Hfold.
  - inversion Hfold; subst. exact HP.
  - cbn [fold_left] in Hfold.
    destruct (visit_successor G t score (Ok (p, q)) e) as [[p1 q1] | ex] eqn:Hv.
    + eapply IH; [| |exact Hfold].
      * intros. eapply Hstep; eauto. now right.
      * eapply Hstep; eauto. now left.
    + rewrite fold_visit_Raise64 in Hfold. discriminate.
Qed.

Lemma fold_visit_queue64 (G : DiGraph) (t score : Float64.float)
    (l : list (string * edge_attrs))
    (p p' : gmap string Float64.float) (q q' : list (string * Float64.float)) :
  fold_left (visit_successor G t score) l (Ok (p, q)) = Ok (p', q') ->
  (length q' <= length q + length l)%nat.
Proof.
  revert p q. induction l as [|e l IH]; intros p q Hfold.
  - inversion Hfold; subst. lia.
  - cbn [fold_left] in Hfold.
    destruct (visit_successor G t score (Ok (p, q)) e) as [[p1 q1] | ex] eqn:Hv.
    + apply IH in Hfold. apply visit_successor_queue64 in Hv. cbn [length]. lia.
    + rewrite fold_visit_Raise64 in Hfold. discriminate.
Qed.

(** What one round of the [while] loop does. *)
Lemma step_inv64 (G : DiGraph) (t : Float64.float) (st st' : state) :
  steps_to G t st st' ->
  exists node score rest,
    queue st = (node, score) :: rest
    /\ (((node ∈ visited st) /\ propagated st' = propagated st
         /\ queue st' = rest /\ visited st' = visited st)
        \/ ((node ∉ visited st) /\ visited st' = {[node]} ∪ visited st
            /\ exists a succs,
                 assoc node G = Some (a, succs)
                 /\ fold_left (visit_successor G t score) succs
                      (Ok (propagated st, rest)) = Ok (propagated st', queue st'))).
Proof.
  unfold steps_to, step. destruct (queue st) as [|[node score] rest]; [discriminate|].
  intros H. exists node, score, rest. split; [reflexivity|].
  destruct (bool_decide (node ∈ visited st)) eqn:E.
  - apply bool_decide_eq_true_1 in E. injection H as <-. left. auto.
  - apply bool_decide_eq_false_1 in E. right.
    unfold successors in H. destruct (assoc node G) as [[a succs]|] eqn:Ha;
      cbn [bind] in H; [|discriminate].
    destruct (fold_left _ _ _) as [[p q]|] eqn:Hf; cbn [bind] in H; [|discriminate].
    injection H as <-. cbn [visited propagated queue fst snd].
    repeat split; [assumption|]. exists a, succs. auto.
Qed.

Lemma step_measure64 (G : DiGraph) (t : Float64.float) (st st' : state) :
  steps_to G t st st' -> (measure G st' < measure G st)%nat.
Proof.
  intros H. apply step_inv64 in H as (node & score & rest & Hq & H).
  unfold measure. rewrite Hq. cbn [length].
  destruct H as [(_ & _ & -> & ->) | (Hnot & -> & a & succs & Ha & Hf)]; [lia|].
  apply fold_visit_queue64 in Hf.
  pose proof (unvisited_out_expand G (visited st) node a succs Ha Hnot). lia.
Qed.

Lemma loop_total64 (G : DiGraph) (t : Float64.float) (fuel : nat) :
  forall st, (measure G st < fuel)%nat -> exists r, loop fuel G t st = Some r.
Proof.
  induction fuel as [|fuel IH]; intros st Hm; [lia|].
  cbn [loop]. destruct (step G t st) as [[st'|e]|] eqn:Hs; eauto.
  apply IH. pose proof (step_measure64 G t st st' Hs). lia.
Qed.

(** The rounds of [enough_fuel] always reach an outcome. *)
Lemma propagate_risk_total64 (G : DiGraph) (origin : string) (s0 t : Float64.float) :
  exists r, propagate_risk G origin s0 t = Some r.
Proof.
  unfold propagate_risk. destruct (nodes G origin); [|eauto].
  apply loop_total64. unfold measure, enough_fuel.
  cbn [initial_state queue visited length]. rewrite unvisited_out_empty. lia.
Qed.

(** The map returned by the loop is the map of the state in which the
    run ends. *)
Lemma loop_run64 (G : DiGraph) (t : Float64.float) (fuel : nat)
    (m : gmap string Float64.float) :
  forall st, loop fuel G t st = Some (Ok m) ->
    exists st', rtc (steps_to G t) st st' /\ queue st' = [] /\ propagated st' = m.
Proof.
  induction fuel as [|fuel IH]; intros st H; [discriminate|].
  cbn [loop] in H. destruct (step G t st) as [[st1|e]|] eqn:Hs; [|discriminate|].
  - apply IH in H as (st' & Hrun & Hq & Hp). exists st'.
    split; [|auto]. eapply rtc_l; [exact Hs | exact Hrun].
  - injection H as <-. exists st. split; [reflexivity|]. split; [|reflexivity].
    unfold step in Hs. destruct (queue st) as [|[n s] r]; [reflexivity|].
    destruct (bool_decide _); discriminate.
Qed.

Lemma propagate_risk_run64 (G : DiGraph) (origin : string) (s0 t : Float64.float)
    (m : gmap string Float64.float) :
  propagate_risk G origin s0 t = Some (Ok m) ->
  exists a st, nodes G origin = Ok a
               /\ rtc (steps_to G t) (initial_state origin s0) st
               /\ queue st = [] /\ propagated st = m.
Proof.
  unfold propagate_risk. destruct (nodes G origin) as [a|]; [|discriminate].
  intros H. apply loop_run64 in H as (st & H). exists a, st. auto.
Qed.

(** *** What a run stores *)

Section Run64.
Context (G : DiGraph) (origin : string) (s0 t : Float64.float).

Lemma Inv_initial64 :
  run_invariant G origin s0 t (propagated (initial_state origin s0))
    (queue (initial_state origin s0)).
Proof.
  cbn [initial_state propagated queue]. split; [|split].
  - intros n s [[= <- <-] | []]. constructor.
  - intros k v H. apply lookup_singleton_Some in H as [<- <-]. now left.
  - rewrite lookup_singleton_eq. eauto.
Qed.

Lemma visit_successor_Inv64 (node : string) (score : Float64.float)
    (p p' : gmap string Float64.float) (q q' : list (string * Float64.float))
    (e : string * edge_attrs) :
  reaches G origin s0 node score ->
  has_edge G node (fst e) (snd e) ->
  run_invariant G origin s0 t p q ->
  visit_successor G t score (Ok (p, q)) e = Ok (p', q') ->
  run_invariant G origin s0 t p' q'.
Proof.
  intros Hr He (Hq & Hp & Ho) Hv.
  apply visit_successor_cases64 in Hv as (a & Ha & Hv). cbv zeta in Hv.
  destruct Hv as [(-> & -> & _) | (Ht & _ & -> & ->)]; [repeat split; assumption|].
  split; [|split].
  - intros n s Hin. apply in_app_or in Hin as [Hin | [[= <- <-] | []]]; [auto|].
    econstructor; eassumption.
  - intros k v Hl. destruct (decide (fst e = k)) as [<- | Hne].
    + rewrite lookup_insert_eq in Hl. injection Hl as <-. right.
      eexists. split; [|split; [exact Ht | reflexivity]].
      exists node, score, (snd e), a. auto.
    + rewrite lookup_insert_ne in Hl by assumption. auto.
  - destruct (decide (fst e = origin)) as [<- | Hne].
    + rewrite lookup_insert_eq. eauto.
    + now rewrite lookup_insert_ne.
Qed.

Lemma step_Inv64 (st st' : state) :
  run_invariant G origin s0 t (propagated st) (queue st) -> steps_to G t st st' ->
  run_invariant G origin s0 t (propagated st') (queue st').
Proof.
  intros HI H. apply step_inv64 in H as (node & score & rest & Hq & H).
  rewrite Hq in HI. destruct HI as (HIq & HIp & HIo).
  assert (Hrest : run_invariant G origin s0 t (propagated st) rest).
  { repeat split; auto. intros. apply HIq. now right. }
  destruct H as [(_ & -> & -> & _) | (_ & _ & a & succs & Ha & Hf)]; [assumption|].
  eapply (fold_visit_ind64 G t score (run_invariant G origin s0 t) succs);
    [|exact Hrest|exact Hf].
  intros p q p' q' [m e] Hin HP Hv.
  eapply visit_successor_Inv64; [apply HIq; now left| |exact HP|exact Hv].
  exists a, succs. auto.
Qed.

Lemma run_Inv64 (st : state) :
  rtc (steps_to G t) (initial_state origin s0) st ->
  run_invariant G origin s0 t (propagated st) (queue st).
Proof.
  revert st. apply rtc_ind_r; [apply Inv_initial64|].
  intros st st' _ Hstep HI. eapply step_Inv64; eassumption.
Qed.

(** *** Keys are never removed *)

Lemma visit_successor_keeps64 (score : Float64.float)
    (p p' : gmap string Float64.float) (q q' : list (string * Float64.float))
    (e : string * edge_attrs) :
  visit_successor G t score (Ok (p, q)) e = Ok (p', q') -> keeps_keys p p'.
Proof.
  intros Hv. apply visit_successor_cases64 in Hv as (a & _ & Hv). cbv zeta in Hv.
  destruct Hv as [(-> & _) | (_ & _ & -> & _)]; intros k Hk; [exact Hk|].
  destruct (decide (fst e = k)) as [<- | Hne].
  - rewrite lookup_insert_eq. eauto.
  - now rewrite lookup_insert_ne.
Qed.

Lemma fold_visit_keeps64 (score : Float64.float) (l : list (string * edge_attrs))
    (p p' : gmap string Float64.float) (q q' : list (string * Float64.float)) :
  fold_left (visit_successor G t score) l (Ok (p, q)) = Ok (p', q') -> keeps_keys p p'.
Proof.
  intros Hf.
  apply (fold_visit_ind64 G t score (fun p1 _ => keeps_keys p p1) l)
    with (p := p) (q := q) (q' := q'); [|intros k Hk; exact Hk|exact Hf].
  intros p1 q1 p2 q2 e _ H1 Hv k Hk.
  eapply visit_successor_keeps64; [exact Hv|]. now apply H1.
Qed.

Lemma step_keeps64 (st st' : state) :
  steps_to G t st st' -> keeps_keys (propagated st) (propagated st').
Proof.
  intros H. apply step_inv64 in H as (node & score & rest & _ & H).
  destruct H as [(_ & -> & _) | (_ & _ & a & succs & _ & Hf)]; [intros k Hk; exact Hk|].
  eapply fold_visit_keeps64. exact Hf.
Qed.

Lemma run_keeps64 (st st' : state) :
  rtc (steps_to G t) st st' -> keeps_keys (propagated st) (propagated st').
Proof.
  induction 1 as [st | st st1 st' H1 _ IH]; [intros k Hk; exact Hk|].
  intros k Hk. apply IH. eapply step_keeps64; eassumption.
Qed.

(** A successor above the threshold has an entry after its round. *)
Lemma visit_successor_reports64 (score : Float64.float)
    (p p' : gmap string Float64.float) (q q' : list (string * Float64.float))
    (e : string * edge_attrs) (a : node_attrs) :
  nodes G (fst e) = Ok a ->
  Float64.ltb t (propagated_score score (dep_weight (snd e)) (vulnerability a)) = true ->
  visit_successor G t score (Ok (p, q)) e = Ok (p', q') ->
  is_Some (p' !! fst e).
Proof.
  intros Ha Ht Hv. apply visit_successor_cases64 in Hv as (a' & Ha' & Hv).
  rewrite Ha in Ha'. injection Ha' as <-. cbv zeta in Hv.
  destruct Hv as [(-> & _ & [Hf | (old & Ho & _)]) | (_ & _ & -> & _)].
  - congruence.
  - rewrite Ho. eauto.
  - rewrite lookup_insert_eq. eauto.
Qed.

Lemma fold_visit_reports64 (score : Float64.float) (l : list (string * edge_attrs))
    (e : string * edge_attrs) (a : node_attrs) :
  In e l -> nodes G (fst e) = Ok a ->
  Float64.ltb t (propagated_score score (dep_weight (snd e)) (vulnerability a)) = true ->
  forall p q p' q',
    fold_left (visit_successor G t score) l (Ok (p, q)) = Ok (p', q') ->
    is_Some (p' !! fst e).
Proof.
  intros Hin Ha Ht. induction l as [|e' l IH]; [contradiction|].
  intros p q p' q' Hf. cbn [fold_left] in Hf.
  destruct (visit_successor G t score (Ok (p, q)) e') as [[p1 q1] | ex] eqn:Hv;
    [|rewrite fold_visit_Raise64 in Hf; discriminate].
  destruct Hin as [-> | Hin].
  - eapply fold_visit_keeps64; [exact Hf|].
    eapply visit_successor_reports64; eassumption.
  - eapply IH; eassumption.
Qed.

(** A round in which no successor is above the threshold stores nothing. *)
Lemma fold_visit_nothing64 (score : Float64.float) (l : list (string * edge_attrs)) :
  (forall e a, In e l -> nodes G (fst e) = Ok a ->
     Float64.ltb t (propagated_score score (dep_weight (snd e)) (vulnerability a))
     = false) ->
  forall p q p' q',
    fold_left (visit_successor G t score) l (Ok (p, q)) = Ok (p', q') ->
    p' = p /\ q' = q.
Proof.
  intros Hno p q p' q' Hf.
  apply (fold_visit_ind64 G t score (fun p1 q1 => p1 = p /\ q1 = q) l)
    with (p := p) (q := q); [|auto|exact Hf].
  intros p1 q1 p2 q2 e Hin [-> ->] Hv.
  apply visit_successor_cases64 in Hv as (a & Ha & Hv). cbv zeta in Hv.
  destruct Hv as [(-> & -> & _) | (Ht & _)]; [auto|].
  rewrite (Hno e a Hin Ha) in Ht. discriminate.
Qed.

End Run64.

(** Scenario E of the specification on floats: the result map of the
    two-tier chain is {U: 8.0, S1: 10.0, C: 6.0}. *)
Example scenario_E_binary64 :
  propagate_risk Scenarios.two_tier_chain "U" (Float64.of_Q 8) (Float64.of_Q 1)
  = Some (Ok {[ "U" := Float64.of_Q 8; "S1" := Float64.of_Q 10; "C" := Float64.of_Q 6 ]}).
Proof. vm_compute. reflexivity. Qed.

(** A product that exact arithmetic puts on the threshold lies above it
    in binary64: 3.0 * 0.8 * 1.25 is 3.0000000000000004, so with initial
    score and threshold 3.0 the single-source successor is stored, as 3.0. *)
Example threshold_tie_binary64 :
  propagate_risk [("O", Scenarios.gnode None [("A", 0.8)]);
                  ("A", Scenarios.gnode (Some true) [])]
    "O" (Float64.of_Q 3) (Float64.of_Q 3)
  = Some (Ok {[ "O" := Float64.of_Q 3; "A" := Float64.of_Q 3 ]}).
Proof. vm_compute. reflexivity. Qed.

(** [round] sees the binary64 product: 1.02 * 1.0 * 1.25 is stored as 1.27
    and 5.004 * 1.0 * 1.25 as 6.25. *)
Example stored_roundings_binary64 :
  propagate_risk [("O", Scenarios.gnode None [("A", 1.0)]);
                  ("A", Scenarios.gnode (Some true) [])]
    "O" (Float64.of_Q 1.02) (Float64.of_Q 1)
  = Some (Ok {[ "O" := Float64.of_Q 1.02; "A" := Float64.of_Q 1.27 ]})
  /\ propagate_risk [("O", Scenarios.gnode None [("A", 1.0)]);
                     ("A", Scenarios.gnode (Some true) [])]
       "O" (Float64.of_Q 5.004) (Float64.of_Q 1)
     = Some (Ok {[ "O" := Float64.of_Q 5.004; "A" := Float64.of_Q 6.25 ]}).
Proof. split; vm_compute; reflexivity. Qed.

(** C10, as stated, fails twice.  With one edge O -> A, initial score
    1.004 and threshold 1, node A is stored as 1.0, which is not above the
    threshold; and on the cycle O -> A -> O with initial score 8 the origin
    ends up mapped to 10.0. *)
Lemma C10_result_map_fails :
  (exists m v,
     propagate_risk Scenarios.one_edge "O" (Float64.of_Q 1.004) (Float64.of_Q 1)
       = Some (Ok m)
     /\ m !! "A" = Some v /\ Float64.ltb (Float64.of_Q 1) v = false)
  /\ (exists m v,
        propagate_risk (Scenarios.two_cycle 1) "O" (Float64.of_Q 8) (Float64.of_Q 1)
          = Some (Ok m)
        /\ m !! "O" = Some v /\ v = Float64.of_Q 10
        /\ Float64.eqb v (Float64.of_Q 8) = false).
Proof.
  split.
  - eexists. eexists. split; [vm_compute; reflexivity|].
    split; [vm_compute; reflexivity|]. vm_compute. reflexivity.
  - eexists. eexists. split; [vm_compute; reflexivity|].
    split; [vm_compute; reflexivity|]. split; vm_compute; reflexivity.
Qed.

(** C10, amended: [propagate_risk] always reaches an outcome, and a
    returned map always has an entry for the origin, which is the unrounded
    initial score or the rounding of a score that came back to the origin
    over an edge, and is the initial score when no edge enters the origin;
    every other key is mapped to the rounding to 2 decimals of a score that
    arrived over an edge and is strictly above the threshold.  Scores,
    products, comparisons and roundings are those of binary64. *)
Theorem C10_result_entries
    (G : DiGraph) (origin : string) (s0 t : Float64.float) :
  (exists r, propagate_risk G origin s0 t = Some r)
  /\ forall m : gmap string Float64.float,
       propagate_risk G origin s0 t = Some (Ok m) ->
       (exists v, m !! origin = Some v /\ entry_ok G origin s0 t origin v)
       /\ ((forall n e, ~ has_edge G n origin e) -> m !! origin = Some s0)
       /\ (forall k v, k <> origin -> m !! k = Some v ->
             exists s, arrives G origin s0 k s
                       /\ Float64.ltb t s = true /\ v = Float64.round2 s).
Proof.
  split; [apply propagate_risk_total64|].
  intros m Hm. apply propagate_risk_run64 in Hm as (a0 & st & _ & Hrun & _ & <-).
  apply run_Inv64 in Hrun as (_ & Hp & [v Ho]).
  split; [|split].
  - exists v. split; [exact Ho | auto].
  - intros Hno. rewrite Ho. f_equal.
    destruct (Hp _ _ Ho) as [[_ ->] | (s & Harr & _)]; [reflexivity|].
    destruct Harr as (n & sn & e & a & _ & He & _). destruct (Hno _ _ He).
  - intros k w Hne Hl.
    destruct (Hp _ _ Hl) as [[-> _] | (s & Harr & Hlt & ->)]; [contradiction|].
    exists s. auto.
Qed.

Lemma C10_result_entries_witness :
  propagate_risk Scenarios.one_edge "O" (Float64.of_Q 1.004) (Float64.of_Q 1)
    = Some (Ok {[ "O" := Float64.of_Q 1.004; "A" := Float64.of_Q 1 ]})
  /\ ({[ "O" := Float64.of_Q 1.004; "A" := Float64.of_Q 1 ]}
        : gmap string Float64.float) !! "O" = Some (Float64.of_Q 1.004)
  /\ exists s, arrives Scenarios.one_edge "O" (Float64.of_Q 1.004) "A" s
               /\ Float64.ltb (Float64.of_Q 1) s = true
               /\ Float64.of_Q 1 = Float64.round2 s.
Proof.
  assert (E : propagate_risk Scenarios.one_edge "O" (Float64.of_Q 1.004) (Float64.of_Q 1)
              = Some (Ok {[ "O" := Float64.of_Q 1.004; "A" := Float64.of_Q 1 ]}))
    by (vm_compute; reflexivity).
  split; [exact E|].
  destruct (C10_result_entries Scenarios.one_edge "O" (Float64.of_Q 1.004)
              (Float64.of_Q 1)) as (_ & H).
  destruct (H _ E) as (_ & H2 & H3).
  split.
  - apply H2. intros n e (a & succs & Ha & Hin). unfold Scenarios.one_edge in Ha.
    cbn [assoc] in Ha.
    destruct (String.eqb n "O") eqn:E1; [injection Ha as <- <-|].
    + cbn in Hin. destruct Hin as [[=] | []].
    + destruct (String.eqb n "A") eqn:E2; [injection Ha as <- <-|discriminate].
      destruct Hin.
  - apply (H3 "A" (Float64.of_Q 1)); [discriminate | vm_compute; reflexivity].
Defined.

(** A direct successor of the origin whose propagated score
    [s0 * weight * (0.5 + vulnerability * 0.5)], computed in binary64, is
    above the threshold always has an entry in the returned map. *)
Theorem direct_successor_reported
    (G : DiGraph) (origin : string) (s0 t : Float64.float)
    (m : gmap string Float64.float) (k : string) (e : edge_attrs) (a : node_attrs) :
  propagate_risk G origin s0 t = Some (Ok m) ->
  has_edge G origin k e -> nodes G k = Ok a ->
  Float64.ltb t (propagated_score s0 (dep_weight e) (vulnerability a)) = true ->
  is_Some (m !! k).
Proof.
  intros Hm He Ha Ht.
  apply propagate_risk_run64 in Hm as (ao & st & _ & Hrun & Hq & <-).
  apply rtc_inv in Hrun as [<- | (st1 & Hstep & Hrun)]; [discriminate Hq|].
  apply (run_keeps64 G t st1 st Hrun).
  apply step_inv64 in Hstep as (node & score & rest & Hq0 & Hcase).
  cbn [initial_state queue visited propagated] in Hq0, Hcase.
  injection Hq0 as <- <- <-.
  destruct Hcase as [(Hin & _) | (_ & _ & a0 & succs & Hassoc & Hf)];
    [apply not_elem_of_empty in Hin; destruct Hin|].
  destruct He as (a' & succs' & Hassoc' & Hin).
  rewrite Hassoc in Hassoc'. injection Hassoc' as <- <-.
  exact (fold_visit_reports64 G t s0 succs (k, e) a Hin Ha Ht _ _ _ _ Hf).
Qed.

Lemma direct_successor_reported_witness :
  propagate_risk Scenarios.two_tier_chain "U" (Float64.of_Q 8) (Float64.of_Q 1)
    = Some (Ok {[ "U" := Float64.of_Q 8; "S1" := Float64.of_Q 10; "C" := Float64.of_Q 6 ]})
  /\ is_Some (({[ "U" := Float64.of_Q 8; "S1" := Float64.of_Q 10; "C" := Float64.of_Q 6 ]}
                 : gmap string Float64.float) !! "S1").
Proof.
  assert (E : propagate_risk Scenarios.two_tier_chain "U" (Float64.of_Q 8) (Float64.of_Q 1)
              = Some (Ok {[ "U" := Float64.of_Q 8; "S1" := Float64.of_Q 10;
                            "C" := Float64.of_Q 6 ]}))
    by (vm_compute; reflexivity).
  split; [exact E|].
  apply (direct_successor_reported Scenarios.two_tier_chain "U" (Float64.of_Q 8)
           (Float64.of_Q 1) _ "S1" {| weight := Some 1.0 |}
           {| name := None; is_single_source := Some true |} E).
  - eexists. eexists. split; [reflexivity|]. left. reflexivity.
  - reflexivity.
  - vm_compute. reflexivity.
Defined.

(** A risk that no edge out of the origin carries above the threshold
    does not spread: when the propagated score of every direct successor,
    computed in binary64, is not above the threshold, the returned map has
    the origin as its only entry, with the unrounded initial score. *)
Theorem below_threshold_stays_put
    (G : DiGraph) (origin : string) (s0 t : Float64.float)
    (m : gmap string Float64.float) :
  propagate_risk G origin s0 t = Some (Ok m) ->
  (forall k e a,
     has_edge G origin k e -> nodes G k = Ok a ->
     Float64.ltb t (propagated_score s0 (dep_weight e) (vulnerability a)) = false) ->
  m = {[ origin := s0 ]}.
Proof.
  intros Hm Hno.
  apply propagate_risk_run64 in Hm as (ao & st & _ & Hrun & Hq & <-).
  apply rtc_inv in Hrun as [<- | (st1 & Hstep & Hrun)]; [discriminate Hq|].
  apply step_inv64 in Hstep as (node & score & rest & Hq0 & Hcase).
  cbn [initial_state queue visited propagated] in Hq0, Hcase.
  injection Hq0 as <- <- <-.
  destruct Hcase as [(Hin & _) | (_ & _ & a0 & succs & Hassoc & Hf)];
    [apply not_elem_of_empty in Hin; destruct Hin|].
  apply (fold_visit_nothing64 G t s0 succs) in Hf as [Hp1 Hq1].
  - apply rtc_inv in Hrun as [<- | (st2 & Hstep2 & _)]; [exact Hp1|].
    apply step_inv64 in Hstep2 as (node & score & rest & Hq2 & _).
    rewrite Hq1 in Hq2. discriminate Hq2.
  - intros [k e] a Hin Ha. cbn [fst snd] in *.
    apply (Hno k e a); [|exact Ha]. exists a0, succs. auto.
Qed.

Lemma below_threshold_stays_put_witness :
  propagate_risk Scenarios.one_edge "O" (Float64.of_Q 1) (Float64.of_Q 1)
    = Some (Ok {[ "O" := Float64.of_Q 1 ]}).
Proof.
  destruct (propagate_risk Scenarios.one_edge "O" (Float64.of_Q 1) (Float64.of_Q 1))
    as [[m|]|] eqn:E; try (vm_compute in E; discriminate E).
  do 2 f_equal.
  apply (below_threshold_stays_put Scenarios.one_edge "O" (Float64.of_Q 1)
           (Float64.of_Q 1) m E).
  intros k e a (a' & succs & Ha & Hin) Hn.
  cbn in Ha. injection Ha as <- <-. cbn in Hin.
  destruct Hin as [[= <- <-] | []].
  cbn in Hn. injection Hn as <-. vm_compute. reflexivity.
Defined.

End GraphPropagation64Facts.

(** ** [calculate_risk_score] on binary64 floats *)

Module Scoring64Facts.
Import Py Scoring64.

(** Scenario A of the specification on floats: the values are the ones
    that exact arithmetic gives. *)
Example scenario_A_binary64 :
  calculate_risk_score Scenarios.critical_event
    (Scenarios.single_source "LPG" 100) (Scenarios.company "LPG" 5 10)
  = Ok {| risk_score := Float64.of_Q 14.25;
          severity_band := "critical";
          score_components :=
            {| probability := Float64.of_Q 0.95; impact := Float64.of_Q 3.75;
               urgency := Float64.of_Q 2.0; mitigation := Float64.of_Q 0.5 |} |}.
Proof. vm_compute. reflexivity. Qed.

(** C3, as stated, fails: with supply_volume_pct 38, criticality 9 and 9
    inventory days the unrounded score is 9.996923076923078, so the band is
    "high" while the returned risk_score is 10.0, which the band mapping
    calls critical. *)
Lemma C3_band_of_rounded_score_fails :
  exists r,
    calculate_risk_score Scenarios.critical_event
      (Scenarios.single_source "LPG" 38) (Scenarios.company "LPG" 9 9) = Ok r
    /\ risk_score r = Float64.of_Q 10
    /\ severity_band r = "high"
    /\ ~ band_mapping (severity_band r) (risk_score r).
Proof.
  eexists. split; [vm_compute; reflexivity|].
  cbn [risk_score severity_band].
  split; [vm_compute; reflexivity|]. split; [reflexivity|].
  intros [[_ H] _]. cbv zeta in H. vm_compute in H. discriminate (H eq_refl).
Qed.

Lemma score_to_band_mapping (score : Float64.float) :
  band_mapping (score_to_band score) score.
Proof.
  unfold band_mapping, score_to_band. cbv zeta.
  destruct (Float64.leb (Float64.of_Q 10) score) eqn:E10;
    [|replace (Float64.of_Q 10.0) with (Float64.of_Q 10) by (vm_compute; reflexivity);
      rewrite E10].
  - replace (Float64.of_Q 10.0) with (Float64.of_Q 10) by (vm_compute; reflexivity).
    rewrite E10. repeat split; try discriminate; intros; try congruence;
      repeat match goal with H : _ /\ _ |- _ => destruct H end; congruence.
  - replace (Float64.of_Q 6.0) with (Float64.of_Q 6) by (vm_compute; reflexivity).
    destruct (Float64.leb (Float64.of_Q 6) score) eqn:E6.
    + repeat split; try discriminate; intros; try congruence;
        repeat match goal with H : _ /\ _ |- _ => destruct H end; congruence.
    + replace (Float64.of_Q 3.0) with (Float64.of_Q 3) by (vm_compute; reflexivity).
      destruct (Float64.leb (Float64.of_Q 3) score) eqn:E3;
        repeat split; try discriminate; intros; try congruence;
        repeat match goal with H : _ /\ _ |- _ => destruct H end; congruence.
Qed.

(** C3, amended: the band is the band of the unrounded final score
    (probability * impact * urgency) / mitigation under the band mapping,
    and the returned risk_score is that score rounded to 2 decimals; the
    two functions return and raise together.  So the band is a function of
    the unrounded score, not of the returned one. *)
Theorem C3_band_of_unrounded_score
    (rd : RiskEvent.t) (sup : Supplier.t) (cp : Company.t) :
  match calculate_risk_score rd sup cp, unrounded_score rd sup cp with
  | Ok r, Ok score =>
      severity_band r = score_to_band score
      /\ risk_score r = Float64.round2 score
      /\ band_mapping (severity_band r) score
  | Raise e, Raise e' => e = e'
  | Ok _, Raise _ | Raise _, Ok _ => False
  end.
Proof.
  unfold calculate_risk_score, unrounded_score.
  destruct (first _) as [material | e]; cbn [bind]; [|reflexivity].
  destruct (Float64.div (Float64.of_Q 1.0) _) as [buffer_score | e]; cbn [bind];
    [|reflexivity].
  destruct (Float64.div (Float64.mul _ _) _) as [score | e]; cbn [bind]; [|reflexivity].
  cbn [severity_band risk_score].
  split; [reflexivity|]. split; [reflexivity|]. apply score_to_band_mapping.
Qed.

End Scoring64Facts.
